(** * Outlook MCP bridge: token lifecycle and paginated Graph client

    A shallow embedding of the credential store (auth/token-storage.js,
    auth/token-manager.js) and of the Graph API client (utils/graph-api.js,
    in its two revisions) together with the properties of the written
    specification that concern them.

    Conventions of the embedding.
    - A JavaScript string is a [string]: the UTF-8 bytes of a well-formed
      string, so that the URI encoders act byte by byte as the ECMAScript
      and URL standards prescribe for such strings.
    - A parsed JSON value is a [json]; a property that is missing reads as
      [None] (undefined).
    - A JavaScript object used as an ordered dictionary (query parameters,
      the accounts mapping) is an association list in enumeration order.
    - Effects are explicit: a function that performs I/O takes the trace of
      exchanges made so far and returns the extended trace; the environment
      (remote server, file system, clock) answers as a function of that
      trace, which covers servers whose cursors loop as well as stateful
      ones.
    - A JavaScript exception is the [Throw] outcome; state changes made
      before the exception are kept. *)

From Stdlib Require Import Bool Arith ZArith List Lia Ascii String.
Import ListNotations.

Set Warnings "-register-all".

Local Open Scope string_scope.
Local Open Scope Z_scope.
Local Open Scope list_scope.

Infix "+:+" := String.append (at level 60, right associativity).

(* ---------------------------------------------------------------------- *)
(** ** JavaScript values                                                    *)
(* ---------------------------------------------------------------------- *)

Module Js.

Inductive json : Type :=
| JNull
| JBool (b : bool)
| JNum (n : Z)
| JStr (s : string)
| JArr (items : list json)
| JObj (fields : list (string * json)).

(** Own-property lookup in an association list (first binding wins; the
    lists that stand for objects have pairwise distinct keys). *)
Fixpoint assoc {A : Type} (k : string) (o : list (string * A)) : option A :=
  match o with
  | [] => None
  | (k', v) :: rest => if String.eqb k k' then Some v else assoc k rest
  end.

(** [delete o[k]]: the other bindings stay, in their order. *)
Fixpoint remove_key {A : Type} (k : string) (o : list (string * A))
  : list (string * A) :=
  match o with
  | [] => []
  | (k', v) :: rest =>
      if String.eqb k k' then remove_key k rest else (k', v) :: remove_key k rest
  end.

Definition keys {A : Type} (o : list (string * A)) : list string :=
  map fst o.

(** [j.name] for a value [j] that is not null; primitives and arrays have
    none of the properties read by this program. *)
Definition get (name : string) (j : json) : option json :=
  match j with
  | JObj fields => assoc name fields
  | _ => None
  end.

(** ToBoolean. *)
Definition truthy_str (s : string) : bool :=
  match s with
  | EmptyString => false
  | String _ _ => true
  end.

Definition truthy (j : json) : bool :=
  match j with
  | JNull => false
  | JBool b => b
  | JNum n => negb (n =? 0)
  | JStr s => truthy_str s
  | JArr _ => true
  | JObj _ => true
  end.

Definition truthy_opt (v : option json) : bool :=
  match v with
  | None => false
  | Some j => truthy j
  end.

Definition truthy_ostr (v : option string) : bool :=
  match v with
  | None => false
  | Some s => truthy_str s
  end.

(** [s.startsWith(p)]. *)
Definition startsWith (s p : string) : bool := String.prefix p s.

(** [s.split(sep)] for a one-character separator: never empty. *)
Fixpoint split (sep : ascii) (s : string) : list string :=
  match s with
  | EmptyString => [EmptyString]
  | String c rest =>
      if Ascii.eqb c sep then EmptyString :: split sep rest
      else match split sep rest with
           | piece :: pieces => String c piece :: pieces
           | [] => [String c EmptyString]
           end
  end.

(** [pieces.join(sep)]. *)
Fixpoint join (sep : string) (pieces : list string) : string :=
  match pieces with
  | [] => EmptyString
  | [p] => p
  | p :: rest => p +:+ sep +:+ join sep rest
  end.

End Js.

(* ---------------------------------------------------------------------- *)
(** ** URI encoding                                                         *)
(* ---------------------------------------------------------------------- *)

Module Uri.

Definition code (c : ascii) : nat := nat_of_ascii c.

Definition between (lo hi : nat) (c : ascii) : bool :=
  (Nat.leb lo (code c) && Nat.leb (code c) hi)%bool.

Definition is_alnum (c : ascii) : bool :=
  (between 48 57 c || between 65 90 c || between 97 122 c)%bool.

Fixpoint mem_ascii (c : ascii) (s : string) : bool :=
  match s with
  | EmptyString => false
  | String d rest => (Ascii.eqb c d || mem_ascii c rest)%bool
  end.

(** Characters that encodeURIComponent leaves alone (ECMA-262, the
    unreserved set: alphanumerics and the marks). *)
Definition uri_unreserved (c : ascii) : bool :=
  (is_alnum c || mem_ascii c "-_.!~*'()")%bool.

(** Characters that the application/x-www-form-urlencoded serializer of
    URLSearchParams leaves alone. *)
Definition form_unreserved (c : ascii) : bool :=
  (is_alnum c || mem_ascii c "*-._")%bool.

Definition hex_digit (n : nat) : ascii :=
  match String.get n "0123456789ABCDEF" with
  | Some d => d
  | None => "0"%char
  end.

Definition hex_value (c : ascii) : option nat :=
  if between 48 57 c then Some (code c - 48)%nat
  else if between 65 70 c then Some (code c - 55)%nat
  else if between 97 102 c then Some (code c - 87)%nat
  else None.

Definition percent_byte (c : ascii) : string :=
  String "%" (String (hex_digit (code c / 16))
                     (String (hex_digit (code c mod 16)) EmptyString)).

Fixpoint encodeURIComponent (s : string) : string :=
  match s with
  | EmptyString => EmptyString
  | String c rest =>
      (if uri_unreserved c then String c EmptyString else percent_byte c)
        +:+ encodeURIComponent rest
  end.

(** decodeURIComponent: a percent sign must start a two-digit escape,
    otherwise a URIError is thrown ([None]). The bytes that the escapes
    stand for are taken to be well-formed UTF-8, as the encoder produces
    them. *)
Fixpoint decodeURIComponent (s : string) : option string :=
  match s with
  | EmptyString => Some EmptyString
  | String c rest =>
      if Ascii.eqb c "%" then
        match rest with
        | String h (String l rest') =>
            match hex_value h, hex_value l with
            | Some a, Some b =>
                option_map (String (ascii_of_nat (16 * a + b)))
                           (decodeURIComponent rest')
            | _, _ => None
            end
        | _ => None
        end
      else option_map (String c) (decodeURIComponent rest)
  end.

(** The serializer behind [URLSearchParams.prototype.toString]. *)
Fixpoint form_encode (s : string) : string :=
  match s with
  | EmptyString => EmptyString
  | String c rest =>
      (if form_unreserved c then String c EmptyString
       else if Ascii.eqb c " " then "+"
       else percent_byte c) +:+ form_encode rest
  end.

Definition form_pair (kv : string * string) : string :=
  form_encode (fst kv) +:+ "=" +:+ form_encode (snd kv).

Definition form_serialize (params : list (string * string)) : string :=
  Js.join "&" (map form_pair params).

(** The parser behind [new URLSearchParams(text)]: a malformed escape is
    kept as it stands, a plus sign reads as a space. Strings are strings
    of bytes, so the bytes of an escape are kept as they are (text that is
    UTF-8 stays what it is). *)
Fixpoint percent_decode (s : string) : string :=
  match s with
  | EmptyString => EmptyString
  | String c rest =>
      if Ascii.eqb c "%" then
        match rest with
        | String h (String l rest') =>
            match hex_value h, hex_value l with
            | Some a, Some b =>
                String (ascii_of_nat (16 * a + b)) (percent_decode rest')
            | _, _ => String c (percent_decode rest)
            end
        | _ => String c (percent_decode rest)
        end
      else String c (percent_decode rest)
  end.

Fixpoint plus_to_space (s : string) : string :=
  match s with
  | EmptyString => EmptyString
  | String c rest =>
      String (if Ascii.eqb c "+" then " "%char else c) (plus_to_space rest)
  end.

(** Split at the first [=]; without one the value is empty. *)
Fixpoint cut_at_equals (s : string) : string * string :=
  match s with
  | EmptyString => (EmptyString, EmptyString)
  | String c rest =>
      if Ascii.eqb c "=" then (EmptyString, rest)
      else let '(name, value) := cut_at_equals rest in (String c name, value)
  end.

Definition form_parse_pair (piece : string) : string * string :=
  let '(name, value) := cut_at_equals piece in
  (percent_decode (plus_to_space name), percent_decode (plus_to_space value)).

Definition strip_question (s : string) : string :=
  match s with
  | String c rest => if Ascii.eqb c "?" then rest else s
  | EmptyString => s
  end.

Definition form_parse (text : string) : list (string * string) :=
  map form_parse_pair
      (filter Js.truthy_str (Js.split "&" (strip_question text))).

End Uri.

(* ---------------------------------------------------------------------- *)
(** ** The HTTP boundary and the effect monad                               *)
(* ---------------------------------------------------------------------- *)

Module Http.
Import Js.

(** Query parameters as the caller writes them. The value under [$filter]
    is a string; any other value stands as the text that
    [URLSearchParams.append] makes of it. *)
Definition Params : Type := list (string * string).

Record Request : Type := mkRequest {
  req_url : string;
  req_method : string;
  req_bearer : string;
  req_body : option json
}.

(** The text of a response body, by what [JSON.parse] makes of it. *)
Inductive Body : Type :=
| BodyEmpty
| BodyJson (j : json)
| BodyMalformed (raw : string).

Inductive Reply : Type :=
| HttpReply (status : Z) (body : Body)
| NetworkFailure (msg : string).

Inductive error : Type :=
| UnsupportedMethod
| ParseError
| Unauthorized
| ApiFailed (status : Z) (body : Body)
| NetworkError (msg : string)
| TypeError
| MockFailure.

(** One exchange with the outside: a request with its reply, or a call of
    the test-mode simulator with its result ([None]: it threw). *)
Inductive event : Type :=
| Exchange (req : Request) (reply : Reply)
| Simulated (method : string) (path : json) (data : option json)
            (queryParams : Params) (result : option json).

Definition trace : Type := list event.

(** What the program cannot decide: the test-mode switch read from the
    process environment, the remote server and the simulator of
    utils/mock-data.js, each answering from the exchanges so far. *)
Record Env : Type := mkEnv {
  USE_TEST_MODE : bool;
  remote : trace -> Request -> Reply;
  simulateGraphAPIResponse :
    trace -> string -> json -> option json -> Params -> option json
}.

Inductive outcome (A : Type) : Type :=
| Ok (a : A)
| Throw (e : error)
| Diverge.

Arguments Ok {A} a.
Arguments Throw {A} e.
Arguments Diverge {A}.

Definition M (A : Type) : Type := trace -> outcome A * trace.

Definition ret {A : Type} (a : A) : M A := fun t => (Ok a, t).

Definition throw {A : Type} (e : error) : M A := fun t => (Throw e, t).

Definition diverge {A : Type} : M A := fun t => (Diverge, t).

Definition bind {A B : Type} (m : M A) (k : A -> M B) : M B :=
  fun t =>
    match m t with
    | (Ok a, t') => k a t'
    | (Throw e, t') => (Throw e, t')
    | (Diverge, t') => (Diverge, t')
    end.

(** [https.request(url, options, callback)] up to the end of the response,
    for a request that Node takes: an https URL that parses, a legal
    method and header. What Node refuses it refuses before anything is
    sent; the environment is asked for a reply to every request. *)
Definition https_request (env : Env) (req : Request) : M Reply :=
  fun t => let reply := remote env t req in (Ok reply, t ++ [Exchange req reply]).

Definition simulate (env : Env) (method : string) (path : json)
  (data : option json) (queryParams : Params) : M json :=
  fun t =>
    let result := simulateGraphAPIResponse env t method path data queryParams in
    (match result with Some j => Ok j | None => Throw MockFailure end,
     t ++ [Simulated method path data queryParams result]).

(** config.js *)
Definition GRAPH_API_ENDPOINT : string := "https://graph.microsoft.com/v1.0/".
Definition MAX_PAGINATION_PAGES : nat := 100.

End Http.

Notation "x <- m ;; k" := (Http.bind m (fun x => k))
  (at level 61, m at next level, right associativity).

(* ---------------------------------------------------------------------- *)
(** ** utils/graph-api.js, the revision with the page ceiling               *)
(* ---------------------------------------------------------------------- *)

Module GraphApi.
Import Js Http.

(** The three variables of the query-string builder. *)
Record query_state : Type := mkQuery {
  params : Params;
  filter : option string;
  filterPreEncoded : bool
}.

(** One turn of the loop over the parameters found in the path. *)
Definition take_existing (q : query_state) (kv : string * string) : query_state :=
  if String.eqb (fst kv) "$filter"
  then mkQuery (params q) (Some (snd kv)) true
  else mkQuery (params q ++ [kv]) (filter q) (filterPreEncoded q).

(** The queryParams object: its [$filter] overrides, the rest is appended. *)
Definition take_query_params (q : query_state) (queryParams : Params) : query_state :=
  match queryParams with
  | [] => q
  | _ :: _ =>
      let q' := match assoc "$filter" queryParams with
                | Some f => mkQuery (params q) (Some f) false
                | None => q
                end in
      mkQuery (params q' ++ remove_key "$filter" queryParams)
              (filter q') (filterPreEncoded q')
  end.

Definition query_string (q : query_state) : string :=
  let queryString := Uri.form_serialize (params q) in
  let queryString :=
    if truthy_str queryString then "?" +:+ queryString else queryString in
  match filter q with
  | Some f =>
      let separator := if truthy_str queryString then "&" else "?" in
      let encodedFilter :=
        if filterPreEncoded q then f else Uri.encodeURIComponent f in
      queryString +:+ separator +:+ "$filter=" +:+ encodedFilter
  | None => queryString
  end.

Definition build_query (path : string) (queryParams : Params) : query_state :=
  let existing :=
    match nth_error (split "?" path) 1 with
    | Some rawQuery =>
        if truthy_str rawQuery then Uri.form_parse rawQuery else []
    | None => []
    end in
  take_query_params
    (fold_left take_existing existing (mkQuery [] None false)) queryParams.

Definition encoded_path (path : string) : string :=
  let rawPath := hd EmptyString (split "?" path) in
  join "/" (map Uri.encodeURIComponent (split "/" rawPath)).

Definition final_url (path : string) (queryParams : Params) : string :=
  if (startsWith path "http://" || startsWith path "https://")%bool
  then path
  else GRAPH_API_ENDPOINT +:+ encoded_path path
         +:+ query_string (build_query path queryParams).

Definition sends_body (method : string) : bool :=
  (String.eqb method "POST" || String.eqb method "PATCH"
   || String.eqb method "PUT")%bool.

(** The [end] handler of the response. *)
Definition settle (reply : Reply) : M json :=
  match reply with
  | HttpReply status body =>
      if ((200 <=? status) && (status <? 300))%bool then
        match body with
        | BodyEmpty => ret (JObj [])
        | BodyJson j => ret j
        | BodyMalformed _ => throw ParseError
        end
      else if status =? 401 then throw Unauthorized
      else throw (ApiFailed status body)
  | NetworkFailure msg => throw (NetworkError msg)
  end.

Definition callGraphAPI (env : Env) (accessToken method : string)
  (path : json) (data : option json) (queryParams : Params) : M json :=
  if (USE_TEST_MODE env && startsWith accessToken "test_access_token_")%bool
  then simulate env method path data queryParams
  else
    match path with
    | JStr p =>
        let finalUrl := final_url p queryParams in
        let body := if (truthy_opt data && sends_body method)%bool
                    then data else None in
        reply <- https_request env (mkRequest finalUrl method accessToken body) ;;
        settle reply
    | _ => throw TypeError
    end.

(** The variables of the pagination loop that live across iterations. *)
Record loop_state : Type := mkLoop {
  allItems : list json;
  currentUrl : json;
  currentParams : Params;
  pageCount : nat
}.

(** [response.value] when it is an array, appended to the accumulator. *)
Definition push_page (acc : list json) (response : json) : list json :=
  match get "value" response with
  | Some (JArr page) => acc ++ page
  | _ => acc
  end.

Definition reached (maxCount : Z) (acc : list json) : bool :=
  ((0 <? maxCount) && (maxCount <=? Z.of_nat (List.length acc)))%bool.

(** The do-while loop; [fuel] bounds the iterations of the model only, the
    ceiling of the source is the test on [pageCount]. The result is the
    accumulator at the exit of the loop. *)
Fixpoint paginate (env : Env) (accessToken method : string) (maxCount : Z)
  (fuel : nat) (st : loop_state) : M (list json) :=
  match fuel with
  | O => diverge
  | S fuel' =>
      let pageCount' := S (pageCount st) in
      if Nat.ltb MAX_PAGINATION_PAGES pageCount' then ret (allItems st)
      else
        response <- callGraphAPI env accessToken method (currentUrl st) None
                                 (currentParams st) ;;
        match response with
        | JNull => throw TypeError
        | _ =>
            let items := push_page (allItems st) response in
            if reached maxCount items then ret items
            else
              match get "@odata.nextLink" response with
              | Some nextLink =>
                  if truthy nextLink
                  then paginate env accessToken method maxCount fuel'
                         (mkLoop items nextLink [] pageCount')
                  else ret items
              | None => ret items
              end
        end
  end.

Definition trim (maxCount : Z) (items : list json) : list json :=
  if 0 <? maxCount then firstn (Z.to_nat maxCount) items else items.

Definition combined (finalItems : list json) : json :=
  JObj [("value", JArr finalItems);
        ("@odata.count", JNum (Z.of_nat (List.length finalItems)))].

Definition callGraphAPIPaginated (env : Env) (fuel : nat)
  (accessToken method path : string) (queryParams : Params) (maxCount : Z)
  : M json :=
  if negb (String.eqb method "GET") then throw UnsupportedMethod
  else
    items <- paginate env accessToken method maxCount fuel
                      (mkLoop [] (JStr path) queryParams 0) ;;
    ret (combined (trim maxCount items)).

End GraphApi.

(* ---------------------------------------------------------------------- *)
(** ** utils/graph-api.js, the revision that edits its argument             *)
(* ---------------------------------------------------------------------- *)

Module GraphApiLegacy.
Import Js Http.

(** This revision deletes a key of the queryParams object it is given, so
    parameter objects live in a store and are passed by reference. *)
Definition ref : Type := nat.

Record world : Type := mkWorld {
  exchanges : trace;
  heap : list Params
}.

Definition L (A : Type) : Type := world -> outcome A * world.

Definition lret {A : Type} (a : A) : L A := fun w => (Ok a, w).

Definition lthrow {A : Type} (e : error) : L A := fun w => (Throw e, w).

Definition ldiverge {A : Type} : L A := fun w => (Diverge, w).

Definition lbind {A B : Type} (m : L A) (k : A -> L B) : L B :=
  fun w =>
    match m w with
    | (Ok a, w') => k a w'
    | (Throw e, w') => (Throw e, w')
    | (Diverge, w') => (Diverge, w')
    end.

(** An effect on the exchanges alone. *)
Definition lift {A : Type} (m : M A) : L A :=
  fun w => let '(r, t) := m (exchanges w) in (r, mkWorld t (heap w)).

Fixpoint update {A : Type} (i : nat) (x : A) (l : list A) : list A :=
  match l, i with
  | [], _ => []
  | _ :: rest, O => x :: rest
  | y :: rest, S i' => y :: update i' x rest
  end.

(** Reading through a reference that names no object is the TypeError of
    [Object.keys(undefined)]. *)
Definition read (r : ref) : L Params :=
  fun w =>
    match nth_error (heap w) r with
    | Some o => (Ok o, w)
    | None => (Throw TypeError, w)
    end.

Definition write (r : ref) (o : Params) : L unit :=
  fun w => (Ok tt, mkWorld (exchanges w) (update r o (heap w))).

(** [{}]: a new, empty object. *)
Definition alloc_empty : L ref :=
  fun w => (Ok (List.length (heap w)), mkWorld (exchanges w) (heap w ++ [[]])).

(** The query string; the [$filter] key is deleted from the object itself
    when its value is truthy. *)
Definition build_query_string (queryParams : ref) : L string :=
  lbind (read queryParams) (fun o =>
  match o with
  | [] => lret EmptyString
  | _ :: _ =>
      let filter := assoc "$filter" o in
      lbind (if truthy_ostr filter
             then write queryParams (remove_key "$filter" o)
             else lret tt) (fun _ =>
      lbind (read queryParams) (fun o' =>
      let queryString := Uri.form_serialize o' in
      let queryString :=
        match filter with
        | Some f =>
            if truthy_str f then
              if truthy_str queryString
              then queryString +:+ "&$filter=" +:+ Uri.encodeURIComponent f
              else "$filter=" +:+ Uri.encodeURIComponent f
            else queryString
        | None => queryString
        end in
      lret (if truthy_str queryString then "?" +:+ queryString
            else queryString)))
  end).

Definition encoded_path (path : string) : string :=
  join "/" (map Uri.encodeURIComponent (split "/" path)).

Definition final_url (path : string) (queryParams : ref) : L string :=
  if (startsWith path "http://" || startsWith path "https://")%bool
  then lret path
  else
    lbind (build_query_string queryParams) (fun queryString =>
    lret (GRAPH_API_ENDPOINT +:+ encoded_path path +:+ queryString)).

Definition callGraphAPI (env : Env) (accessToken method : string)
  (path : json) (data : option json) (queryParams : ref) : L json :=
  if (USE_TEST_MODE env && startsWith accessToken "test_access_token_")%bool
  then
    lbind (read queryParams) (fun o =>
    lift (simulate env method path data o))
  else
    match path with
    | JStr p =>
        lbind (final_url p queryParams) (fun finalUrl =>
        let body := if (truthy_opt data && GraphApi.sends_body method)%bool
                    then data else None in
        lift (reply <- https_request env
                         (mkRequest finalUrl method accessToken body) ;;
              GraphApi.settle reply))
    | _ => lthrow TypeError
    end.

Record loop_state : Type := mkLoop {
  allItems : list json;
  currentUrl : json;
  currentParams : ref
}.

(** The do-while loop of this revision: there is no page ceiling, so the
    fuel of the model can run out. *)
Fixpoint paginate (env : Env) (accessToken method : string) (maxCount : Z)
  (fuel : nat) (st : loop_state) : L (list json) :=
  match fuel with
  | O => ldiverge
  | S fuel' =>
      lbind (callGraphAPI env accessToken method (currentUrl st) None
                          (currentParams st)) (fun response =>
      match response with
      | JNull => lthrow TypeError
      | _ =>
          let items := GraphApi.push_page (allItems st) response in
          if GraphApi.reached maxCount items then lret items
          else
            match get "@odata.nextLink" response with
            | Some nextLink =>
                if truthy nextLink
                then lbind alloc_empty (fun fresh =>
                     paginate env accessToken method maxCount fuel'
                              (mkLoop items nextLink fresh))
                else lret items
            | None => lret items
            end
      end)
  end.

Definition callGraphAPIPaginated (env : Env) (fuel : nat)
  (accessToken method path : string) (queryParams : ref) (maxCount : Z)
  : L json :=
  if negb (String.eqb method "GET") then lthrow UnsupportedMethod
  else
    lbind (paginate env accessToken method maxCount fuel
                    (mkLoop [] (JStr path) queryParams)) (fun items =>
    lret (GraphApi.combined (GraphApi.trim maxCount items))).

(** A server that answers every request with an empty success. *)
Definition quiet_env : Env :=
  mkEnv false (fun _ _ => HttpReply 200 BodyEmpty) (fun _ _ _ _ _ => None).

End GraphApiLegacy.

(* ---------------------------------------------------------------------- *)
(** ** Reading a trace: the pages that were fetched                         *)
(* ---------------------------------------------------------------------- *)

Module Pages.
Import Js Http.

(** The response that [callGraphAPI] hands to its caller for an exchange,
    if it hands one. *)
Definition event_response (e : event) : option json :=
  match e with
  | Exchange _ reply =>
      match fst (GraphApi.settle reply []) with
      | Ok j => Some j
      | _ => None
      end
  | Simulated _ _ _ _ result => result
  end.

Definition event_items (e : event) : list json :=
  match event_response e with
  | Some j => GraphApi.push_page [] j
  | None => []
  end.

(** The items of all pages of a trace, in page order. *)
Definition fetched_items (evs : trace) : list json :=
  flat_map event_items evs.

(** A page of exactly [n] items that carries a continuation cursor. *)
Definition is_page (n : nat) (j : json) : bool :=
  match get "value" j, get "@odata.nextLink" j with
  | Some (JArr items), Some (JStr link) =>
      (Nat.eqb (List.length items) n && truthy_str link)%bool
  | _, _ => false
  end.

Definition not_null (j : json) : bool :=
  match j with
  | JNull => false
  | _ => true
  end.

(** A cursor, when the page has one, is a URL (a string). *)
Definition cursor_is_url (j : json) : bool :=
  match get "@odata.nextLink" j with
  | Some (JStr _) => true
  | Some link => negb (truthy link)
  | None => true
  end.

Definition ok_page (j : json) : bool := (not_null j && cursor_is_url j)%bool.

(** A page with a cursor to follow, an https URL as the Graph API hands
    them out: what a server answers whose cursor never ends, or loops back
    to an earlier page. *)
Definition has_cursor (j : json) : bool :=
  match get "@odata.nextLink" j with
  | Some (JStr link) => startsWith link "https://"
  | _ => false
  end.

(** Every call is answered with a successful response that satisfies [P],
    by the server and by the simulator alike. *)
Definition answers (env : Env) (P : json -> bool) : Prop :=
  (forall t req, exists status j,
      remote env t req = HttpReply status (BodyJson j)
      /\ 200 <= status < 300 /\ P j = true)
  /\ (forall t method path data queryParams, exists j,
      simulateGraphAPIResponse env t method path data queryParams = Some j
      /\ P j = true).

(** What the loop does after one page has come back. *)
Definition after_page (env : Env) (accessToken method : string)
  (maxCount : Z) (fuel : nat) (st : GraphApi.loop_state) (response : json)
  : M (list json) :=
  match response with
  | JNull => throw TypeError
  | _ =>
      let items := GraphApi.push_page (GraphApi.allItems st) response in
      if GraphApi.reached maxCount items then ret items
      else
        match get "@odata.nextLink" response with
        | Some nextLink =>
            if truthy nextLink
            then GraphApi.paginate env accessToken method maxCount fuel
                   (GraphApi.mkLoop items nextLink [] (S (GraphApi.pageCount st)))
            else ret items
        | None => ret items
        end
  end.

(** The same in the revision without the ceiling. *)
Definition legacy_after_page (env : Env) (accessToken method : string)
  (maxCount : Z) (fuel : nat) (st : GraphApiLegacy.loop_state)
  (response : json) : GraphApiLegacy.L (list json) :=
  match response with
  | JNull => GraphApiLegacy.lthrow TypeError
  | _ =>
      let items := GraphApi.push_page (GraphApiLegacy.allItems st) response in
      if GraphApi.reached maxCount items then GraphApiLegacy.lret items
      else
        match get "@odata.nextLink" response with
        | Some nextLink =>
            if truthy nextLink
            then GraphApiLegacy.lbind GraphApiLegacy.alloc_empty (fun fresh =>
                 GraphApiLegacy.paginate env accessToken method maxCount fuel
                   (GraphApiLegacy.mkLoop items nextLink fresh))
            else GraphApiLegacy.lret items
        | None => GraphApiLegacy.lret items
        end
  end.

(** A server whose cursor always points back to the first page. *)
Definition looping_page (n : nat) : json :=
  JObj [("value", JArr [JNum (Z.of_nat n)]);
        ("@odata.nextLink",
         JStr "https://graph.microsoft.com/v1.0/me/messages?$skip=0")].

Definition looping_env : Env :=
  mkEnv false
        (fun t _ => HttpReply 200 (BodyJson (looping_page (List.length t))))
        (fun t _ _ _ _ => Some (looping_page (List.length t))).

(** A server with pages of ten items, each with a cursor to the next. *)
Definition ten_items (k : nat) : list json :=
  map (fun i => JNum (Z.of_nat (10 * k + i))) (seq 0 10).

Definition ten_page (k : nat) : json :=
  JObj [("value", JArr (ten_items k));
        ("@odata.nextLink",
         JStr "https://graph.microsoft.com/v1.0/me/messages?$skiptoken=x")].

Definition ten_env : Env :=
  mkEnv false
        (fun t _ => HttpReply 200 (BodyJson (ten_page (List.length t))))
        (fun t _ _ _ _ => Some (ten_page (List.length t))).

End Pages.

(* ---------------------------------------------------------------------- *)
(** ** auth/token-storage.js: the multi-account credential store            *)
(* ---------------------------------------------------------------------- *)

Module TokenStorage.
Import Js.

(** One account's credentials as the stored JSON has them; a key that is
    missing reads as [None]. A NaN, which arithmetic on a missing number
    would give, is treated as a missing value. *)
Record TokenSet : Type := mkTokenSet {
  access_token : option string;
  refresh_token : option string;
  expires_in : option Z;
  expires_at : option Z;
  scope : option string;
  token_type : option string
}.

(** The stored document: the keys of a single token set at the top level
    (the legacy form), the accounts mapping and the active account. *)
Record Doc : Type := mkDoc {
  top : TokenSet;
  accounts : option (list (string * TokenSet));
  activeAccount : option string
}.

Definition no_token : TokenSet := mkTokenSet None None None None None None.

(** The body of a token-endpoint response, read as JSON. *)
Record ResponseBody : Type := mkBody {
  rb_access_token : option string;
  rb_refresh_token : option string;
  rb_expires_in : option Z;
  rb_error_description : option string
}.

Inductive TokenBody : Type :=
| Json (b : ResponseBody)
| Unreadable.

Inductive TokenReply : Type :=
| TokenResponse (status : Z) (body : TokenBody)
| TokenNetworkError.

(** The form posted to the token endpoint, without the constants of the
    configuration (client id, client secret, scopes). *)
Record TokenRequest : Type := mkTokenRequest {
  grant_type : string;
  sent_refresh_token : string
}.

Inductive failure : Type :=
| NoRefreshToken
| RefreshRejected (description : option string) (status : Z)
| ResponseUnreadable
| TransportError
| SaveFailed
| NullDereference.

Inductive result (A : Type) : Type :=
| Resolved (a : A)
| Rejected (f : failure).

Arguments Resolved {A} a.
Arguments Rejected {A} f.

(** The outside of the store: the clock by the number of readings made,
    the token endpoint by the requests made so far, and the success of
    each write of the token file. *)
Record Env : Type := mkEnv {
  now : nat -> Z;
  token_endpoint : list TokenRequest -> TokenRequest -> TokenReply;
  write_ok : nat -> bool
}.

(** The object ([tokens], [refreshPromise]) and what it has done to the
    outside ([file], [sent], [ticks], [writes], [log]). A pending promise is
    named by the index of its request. *)
Record Store : Type := mkStore {
  tokens : option Doc;
  refreshPromise : option nat;
  file : option Doc;
  sent : list TokenRequest;
  ticks : nat;
  writes : nat;
  log : list string
}.

Definition refreshTokenBuffer : Z := 5 * 60 * 1000.

Definition set_tokens (d : option Doc) (s : Store) : Store :=
  mkStore d (refreshPromise s) (file s) (sent s) (ticks s) (writes s) (log s).

Definition set_promise (p : option nat) (s : Store) : Store :=
  mkStore (tokens s) p (file s) (sent s) (ticks s) (writes s) (log s).

Definition set_file (d : option Doc) (s : Store) : Store :=
  mkStore (tokens s) (refreshPromise s) d (sent s) (ticks s) (S (writes s))
          (log s).

Definition failed_write (s : Store) : Store :=
  mkStore (tokens s) (refreshPromise s) (file s) (sent s) (ticks s)
          (S (writes s)) (log s).

Definition send (req : TokenRequest) (s : Store) : Store :=
  mkStore (tokens s) (refreshPromise s) (file s) (sent s ++ [req]) (ticks s)
          (writes s) (log s).

Definition tick (s : Store) : Store :=
  mkStore (tokens s) (refreshPromise s) (file s) (sent s) (S (ticks s))
          (writes s) (log s).

Definition say (msg : string) (s : Store) : Store :=
  mkStore (tokens s) (refreshPromise s) (file s) (sent s) (ticks s)
          (writes s) (log s ++ [msg]).

(** [Date.now()]. *)
Definition date_now (env : Env) (s : Store) : Z * Store :=
  (now env (ticks s), tick s).

(** [_loadTokensFromFile]: a file that is missing or does not parse leaves
    no tokens. *)
Definition _loadTokensFromFile (s : Store) : option Doc * Store :=
  match file s with
  | Some d => (Some d, say "Tokens loaded from file." (set_tokens (Some d) s))
  | None => (None, say "Token file not found. No tokens loaded."
                       (set_tokens None s))
  end.

Definition getTokens (s : Store) : option Doc * Store :=
  match tokens s with
  | Some d => (Some d, s)
  | None => _loadTokensFromFile s
  end.

(** [_saveTokensToFile]: nothing is written without tokens; a failed write
    is rethrown. *)
Definition _saveTokensToFile (env : Env) (s : Store) : result bool * Store :=
  match tokens s with
  | None => (Resolved false, say "No tokens to save." s)
  | Some d =>
      if write_ok env (writes s)
      then (Resolved true, say "Tokens saved successfully." (set_file (Some d) s))
      else (Rejected SaveFailed, say "Error saving token cache:" (failed_write s))
  end.

Definition getAllAccounts (s : Store) : list string * Store :=
  let '(allTokens, s) := getTokens s in
  (match allTokens with
   | None => []
   | Some d =>
       match accounts d with
       | Some accs => keys accs
       | None =>
           if truthy_ostr (access_token (top d)) then ["default"] else []
       end
   end, s).

(** What a successful response does to the token set it is applied to. *)
Definition refreshed (t : TokenSet) (b : ResponseBody) (at_time : Z) : TokenSet :=
  mkTokenSet (rb_access_token b)
             (if truthy_ostr (rb_refresh_token b) then rb_refresh_token b
              else refresh_token t)
             (rb_expires_in b)
             (option_map (fun e => at_time + e * 1000) (rb_expires_in b))
             (scope t) (token_type t).

Definition with_top (d : Doc) (t : TokenSet) : Doc :=
  mkDoc t (accounts d) (activeAccount d).

(** What the written specification says of a token set [after] a granted
    refresh of the token set [before], with the amendment on the expiry:
    the expiry is the time of the refresh plus the lifetime granted, which
    is later than the old expiry exactly when the old expiry lies before
    it; the access token is the one of the response; the refresh token is
    the one of the response when there is one and the old one otherwise. *)
Definition rewritten (before after : TokenSet) (b : ResponseBody)
  (at_time lifetime : Z) : Prop :=
  expires_at after = Some (at_time + lifetime * 1000)
  /\ access_token after = rb_access_token b
  /\ (truthy_ostr (rb_refresh_token b) = false ->
      refresh_token after = refresh_token before)
  /\ (truthy_ostr (rb_refresh_token b) = true ->
      refresh_token after = rb_refresh_token b)
  /\ (forall old,
        expires_at before = Some old ->
        (old < at_time + lifetime * 1000 <->
         exists new, expires_at after = Some new /\ old < new))
  /\ (forall old,
        expires_at before = Some old -> old <= at_time -> 0 < lifetime ->
        exists new, expires_at after = Some new /\ old < new).

(** *** refreshAccessToken, handler by handler *)

(** The part that runs when the method is called. *)
Inductive invocation : Type :=
| Threw
| Joined (p : nat)
| Started (p : nat) (req : TokenRequest).

Definition refresh_invoke (s : Store) : invocation * Store :=
  match tokens s with
  | None => (Threw, s)
  | Some d =>
      match refresh_token (top d) with
      | None => (Threw, s)
      | Some r =>
          if truthy_str r then
            match refreshPromise s with
            | Some p =>
                (Joined p,
                 say "Refresh already in progress, returning existing promise." s)
            | None =>
                let req := mkTokenRequest "refresh_token" r in
                let p := List.length (sent s) in
                (Started p req,
                 set_promise (Some p)
                   (send req (say "Attempting to refresh access token..." s)))
            end
          else (Threw, s)
      end
  end.

(** The value each caller gets from [promise.then(tokens => tokens.access_token)]. *)
Definition settled : Type := result (option string).

Inductive progress : Type :=
| Settled (out : settled)
| Saving (snapshot : Doc).

(** The [end] handler of the response, up to the write of the file. *)
Definition refresh_on_end (status : Z) (body : TokenBody) (at_time : Z)
  (s : Store) : progress * Store :=
  match body with
  | Unreadable =>
      (Settled (Rejected ResponseUnreadable),
       set_promise None
         (say "Error processing refresh token response or saving tokens:" s))
  | Json b =>
      if ((200 <=? status) && (status <? 300))%bool then
        match tokens s with
        | None =>
            (Settled (Rejected NullDereference),
             set_promise None
               (say "Error processing refresh token response or saving tokens:"
                    s))
        | Some d =>
            let d' := with_top d (refreshed (top d) b at_time) in
            (Saving d', tick (set_tokens (Some d') s))
        end
      else
        (Settled (Rejected (RefreshRejected (rb_error_description b) status)),
         set_promise None (say "Error refreshing token:" s))
  end.

(** The continuation after the write of the file. *)
Definition refresh_on_saved (snapshot : Doc) (ok : bool) (s : Store)
  : settled * Store :=
  if ok then
    let s := say "Access token refreshed and saved successfully."
               (say "Tokens saved successfully." (set_file (Some snapshot) s)) in
    (match tokens s with
     | Some d => Resolved (access_token (top d))
     | None => Rejected NullDereference
     end, set_promise None s)
  else
    (Rejected SaveFailed,
     set_promise None
       (say "Failed to save refreshed tokens:"
            (say "Error saving token cache:" (failed_write s)))).

(** The [error] handler of the request. *)
Definition refresh_on_error (s : Store) : settled * Store :=
  (Rejected TransportError,
   set_promise None (say "HTTP error during token refresh:" s)).

(** *** One caller at a time *)

Inductive answer (A : Type) : Type :=
| Done (a : A)
| Waiting (p : nat).

Arguments Done {A} a.
Arguments Waiting {A} p.

(** refreshAccessToken run to its end with the replies of the environment.
    A caller that joins a refresh already in flight waits for it. *)
Definition refreshAccessToken (env : Env) (s : Store)
  : answer settled * Store :=
  match refresh_invoke s with
  | (Threw, s1) => (Done (Rejected NoRefreshToken), s1)
  | (Joined p, s1) => (Waiting p, s1)
  | (Started _ req, s1) =>
      match token_endpoint env (sent s) req with
      | TokenNetworkError =>
          let '(out, s2) := refresh_on_error s1 in (Done out, s2)
      | TokenResponse status body =>
          match refresh_on_end status body (now env (ticks s1)) s1 with
          | (Settled out, s2) => (Done out, s2)
          | (Saving snapshot, s2) =>
              let '(out, s3) :=
                refresh_on_saved snapshot (write_ok env (writes s2)) s2 in
              (Done out, s3)
          end
      end
  end.

(** [Date.now() >= expiry - buffer]; with a missing expiry (or a NaN) the
    comparison is false. A JSON null counts as 0 in it, as [Some 0]. *)
Definition expired (at_time : Z) (expiry : option Z) : bool :=
  match expiry with
  | Some e => e - refreshTokenBuffer <=? at_time
  | None => false
  end.

(** [isTokenExpired]: the clock is read only when an expiry is recorded. *)
Definition isTokenExpired (env : Env) (s : Store) : bool * Store :=
  match tokens s with
  | None => (true, s)
  | Some d =>
      match expires_at (top d) with
      | None => (true, s)
      | Some e =>
          if e =? 0 then (true, s)
          else let '(t, s) := date_now env s in (expired t (Some e), s)
      end
  end.

(** The result of [try { return await this.refreshAccessToken() } catch]
    with the given handler for the failure. *)
Definition refresh_or (env : Env) (on_failure : Store -> Store) (s : Store)
  : answer (option string) * Store :=
  match refreshAccessToken env s with
  | (Done (Resolved token), s) => (Done token, s)
  | (Done (Rejected _), s) =>
      (Done None, on_failure (say "Failed to refresh access token:" s))
  | (Waiting p, s) => (Waiting p, s)
  end.

(** The legacy branch forgets its tokens when they cannot be refreshed;
    the save that follows finds nothing to write. *)
Definition invalidate (env : Env) (s : Store) : Store :=
  snd (_saveTokensToFile env (set_tokens None s)).

(** The lines that are logged when a token is found due, before the
    refresh token is looked at. *)
Definition attempt : string :=
  "Access token expired or nearing expiration. Attempting refresh.".

Definition attempt_for (activeAccount : string) : string :=
  "Access token for " +:+ activeAccount
    +:+ " expired or nearing expiration. Attempting refresh.".

Definition getValidAccessToken (env : Env) (s : Store)
  : answer (option string) * Store :=
  let '(allTokens, s) := getTokens s in
  match allTokens with
  | None => (Done None, say "No tokens available." s)
  | Some d =>
      match accounts d with
      | Some accs =>
          match activeAccount d with
          | Some active =>
              match (if truthy_str active then assoc active accs else None) with
              | Some activeTokens =>
                  if negb (truthy_ostr (access_token activeTokens))
                  then (Done None, say "No access token for active account" s)
                  else
                    let '(t, s) := date_now env s in
                    if expired t (expires_at activeTokens) then
                      let s := say (attempt_for active) s in
                      if truthy_ostr (refresh_token activeTokens)
                      then refresh_or env (fun s => s) s
                      else (Done None,
                            say "No refresh token available for this account." s)
                    else (Done (access_token activeTokens), s)
              | None => (Done None, say "No valid active account." s)
              end
          | None => (Done None, say "No valid active account." s)
          end
      | None =>
          if negb (truthy_ostr (access_token (top d)))
          then (Done None, say "No access token available." s)
          else
            let '(isExpired, s) := isTokenExpired env s in
            if isExpired then
              let s := say attempt s in
              if truthy_ostr (refresh_token (top d))
              then refresh_or env (invalidate env) s
              else (Done None,
                    invalidate env
                      (say "No refresh token available. Cannot refresh access token." s))
            else (Done (access_token (top d)), s)
      end
  end.

(** *** Stores and environments used as examples *)

Definition fresh_store (memory disk : option Doc) : Store :=
  mkStore memory None disk [] 0 0 [].

Definition legacy_doc (t : TokenSet) : Doc := mkDoc t None None.

(** An endpoint that grants a new access token for an hour, without a new
    refresh token; the clock stands at [at_time]; writes succeed or fail
    as [disk_ok] says. *)
Definition granting (at_time : Z) (disk_ok : bool) : Env :=
  mkEnv (fun _ => at_time)
        (fun _ _ => TokenResponse 200
                      (Json (mkBody (Some "access-new") None (Some 3600) None)))
        (fun _ => disk_ok).

(** The registry of the two-account scenario: a@x.com holds a token that is
    valid for long, b@x.com one that expired and a refresh token, and
    b@x.com is the active account. *)
Definition token_a : TokenSet :=
  mkTokenSet (Some "access-a") (Some "refresh-a") (Some 3600)
             (Some 9000000) (Some "Mail.Read") (Some "Bearer").

Definition token_b : TokenSet :=
  mkTokenSet (Some "access-b") (Some "refresh-b") (Some 3600)
             (Some 1000) (Some "Mail.Read") (Some "Bearer").

Definition two_accounts : Doc :=
  mkDoc no_token (Some [("a@x.com", token_a); ("b@x.com", token_b)])
        (Some "b@x.com").

(** The token set that [getValidAccessToken] selects in a document. *)
Definition selected (d : Doc) : option TokenSet :=
  match accounts d with
  | Some accs =>
      match activeAccount d with
      | Some active => if truthy_str active then assoc active accs else None
      | None => None
      end
  | None => Some (top d)
  end.

(** Whether the source treats the selected token set as due for a
    refresh at [at_time]: within the buffer of its recorded expiry; in a
    legacy document a token set without a recorded expiry is due too. *)
Definition due (d : Doc) (t : TokenSet) (at_time : Z) : bool :=
  match accounts d with
  | Some _ => expired at_time (expires_at t)
  | None =>
      match expires_at t with
      | Some e => ((e =? 0) || expired at_time (Some e))%bool
      | None => true
      end
  end.

(** The document the store works on, loaded if need be. *)
Definition stored (s : Store) : option Doc := fst (getTokens s).

(** The store in which [getValidAccessToken] calls [refreshAccessToken]:
    tokens loaded and the clock read where the source reads it. *)
Definition refresh_point (env : Env) (s : Store) : Store :=
  let s0 := snd (getTokens s) in
  match tokens s0 with
  | Some d =>
      match accounts d with
      | Some _ =>
          match activeAccount d with
          | Some active => say (attempt_for active) (tick s0)
          | None => tick s0
          end
      | None => say attempt (snd (isTokenExpired env s0))
      end
  | None => s0
  end.

(** The access token the refresh resolves with at that point, if any. *)
Definition refresh_yields (env : Env) (s : Store) : option string :=
  match fst (refreshAccessToken env (refresh_point env s)) with
  | Done (Resolved token) => token
  | _ => None
  end.

(** The decision of [getValidAccessToken] as a table over the selected
    token set: the value it returns when no refresh is in flight. *)
Definition decision (env : Env) (s : Store) : option string :=
  match stored s with
  | None => None
  | Some d =>
      match selected d with
      | None => None
      | Some t =>
          if negb (truthy_ostr (access_token t)) then None
          else if due d t (now env (ticks s)) then
                 if truthy_ostr (refresh_token t) then refresh_yields env s
                 else None
               else access_token t
      end
  end.

(** What a caller gets in the end from the refresh it waits for: the
    access token the refresh settles with, or null, its rejection being
    caught. *)
Definition token_of (out : settled) : option string :=
  match out with
  | Resolved token => token
  | Rejected _ => None
  end.

(** The value of a call in the end; a caller that joined the refresh in
    flight gets what that refresh settles with, [pending]. *)
Definition delivered (pending : settled) (a : answer (option string))
  : option string :=
  match a with
  | Done v => v
  | Waiting _ => token_of pending
  end.

(** What the refresh gives the call that reaches it: the refresh it
    starts, or the one in flight that it joins. *)
Definition refresh_gives (env : Env) (pending : settled) (s : Store)
  : option string :=
  match fst (refreshAccessToken env (refresh_point env s)) with
  | Done out => token_of out
  | Waiting _ => token_of pending
  end.

(** The table of [getValidAccessToken] for every store, a refresh in
    flight included. *)
Definition outcome (env : Env) (pending : settled) (s : Store)
  : option string :=
  match stored s with
  | None => None
  | Some d =>
      match selected d with
      | None => None
      | Some t =>
          if negb (truthy_ostr (access_token t)) then None
          else if due d t (now env (ticks s)) then
                 if truthy_ostr (refresh_token t)
                 then refresh_gives env pending s
                 else None
               else access_token t
      end
  end.

(** In the multi-account form the selected token set records its expiry.
    (The legacy form reads a missing expiry as expired; the multi-account
    form compares with it as it is.) *)
Definition expiry_recorded (s : Store) : bool :=
  match stored s with
  | Some d =>
      match accounts d, selected d with
      | Some _, Some t =>
          match expires_at t with
          | Some _ => true
          | None => false
          end
      | _, _ => true
      end
  | None => true
  end.

(** An account whose token expired and that has no refresh token. *)
Definition token_c : TokenSet :=
  mkTokenSet (Some "access-c") None (Some 3600) (Some 1000)
             (Some "Mail.Read") (Some "Bearer").

Definition one_account : Doc :=
  mkDoc no_token (Some [("c@x.com", token_c)]) (Some "c@x.com").

(** An account whose token set has a refresh token and an expiry far
    ahead, and no access token. *)
Definition token_without_access : TokenSet :=
  mkTokenSet None (Some "refresh-e") (Some 3600) (Some 9000000)
             (Some "Mail.Read") (Some "Bearer").

Definition account_without_access : Doc :=
  mkDoc no_token (Some [("e@x.com", token_without_access)]) (Some "e@x.com").

(** An account whose token set records no expiry. *)
Definition token_without_expiry : TokenSet :=
  mkTokenSet (Some "access-f") (Some "refresh-f") None None
             (Some "Mail.Read") (Some "Bearer").

Definition account_without_expiry : Doc :=
  mkDoc no_token (Some [("f@x.com", token_without_expiry)]) (Some "f@x.com").

End TokenStorage.

(* ---------------------------------------------------------------------- *)
(** ** auth/token-manager.js: the single-account token cache                *)
(* ---------------------------------------------------------------------- *)

Module TokenManager.
Import Js.
Import TokenStorage(TokenSet, mkTokenSet, access_token, refresh_token,
                    expires_in, expires_at, scope, token_type,
                    ResponseBody, mkBody, rb_access_token, rb_refresh_token,
                    rb_expires_in, rb_error_description,
                    TokenBody, Json, Unreadable,
                    TokenReply, TokenResponse, TokenNetworkError,
                    TokenRequest, mkTokenRequest,
                    Env, mkEnv, now, token_endpoint, write_ok,
                    answer, Done, Waiting, refreshed).

(** The module variables [cachedTokens] and [refreshPromise], the token
    file, and what the module has done to the outside. The token object
    that a refresh holds in its closure is the cached one: only the refresh
    itself stores into [cachedTokens] while it is in flight. *)
Record State : Type := mkState {
  cachedTokens : option TokenSet;
  refreshPromise : option nat;
  file : option TokenSet;
  sent : list TokenRequest;
  ticks : nat;
  writes : nat;
  log : list string
}.

Definition set_cache (t : option TokenSet) (s : State) : State :=
  mkState t (refreshPromise s) (file s) (sent s) (ticks s) (writes s) (log s).

Definition set_promise (p : option nat) (s : State) : State :=
  mkState (cachedTokens s) p (file s) (sent s) (ticks s) (writes s) (log s).

Definition send (req : TokenRequest) (s : State) : State :=
  mkState (cachedTokens s) (refreshPromise s) (file s) (sent s ++ [req])
          (ticks s) (writes s) (log s).

Definition tick (s : State) : State :=
  mkState (cachedTokens s) (refreshPromise s) (file s) (sent s) (S (ticks s))
          (writes s) (log s).

Definition say (msg : string) (s : State) : State :=
  mkState (cachedTokens s) (refreshPromise s) (file s) (sent s) (ticks s)
          (writes s) (log s ++ [msg]).

(** [loadTokenCache]: a file without an access token counts as no tokens
    and leaves the cache alone. *)
Definition loadTokenCache (s : State) : option TokenSet * State :=
  match file s with
  | None => (None, say "[DEBUG] Token file does not exist" s)
  | Some t =>
      if truthy_ostr (access_token t) then (Some t, set_cache (Some t) s)
      else (None, say "[DEBUG] No access_token found in tokens" s)
  end.

(** [saveTokenCache]: the cache follows the file only when the write
    succeeds. *)
Definition saveTokenCache (ok : bool) (t : TokenSet) (s : State)
  : bool * State :=
  if ok then
    (true, mkState (Some t) (refreshPromise s) (Some t) (sent s) (ticks s)
                   (S (writes s)) (log s ++ ["Tokens saved successfully"]))
  else
    (false, mkState (cachedTokens s) (refreshPromise s) (file s) (sent s)
                    (ticks s) (S (writes s))
                    (log s ++ ["Error saving token cache:"])).

Inductive invocation : Type :=
| Nothing
| Joined (p : nat)
| Started (p : nat) (req : TokenRequest).

(** refreshAccessToken up to the return of the promise. *)
Definition refresh_invoke (s : State) : invocation * State :=
  match refreshPromise s with
  | Some p => (Joined p, say "[DEBUG] Refresh already in progress, waiting..." s)
  | None =>
      let '(tokens, s) :=
        match cachedTokens s with
        | Some t => (Some t, s)
        | None => loadTokenCache s
        end in
      match tokens with
      | None => (Nothing, say "[DEBUG] No refresh token available" s)
      | Some t =>
          match refresh_token t with
          | Some r =>
              if truthy_str r then
                let req := mkTokenRequest "refresh_token" r in
                let p := List.length (sent s) in
                (Started p req,
                 set_promise (Some p)
                   (send req
                      (say "[DEBUG] Attempting to refresh access token..." s)))
              else (Nothing, say "[DEBUG] No refresh token available" s)
          | None => (Nothing, say "[DEBUG] No refresh token available" s)
          end
      end
  end.

(** The [end] handler: the write of the file is synchronous, so the
    promise is resolved within the handler; it is never rejected. *)
Definition refresh_on_end (status : Z) (body : TokenBody) (at_time : Z)
  (ok : bool) (s : State) : option string * State :=
  match body with
  | Unreadable =>
      (None, set_promise None
               (say "[DEBUG] Error processing refresh response:" s))
  | Json b =>
      if ((200 <=? status) && (status <? 300))%bool then
        match cachedTokens s with
        | None =>
            (None, set_promise None
                     (say "[DEBUG] Error processing refresh response:" s))
        | Some t =>
            let t' := refreshed t b at_time in
            let '(saved, s) := saveTokenCache ok t' (tick (set_cache (Some t') s)) in
            if saved then
              (access_token t',
               set_promise None
                 (say "[DEBUG] Access token refreshed and saved successfully" s))
            else
              (None,
               set_promise None
                 (say "[DEBUG] Failed to save refreshed tokens" s))
        end
      else (None, set_promise None (say "[DEBUG] Token refresh failed:" s))
  end.

Definition refresh_on_error (s : State) : option string * State :=
  (None, set_promise None
           (say "[DEBUG] HTTP error during token refresh:" s)).

(** refreshAccessToken run to its end for one caller. *)
Definition refreshAccessToken (env : Env) (s : State)
  : answer (option string) * State :=
  match refresh_invoke s with
  | (Nothing, s1) => (Done None, s1)
  | (Joined p, s1) => (Waiting p, s1)
  | (Started _ req, s1) =>
      match token_endpoint env (sent s) req with
      | TokenNetworkError =>
          let '(out, s2) := refresh_on_error s1 in (Done out, s2)
      | TokenResponse status body =>
          let '(out, s2) :=
            refresh_on_end status body (now env (ticks s1))
                           (write_ok env (writes s1)) s1 in
          (Done out, s2)
      end
  end.

Definition refreshBuffer : Z := 5 * 60 * 1000.

(** [cachedTokens.expires_at || 0]. *)
Definition expiry_or_zero (t : TokenSet) : Z :=
  match expires_at t with
  | Some e => e
  | None => 0
  end.

Definition getAccessToken (env : Env) (s : State)
  : answer (option string) * State :=
  let '(cached, s) :=
    match cachedTokens s with
    | Some t => (Some t, s)
    | None => loadTokenCache s
    end in
  match cached with
  | None => (Done None, s)
  | Some t =>
      let at_time := now env (ticks s) in
      let s := tick s in
      if expiry_or_zero t - refreshBuffer <=? at_time
      then refreshAccessToken env
             (say "[DEBUG] Token expired or expiring soon, attempting refresh..." s)
      else (Done (access_token t), s)
  end.

Definition fresh_state (memory disk : option TokenSet) : State :=
  mkState memory None disk [] 0 0 [].

(** The tokens the module works on: the cached ones, else the ones of the
    file when they carry an access token. *)
Definition tokens_at_hand (s : State) : option TokenSet :=
  match cachedTokens s with
  | Some t => Some t
  | None => fst (loadTokenCache s)
  end.

(** The state in which [getAccessToken] calls [refreshAccessToken]. *)
Definition refresh_point (s : State) : State :=
  let s0 := match cachedTokens s with
            | Some _ => s
            | None => snd (loadTokenCache s)
            end in
  say "[DEBUG] Token expired or expiring soon, attempting refresh..." (tick s0).

Definition refresh_yields (env : Env) (s : State) : option string :=
  match fst (refreshAccessToken env (refresh_point s)) with
  | Done token => token
  | Waiting _ => None
  end.

Definition due (t : TokenSet) (at_time : Z) : bool :=
  expiry_or_zero t - refreshBuffer <=? at_time.

(** The decision of [getAccessToken] as a table. *)
Definition decision (env : Env) (s : State) : option string :=
  match tokens_at_hand s with
  | None => None
  | Some t =>
      if due t (now env (ticks s)) then refresh_yields env s
      else access_token t
  end.

(** The value of a call in the end; a caller that joined the refresh in
    flight gets what that refresh resolves with, [pending]. *)
Definition delivered (pending : option string) (a : answer (option string))
  : option string :=
  match a with
  | Done v => v
  | Waiting _ => pending
  end.

(** What the refresh gives the call that reaches it: the refresh it
    starts, or the one in flight that it joins. *)
Definition refresh_gives (env : Env) (pending : option string) (s : State)
  : option string :=
  delivered pending (fst (refreshAccessToken env (refresh_point s))).

(** The table of [getAccessToken] for every state, a refresh in flight
    included. *)
Definition outcome (env : Env) (pending : option string) (s : State)
  : option string :=
  match tokens_at_hand s with
  | None => None
  | Some t =>
      if due t (now env (ticks s)) then refresh_gives env pending s
      else access_token t
  end.

End TokenManager.

(* ---------------------------------------------------------------------- *)
(** ** The enhanced token storage with automatic refresh                    *)
(* ---------------------------------------------------------------------- *)

Module EnhancedTokenStorage.
Import Js.
Import TokenStorage(TokenSet, mkTokenSet, access_token, refresh_token,
                    expires_in, expires_at, scope, token_type,
                    ResponseBody, mkBody,
                    TokenRequest, mkTokenRequest).

(** The object ([cachedTokens], whether both client credentials are set),
    the token file, and what the object has done to the outside. *)
Record Storage : Type := mkStorage {
  cachedTokens : option TokenSet;
  configured : bool;
  file : option TokenSet;
  sent : list TokenRequest;
  writes : nat;
  log : list string
}.

Definition say (msg : string) (s : Storage) : Storage :=
  mkStorage (cachedTokens s) (configured s) (file s) (sent s) (writes s)
            (log s ++ [msg]).

Definition send (req : TokenRequest) (s : Storage) : Storage :=
  mkStorage (cachedTokens s) (configured s) (file s) (sent s ++ [req])
            (writes s) (log s).

(** The parsed body of a token response is itself the token object that is
    stored. *)
Inductive TokenBody : Type :=
| Parsed (tokenResponse : TokenSet)
| Unparsable.

(** A number in a condition: zero, NaN and a missing value are false. *)
Definition truthy_num (n : option Z) : bool :=
  match n with
  | Some z => negb (z =? 0)
  | None => false
  end.

Definition with_expires_at (e : option Z) (t : TokenSet) : TokenSet :=
  mkTokenSet (access_token t) (refresh_token t) (expires_in t) e
             (scope t) (token_type t).

Definition with_refresh_token (r : option string) (t : TokenSet) : TokenSet :=
  mkTokenSet (access_token t) r (expires_in t) (expires_at t)
             (scope t) (token_type t).

(** [saveTokens]: the expiry is filled in on the object that was passed;
    the cache follows the file only when the write succeeds. The object as
    it is after the call is returned next to the boolean. *)
Definition saveTokens (at_time : Z) (ok : bool) (t : TokenSet) (s : Storage)
  : bool * TokenSet * Storage :=
  let t :=
    if (negb (truthy_num (expires_at t)) && truthy_num (expires_in t))%bool
    then with_expires_at
           (option_map (fun e => at_time + e * 1000) (expires_in t)) t
    else t in
  if ok then
    (true, t,
     mkStorage (Some t) (configured s) (Some t) (sent s) (S (writes s))
               (log s ++ ["[TokenStorage] Tokens saved successfully"]))
  else
    (false, t,
     mkStorage (cachedTokens s) (configured s) (file s) (sent s)
               (S (writes s))
               (log s ++ ["[TokenStorage] Error saving tokens:"])).

(** [loadTokens]. *)
Definition loadTokens (s : Storage) : option TokenSet * Storage :=
  match cachedTokens s with
  | Some t => (Some t, s)
  | None =>
      match file s with
      | None => (None, s)
      | Some t =>
          if truthy_ostr (access_token t)
          then (Some t,
                mkStorage (Some t) (configured s) (file s) (sent s)
                          (writes s) (log s))
          else (None, s)
      end
  end.

Definition refreshBufferTime : Z := 5 * 60 * 1000.

(** [needsRefresh]. *)
Definition needsRefresh (at_time : Z) (t : TokenSet) : bool :=
  match expires_at t with
  | Some e => if e =? 0 then true else e - at_time <=? refreshBufferTime
  | None => true
  end.

(** refreshToken up to the return of the promise: without a refresh token
    or without the client credentials no request is made. *)
Definition refresh_invoke (refreshToken : option string) (s : Storage)
  : option TokenRequest * Storage :=
  match refreshToken with
  | Some r =>
      if truthy_str r then
        if configured s then
          let req := mkTokenRequest "refresh_token" r in
          (Some req,
           send req (say "[TokenStorage] Refreshing access token..." s))
        else (None, say "[TokenStorage] Client credentials not configured" s)
      else (None, say "[TokenStorage] No refresh token available" s)
  | None => (None, say "[TokenStorage] No refresh token available" s)
  end.

(** The [end] handler: the status is looked at before the body; the clock
    is read for the expiry ([at_time]) and again in saveTokens
    ([save_time]); the promise resolves with the token object whatever the
    save returned. *)
Definition refresh_on_end (refreshToken : option string) (status : Z)
  (body : TokenBody) (at_time save_time : Z) (ok : bool) (s : Storage)
  : option TokenSet * Storage :=
  if ((200 <=? status) && (status <? 300))%bool then
    match body with
    | Unparsable =>
        (None, say "[TokenStorage] Error parsing refresh response:" s)
    | Parsed tokenResponse =>
        let t := with_expires_at
                   (option_map (fun e => at_time + e * 1000)
                               (expires_in tokenResponse))
                   tokenResponse in
        let t := if truthy_ostr (refresh_token t) then t
                 else with_refresh_token refreshToken t in
        let '(_, t, s) := saveTokens save_time ok t s in
        (Some t, say "[TokenStorage] Token refreshed successfully" s)
    end
  else (None, say "[TokenStorage] Token refresh failed with status" s).

Definition refresh_on_error (s : Storage) : option TokenSet * Storage :=
  (None, say "[TokenStorage] Network error during token refresh:" s).

(** The fields of a token response that the other two implementations
    read. *)
Definition body_of (tokenResponse : TokenSet) : ResponseBody :=
  mkBody (access_token tokenResponse) (refresh_token tokenResponse)
         (expires_in tokenResponse) None.

Definition fresh_storage (memory disk : option TokenSet) : Storage :=
  mkStorage memory true disk [] 0 [].

(** A response that grants a new access token for an hour, without a new
    refresh token. *)
Definition granted_hour : TokenSet :=
  mkTokenSet (Some "access-new") None (Some 3600) None
             (Some "Mail.Read") (Some "Bearer").

End EnhancedTokenStorage.

(* ---------------------------------------------------------------------- *)
(** ** Concurrent callers of refreshAccessToken                             *)
(* ---------------------------------------------------------------------- *)

(** JavaScript runs one handler at a time: an interleaving of concurrent
    calls is a sequence of events, each handled without interruption. *)
Module SingleFlight.
Import Js TokenStorage.

Inductive event : Type :=
| Call (caller : nat)
| ResponseEnd (p : nat) (status : Z) (body : TokenBody) (at_time : Z)
| RequestError (p : nat)
| WriteDone (p : nat) (ok : bool).

(** A request on its way, with the callers whose continuations hang on its
    promise; [snapshot] is set while the token file is being written. *)
Record Flight : Type := mkFlight {
  flight_id : nat;
  flight_waiters : list nat;
  flight_snapshot : option Doc
}.

Record Machine : Type := mkMachine {
  store : Store;
  flights : list Flight;
  delivered : list (nat * settled)
}.

Fixpoint find_flight (p : nat) (fs : list Flight) : option Flight :=
  match fs with
  | [] => None
  | f :: rest => if Nat.eqb (flight_id f) p then Some f else find_flight p rest
  end.

Fixpoint drop_flight (p : nat) (fs : list Flight) : list Flight :=
  match fs with
  | [] => []
  | f :: rest =>
      if Nat.eqb (flight_id f) p then drop_flight p rest
      else f :: drop_flight p rest
  end.

Fixpoint attach (p caller : nat) (fs : list Flight) : list Flight :=
  match fs with
  | [] => []
  | f :: rest =>
      if Nat.eqb (flight_id f) p
      then mkFlight (flight_id f) (flight_waiters f ++ [caller])
                    (flight_snapshot f) :: rest
      else f :: attach p caller rest
  end.

Fixpoint set_snapshot (p : nat) (d : Doc) (fs : list Flight) : list Flight :=
  match fs with
  | [] => []
  | f :: rest =>
      if Nat.eqb (flight_id f) p
      then mkFlight (flight_id f) (flight_waiters f) (Some d) :: rest
      else f :: set_snapshot p d rest
  end.

(** Every continuation of the promise runs with the same outcome. *)
Definition deliver (f : Flight) (out : settled) (m : Machine)
  : list (nat * settled) :=
  delivered m ++ map (fun caller => (caller, out)) (flight_waiters f).

Definition settle (f : Flight) (out : settled) (s : Store) (m : Machine)
  : Machine :=
  mkMachine s (drop_flight (flight_id f) (flights m)) (deliver f out m).

(** One event; [None] when the event cannot happen in this state. *)
Definition step (m : Machine) (e : event) : option Machine :=
  match e with
  | Call caller =>
      match refresh_invoke (store m) with
      | (Threw, s) =>
          Some (mkMachine s (flights m)
                  (delivered m ++ [(caller, Rejected NoRefreshToken)]))
      | (Joined p, s) =>
          Some (mkMachine s (attach p caller (flights m)) (delivered m))
      | (Started p _, s) =>
          Some (mkMachine s (flights m ++ [mkFlight p [caller] None])
                  (delivered m))
      end
  | ResponseEnd p status body at_time =>
      match find_flight p (flights m) with
      | Some f =>
          match flight_snapshot f with
          | Some _ => None
          | None =>
              match refresh_on_end status body at_time (store m) with
              | (Settled out, s) => Some (settle f out s m)
              | (Saving d, s) =>
                  Some (mkMachine s (set_snapshot p d (flights m))
                          (delivered m))
              end
          end
      | None => None
      end
  | RequestError p =>
      match find_flight p (flights m) with
      | Some f =>
          match flight_snapshot f with
          | Some _ => None
          | None =>
              let '(out, s) := refresh_on_error (store m) in
              Some (settle f out s m)
          end
      | None => None
      end
  | WriteDone p ok =>
      match find_flight p (flights m) with
      | Some f =>
          match flight_snapshot f with
          | Some d =>
              let '(out, s) := refresh_on_saved d ok (store m) in
              Some (settle f out s m)
          | None => None
          end
      | None => None
      end
  end.

Fixpoint run (m : Machine) (evs : list event) : option Machine :=
  match evs with
  | [] => Some m
  | e :: rest =>
      match step m e with
      | Some m' => run m' rest
      | None => None
      end
  end.

(** A run during which a refresh stays in flight: after every event some
    flight is still pending. *)
Fixpoint run_pending (m : Machine) (evs : list event) : option Machine :=
  match evs with
  | [] => Some m
  | e :: rest =>
      match step m e with
      | Some m' =>
          match flights m' with
          | [] => None
          | _ :: _ => run_pending m' rest
          end
      | None => None
      end
  end.

(** The callers named by the calls of a sequence of events. *)
Definition callers (evs : list event) : list nat :=
  flat_map (fun e => match e with Call c => [c] | _ => [] end) evs.

(** No refresh is under way and nothing has been handed out. *)
Definition at_rest (s : Store) : Machine := mkMachine s [] [].

Definition has_refresh_token (s : Store) : bool :=
  match tokens s with
  | Some d => truthy_ostr (refresh_token (top d))
  | None => false
  end.

(** The state of the machine while the refresh that caller [c0] started is
    in flight: one flight, named by the slot, that carries every caller so
    far; one request more than at the start; nothing handed out yet. *)
Definition in_flight (s0 : Store) (waiting : list nat) (m : Machine) : Prop :=
  exists f req,
    flights m = [f]
    /\ flight_waiters f = waiting
    /\ refreshPromise (store m) = Some (flight_id f)
    /\ has_refresh_token (store m) = true
    /\ sent (store m) = sent s0 ++ [req]
    /\ delivered m = [].

(** Three callers around one refresh of a legacy document: two before the
    response, one while the file is being written. *)
Definition three_callers : list event :=
  [Call 2;
   ResponseEnd 0 200
     (Json (mkBody (Some "access-new") None (Some 3600) None)) 5000000;
   Call 3].

End SingleFlight.

(* ---------------------------------------------------------------------- *)
(** ** Concurrent callers of the refresh of auth/token-manager.js           *)
(* ---------------------------------------------------------------------- *)

Module ManagerFlight.
Import Js TokenManager.

(** The write of the file happens inside the [end] handler, so its success
    comes with the event of the response. *)
Inductive event : Type :=
| Call (caller : nat)
| ResponseEnd (p : nat) (status : Z) (body : TokenStorage.TokenBody)
              (at_time : Z) (write_succeeds : bool)
| RequestError (p : nat).

Record Flight : Type := mkFlight {
  flight_id : nat;
  flight_waiters : list nat
}.

Record Machine : Type := mkMachine {
  state : State;
  flights : list Flight;
  delivered : list (nat * option string)
}.

Fixpoint find_flight (p : nat) (fs : list Flight) : option Flight :=
  match fs with
  | [] => None
  | f :: rest => if Nat.eqb (flight_id f) p then Some f else find_flight p rest
  end.

Fixpoint drop_flight (p : nat) (fs : list Flight) : list Flight :=
  match fs with
  | [] => []
  | f :: rest =>
      if Nat.eqb (flight_id f) p then drop_flight p rest
      else f :: drop_flight p rest
  end.

Fixpoint attach (p caller : nat) (fs : list Flight) : list Flight :=
  match fs with
  | [] => []
  | f :: rest =>
      if Nat.eqb (flight_id f) p
      then mkFlight (flight_id f) (flight_waiters f ++ [caller]) :: rest
      else f :: attach p caller rest
  end.

(** Every caller that holds the promise gets the value it resolves with. *)
Definition settle (f : Flight) (out : option string) (s : State) (m : Machine)
  : Machine :=
  mkMachine s (drop_flight (flight_id f) (flights m))
            (delivered m ++ map (fun caller => (caller, out)) (flight_waiters f)).

Definition step (m : Machine) (e : event) : option Machine :=
  match e with
  | Call caller =>
      match refresh_invoke (state m) with
      | (Nothing, s) =>
          Some (mkMachine s (flights m) (delivered m ++ [(caller, None)]))
      | (Joined p, s) =>
          Some (mkMachine s (attach p caller (flights m)) (delivered m))
      | (Started p _, s) =>
          Some (mkMachine s (flights m ++ [mkFlight p [caller]]) (delivered m))
      end
  | ResponseEnd p status body at_time ok =>
      match find_flight p (flights m) with
      | Some f =>
          let '(out, s) := refresh_on_end status body at_time ok (state m) in
          Some (settle f out s m)
      | None => None
      end
  | RequestError p =>
      match find_flight p (flights m) with
      | Some f =>
          let '(out, s) := refresh_on_error (state m) in
          Some (settle f out s m)
      | None => None
      end
  end.

Fixpoint run (m : Machine) (evs : list event) : option Machine :=
  match evs with
  | [] => Some m
  | e :: rest =>
      match step m e with
      | Some m' => run m' rest
      | None => None
      end
  end.

(** A run during which a refresh stays in flight. *)
Fixpoint run_pending (m : Machine) (evs : list event) : option Machine :=
  match evs with
  | [] => Some m
  | e :: rest =>
      match step m e with
      | Some m' =>
          match flights m' with
          | [] => None
          | _ :: _ => run_pending m' rest
          end
      | None => None
      end
  end.

Definition callers (evs : list event) : list nat :=
  flat_map (fun e => match e with Call c => [c] | _ => [] end) evs.

Definition at_rest (s : State) : Machine := mkMachine s [] [].

Definition has_refresh_token (s : State) : bool :=
  match tokens_at_hand s with
  | Some t => truthy_ostr (TokenStorage.refresh_token t)
  | None => false
  end.

(** The state of the machine while the refresh that the first caller
    started is in flight. *)
Definition in_flight (s0 : State) (waiting : list nat) (m : Machine) : Prop :=
  exists f req,
    flights m = [f]
    /\ flight_waiters f = waiting
    /\ refreshPromise (state m) = Some (flight_id f)
    /\ sent (state m) = sent s0 ++ [req]
    /\ delivered m = [].

End ManagerFlight.
(* ====================================================================== *)
(** * Requests, listings, accounts, sign-in and sign-out                     *)
(* ====================================================================== *)

From Stdlib Require Import DecimalString.

(* ---------------------------------------------------------------------- *)
(** ** Reading a trace: requests, cursors, failures                         *)
(* ---------------------------------------------------------------------- *)

Module Requests.
Import Js Http.

(** A number written into a string, as template literals, string
    concatenation and [URLSearchParams.append] write an integer. *)
Definition decimal (z : Z) : string := NilZero.string_of_int (Z.to_int z).

Definition is_exchange (e : event) : bool :=
  match e with
  | Exchange _ _ => true
  | Simulated _ _ _ _ _ => false
  end.

Definition is_simulated (e : event) : bool := negb (is_exchange e).

Definition event_url (e : event) : option string :=
  match e with
  | Exchange req _ => Some (req_url req)
  | Simulated _ _ _ _ _ => None
  end.

(** The cursor of the page that an exchange delivered. *)
Definition event_cursor (e : event) : option json :=
  match Pages.event_response e with
  | Some j => get "@odata.nextLink" j
  | None => None
  end.

(** The exchange gave [callGraphAPI] a value to return. *)
Definition responded (e : event) : bool :=
  match Pages.event_response e with
  | Some _ => true
  | None => false
  end.

(** The test of the source for a path that is a full URL. *)
Definition absolute (u : string) : bool :=
  (startsWith u "http://" || startsWith u "https://")%bool.

(** A page whose cursor, when it has one that counts, is a full URL. *)
Definition cursor_absolute (j : json) : bool :=
  match get "@odata.nextLink" j with
  | Some (JStr u) => (negb (truthy_str u) || absolute u)%bool
  | Some link => negb (truthy link)
  | None => true
  end.

(** The server hands out full URLs as cursors. *)
Definition absolute_cursors (env : Env) : Prop :=
  forall t req j,
    Pages.event_response (Exchange req (remote env t req)) = Some j ->
    cursor_absolute j = true.

(** The requests of [evs] go to [url] first and then, each, to the cursor
    that the exchange before it delivered. *)
Fixpoint chained (url : string) (evs : trace) : bool :=
  match evs with
  | [] => true
  | e :: rest =>
      match event_url e with
      | Some u =>
          (String.eqb u url
           && match rest with
              | [] => true
              | _ :: _ =>
                  match event_cursor e with
                  | Some (JStr link) => chained link rest
                  | _ => false
                  end
              end)%bool
      | None => false
      end
  end.

(** A request made with the given method and token, without a body. *)
Definition plain_request (accessToken method : string) (e : event) : bool :=
  match e with
  | Exchange req _ =>
      (String.eqb (req_method req) method
       && String.eqb (req_bearer req) accessToken
       && match req_body req with
          | None => true
          | Some _ => false
          end)%bool
  | Simulated _ _ _ _ _ => false
  end.

(** The condition of the source under which the simulator answers. *)
Definition test_mode (env : Env) (accessToken : string) : bool :=
  (USE_TEST_MODE env && startsWith accessToken "test_access_token_")%bool.

(** What a reader of the query string is to find for the object that the
    query builder was given: the generic parameters in their order, the
    filter last. *)
Definition sent_params (queryParams : Params) : Params :=
  remove_key "$filter" queryParams
  ++ match assoc "$filter" queryParams with
     | Some f => [("$filter", f)]
     | None => []
     end.

(** A server that fails every request with status [status]. *)
Definition failing_env (status : Z) : Env :=
  mkEnv false
        (fun _ _ => HttpReply status (BodyMalformed "Service Unavailable"))
        (fun _ _ _ _ _ => None).

(** A simulator that serves pages of ten items, and a server that must not
    be reached. *)
Definition mock_env : Env :=
  mkEnv true
        (fun _ _ => NetworkFailure "unreachable")
        (fun t _ _ _ _ => Some (Pages.ten_page (List.length t))).

End Requests.

(* ---------------------------------------------------------------------- *)
(** ** email/list.js: the counts of a listing                               *)
(* ---------------------------------------------------------------------- *)

Module ListEmails.
Import Js Http.

(** config.js *)
Definition API_PAGE_SIZE : Z := 50.
Definition MAX_TOTAL_RESULTS : Z := 1000.
Definition EMAIL_SELECT_FIELDS : string :=
  "id,subject,from,toRecipients,ccRecipients,receivedDateTime,bodyPreview,hasAttachments,importance,isRead".

(** [parsedCount] is the value of [parseInt(args.count, 10)]; NaN is
    [None]. *)
Definition validCount (parsedCount : option Z) : Z :=
  match parsedCount with
  | None => 10
  | Some n => if n <=? 0 then 10 else n
  end.

Definition requestedCount (parsedCount : option Z) : Z :=
  Z.min (validCount parsedCount) MAX_TOTAL_RESULTS.

(** The [$top] of the query parameters. *)
Definition top (parsedCount : option Z) : Z :=
  Z.max 1 (Z.min API_PAGE_SIZE (requestedCount parsedCount)).

Definition queryParams (parsedCount : option Z) : Params :=
  [("$top", Requests.decimal (top parsedCount));
   ("$orderby", "receivedDateTime desc");
   ("$select", EMAIL_SELECT_FIELDS)].

(** The paginated call that handleListEmails makes for the inbox. *)
Definition inbox_listing (env : Env) (fuel : nat) (accessToken : string)
  (parsedCount : option Z) : M json :=
  GraphApi.callGraphAPIPaginated env fuel accessToken "GET" "me/messages"
    (queryParams parsedCount) (requestedCount parsedCount).

(** The same call in the revision that takes the object by reference:
    the object literal is a new object of the store. *)
Definition inbox_listing_by_reference (env : Env) (fuel : nat)
  (accessToken : string) (parsedCount : option Z) : GraphApiLegacy.L json :=
  fun w =>
    GraphApiLegacy.callGraphAPIPaginated env fuel accessToken "GET"
      "me/messages" (List.length (GraphApiLegacy.heap w))
      (requestedCount parsedCount)
      (GraphApiLegacy.mkWorld (GraphApiLegacy.exchanges w)
         (GraphApiLegacy.heap w ++ [queryParams parsedCount])).

(** The number of pages of [top] items that hold the requested count. *)
Definition pages_needed (parsedCount : option Z) : nat :=
  Z.to_nat ((requestedCount parsedCount + top parsedCount - 1)
            / top parsedCount).

(** A server that honours [$top = n]: pages of [n] items with a cursor. *)
Definition full_page (n k : nat) : json :=
  JObj [("value", JArr (map (fun i => JNum (Z.of_nat (n * k + i))) (seq 0 n)));
        ("@odata.nextLink",
         JStr "https://graph.microsoft.com/v1.0/me/messages?$skiptoken=x")].

Definition paging_env (n : nat) : Env :=
  mkEnv false
        (fun t _ => HttpReply 200 (BodyJson (full_page n (List.length t))))
        (fun t _ _ _ _ => Some (full_page n (List.length t))).

End ListEmails.

(* ---------------------------------------------------------------------- *)
(** ** auth/token-storage.js: accounts, sign-in and sign-out                *)
(* ---------------------------------------------------------------------- *)

Module TokenStorageOps.
Import Js TokenStorage.

Inductive op_error : Type :=
| AccountNotFound (email : string)
| WriteFailed
| NotConfigured
| ExchangeRejected (description : option string) (status : Z)
| ProcessingError
| AuthenticationRequired.

Inductive op_result (A : Type) : Type :=
| Returned (a : A)
| Failed (e : op_error).

Arguments Returned {A} a.
Arguments Failed {A} e.

(** The names that every object inherits from [Object.prototype]: for
    them [o[k]] is truthy although [o] has no key [k]. *)
Definition inherited (k : string) : bool :=
  existsb (String.eqb k)
    ["constructor"; "__proto__"; "hasOwnProperty"; "isPrototypeOf";
     "propertyIsEnumerable"; "toLocaleString"; "toString"; "valueOf";
     "__defineGetter__"; "__defineSetter__"; "__lookupGetter__";
     "__lookupSetter__"].

(** The test [o[k]] of an object whose own values are objects: an own key,
    or an inherited name. *)
Definition found {A : Type} (k : string) (o : list (string * A)) : bool :=
  match assoc k o with
  | Some _ => true
  | None => inherited k
  end.

Fixpoint all_digits (s : string) : bool :=
  match s with
  | EmptyString => true
  | String c rest =>
      ((48 <=? nat_of_ascii c)%nat && (nat_of_ascii c <=? 57)%nat
       && all_digits rest)%bool
  end.

(** A string of decimal digits; the array indices are among them. *)
Definition numeric (k : string) : bool :=
  match k with
  | EmptyString => false
  | String _ _ => all_digits k
  end.

(** The keys for which [o[k] = v] writes an own property behind the keys
    that exist: [__proto__] would set the prototype instead, and an array
    index is kept in front of the other keys, by its value. *)
Definition ordinary_key (k : string) : bool :=
  (negb (String.eqb k "__proto__") && negb (numeric k))%bool.

(** [o[k] = v] for an ordinary key: a key that exists keeps its place, a
    new key comes last. *)
Fixpoint set_key {A : Type} (k : string) (v : A) (o : list (string * A))
  : list (string * A) :=
  match o with
  | [] => [(k, v)]
  | (k', v') :: rest =>
      if String.eqb k k' then (k, v) :: rest else (k', v') :: set_key k v rest
  end.

Definition with_active (d : Doc) (email : string) : Doc :=
  mkDoc (top d) (accounts d) (Some email).

(** [setActiveAccount]: the document in memory is changed before the
    write, and stays changed when the write fails. *)
Definition setActiveAccount (env : Env) (email : string) (s : Store)
  : op_result unit * Store :=
  let '(allTokens, s) := getTokens s in
  match allTokens with
  | None => (Failed (AccountNotFound email), s)
  | Some d =>
      match accounts d with
      | None => (Failed (AccountNotFound email), s)
      | Some accs =>
          if found email accs then
            let s := set_tokens (Some (with_active d email)) s in
            match _saveTokensToFile env s with
            | (Resolved _, s) =>
                (Returned tt, say "Active account switched to" s)
            | (Rejected _, s) => (Failed WriteFailed, s)
            end
          else (Failed (AccountNotFound email), s)
      end
  end.

(** [getActiveAccount]. *)
Definition getActiveAccount (s : Store) : option string * Store :=
  let '(allTokens, s) := getTokens s in
  (match allTokens with
   | None => None
   | Some d =>
       Some (match activeAccount d with
             | Some active => if truthy_str active then active else "default"
             | None => "default"
             end)
   end, s).

(** [getExpiryTime]. *)
Definition getExpiryTime (s : Store) : Z :=
  match tokens s with
  | Some d =>
      match expires_at (top d) with
      | Some e => e
      | None => 0
      end
  | None => 0
  end.

(** [clearTokens]: the tokens in memory are dropped first; a file that
    cannot be deleted stays, and the error is only logged. *)
Definition clearTokens (unlink_ok : bool) (s : Store) : Store :=
  let s := set_tokens None s in
  match file s with
  | None => say "Token file not found, nothing to delete." s
  | Some _ =>
      if unlink_ok
      then say "Token file deleted successfully."
               (mkStore (tokens s) (refreshPromise s) None (sent s) (ticks s)
                        (writes s) (log s))
      else say "Error deleting token file:" s
  end.

(** The body of the response to an authorization-code exchange: the token
    fields that are copied, and the description of an error. *)
Inductive ExchangeBody : Type :=
| ExchangeJson (granted : TokenSet) (error_description : option string)
| ExchangeUnreadable.

(** The answer to [GET /v1.0/me]; its status is not looked at. *)
Inductive UserInfoReply : Type :=
| UserInfo (mail userPrincipalName : option string)
| UserInfoUnreadable
| UserInfoNetworkError.

(** [_getUserEmail], from the reply: [mail || userPrincipalName]. *)
Definition _getUserEmail (reply : UserInfoReply) : option string :=
  match reply with
  | UserInfo mail userPrincipalName =>
      if truthy_ostr mail then mail
      else if truthy_ostr userPrincipalName then userPrincipalName
      else None
  | UserInfoUnreadable => None
  | UserInfoNetworkError => None
  end.

(** The token object built from a granted exchange. *)
Definition newToken (granted : TokenSet) (at_time : Z) : TokenSet :=
  mkTokenSet (access_token granted) (refresh_token granted)
             (expires_in granted)
             (option_map (fun e => at_time + e * 1000) (expires_in granted))
             (scope granted) (token_type granted).

(** [allTokens.accounts[key] = token; allTokens.activeAccount = key;
    this.tokens = allTokens] on [await this.getTokens() || {}]. *)
Definition register (key : string) (token : TokenSet) (s : Store) : Store :=
  let '(allTokens, s) := getTokens s in
  let d := match allTokens with
           | Some d => d
           | None => mkDoc no_token None None
           end in
  let accs := match accounts d with
              | Some accs => accs
              | None => []
              end in
  set_tokens (Some (mkDoc (top d) (Some (set_key key token accs)) (Some key))) s.

(** The accounts and the top-level token set of the stored document; none
    without a document. *)
Definition registered (s : Store) : list (string * TokenSet) :=
  match stored s with
  | Some d =>
      match accounts d with
      | Some accs => accs
      | None => []
      end
  | None => []
  end.

Definition top_level (s : Store) : TokenSet :=
  match stored s with
  | Some d => top d
  | None => no_token
  end.

(** What the promise of exchangeCodeForTokens resolves with:
    [{...newToken, email}]. *)
Record Exchanged : Type := mkExchanged {
  exchanged_token : TokenSet;
  exchanged_email : string
}.

(** The second attempt of the exchange, under a key made of the time. *)
Definition register_by_time (env : Env) (token : TokenSet) (s : Store)
  : op_result Exchanged * Store :=
  let s := say "Could not determine user email, using timestamp-based key" s in
  let '(key_time, s) := date_now env s in
  let accountKey := "account_" +:+ Requests.decimal key_time in
  match _saveTokensToFile env (register accountKey token s) with
  | (Resolved _, s) => (Returned (mkExchanged token accountKey), s)
  | (Rejected _, s) => (Failed ProcessingError, s)
  end.

(** The [end] handler of the exchange, with the reply [who] to the request
    for the user's profile; the last component lists the bearer tokens of
    the profile requests made. A failure inside the first attempt, the
    failed write included, leads to the second attempt. *)
Definition exchange_on_end (env : Env) (status : Z) (body : ExchangeBody)
  (who : UserInfoReply) (s : Store)
  : op_result Exchanged * Store * list (option string) :=
  match body with
  | ExchangeUnreadable => (Failed ProcessingError, s, [])
  | ExchangeJson granted description =>
      if ((200 <=? status) && (status <? 300))%bool then
        let '(at_time, s) := date_now env s in
        let token := newToken granted at_time in
        let '(out, s) :=
          match _getUserEmail who with
          | Some userEmail =>
              match _saveTokensToFile env (register userEmail token s) with
              | (Resolved _, s) =>
                  (Returned (mkExchanged token userEmail),
                   say "Tokens exchanged and saved successfully for account" s)
              | (Rejected _, s) => register_by_time env token s
              end
          | None => register_by_time env token s
          end in
        (out, s, [access_token token])
      else (Failed (ExchangeRejected description status), s, [])
  end.

(** exchangeCodeForTokens up to the request: without both client
    credentials nothing is sent. *)
Definition exchange_invoke (configured : bool) (authCode : string) (s : Store)
  : op_result TokenRequest * Store :=
  if configured then
    let req := mkTokenRequest "authorization_code" authCode in
    (Returned req, send req s)
  else (Failed NotConfigured, s).

(** auth/index.js, [ensureAuthenticated]: in both revisions a missing token
    is the error 'Authentication required'. *)
Definition ensureAuthenticated (env : Env) (forceNew : bool) (s : Store)
  : answer (op_result string) * Store :=
  if forceNew then (Done (Failed AuthenticationRequired), s)
  else
    match getValidAccessToken env s with
    | (Done accessToken, s) =>
        (Done (match accessToken with
               | Some token =>
                   if truthy_str token then Returned token
                   else Failed AuthenticationRequired
               | None => Failed AuthenticationRequired
               end), s)
    | (Waiting p, s) => (Waiting p, s)
    end.

(** A registry with two accounts whose tokens are both valid for long. *)
Definition token_d : TokenSet :=
  mkTokenSet (Some "access-d") (Some "refresh-d") (Some 3600)
             (Some 9500000) (Some "Mail.Read") (Some "Bearer").

Definition fresh_accounts : Doc :=
  mkDoc no_token (Some [("a@x.com", token_a); ("d@x.com", token_d)])
        (Some "a@x.com").

(** An endpoint that rejects every refresh. *)
Definition rejecting (at_time : Z) : Env :=
  mkEnv (fun _ => at_time)
        (fun _ _ => TokenResponse 400
                      (Json (mkBody None None None (Some "invalid_grant"))))
        (fun _ => true).

(** A disk whose first write fails and whose later writes succeed. *)
Definition flaky_disk (at_time : Z) : Env :=
  mkEnv (fun _ => at_time)
        (fun _ _ => TokenNetworkError)
        (fun n => negb (Nat.eqb n 0)).

(** The grant of an authorization-code exchange. *)
Definition granted_e : TokenSet :=
  mkTokenSet (Some "access-e") (Some "refresh-e") (Some 3600) None
             (Some "Mail.Read") (Some "Bearer").

End TokenStorageOps.

(* ---------------------------------------------------------------------- *)
(** ** manage-accounts.js: the command-line tool on the token file          *)
(* ---------------------------------------------------------------------- *)

Module ManageAccounts.
Import Js TokenStorage.

(** [listAccounts]: nothing without a file, the keys of [accounts] in the
    multi-account form, the empty list for the old form. *)
Definition listAccounts (file : option Doc) : option (list string) :=
  match file with
  | None => None
  | Some d =>
      match accounts d with
      | Some accs => Some (keys accs)
      | None => Some []
      end
  end.

(** [switchAccount]: the result does not depend on the write, whose
    failure saveTokens only logs. *)
Definition switchAccount (write_succeeds : bool) (email : string)
  (file : option Doc) : bool * option Doc :=
  match file with
  | None => (false, file)
  | Some d =>
      match accounts d with
      | None => (false, file)
      | Some accs =>
          if TokenStorageOps.found email accs then
            (true,
             if write_succeeds
             then Some (TokenStorageOps.with_active d email)
             else file)
          else (false, file)
      end
  end.

(** [clearAllTokens]. *)
Definition clearAllTokens (unlink_ok : bool) (file : option Doc) : option Doc :=
  match file with
  | None => None
  | Some _ => if unlink_ok then None else file
  end.

End ManageAccounts.

(* ---------------------------------------------------------------------- *)
(** ** auth/token-manager.js: test tokens                                   *)
(* ---------------------------------------------------------------------- *)

Module TokenManagerOps.
Import Js TokenManager.
Import TokenStorage(TokenSet, mkTokenSet, access_token, refresh_token,
                    expires_in, expires_at, Env, now, write_ok).

(** The replies of the token endpoint that do not grant a refresh: a
    network error, a body that does not parse, a status outside 2xx. *)
Definition refused (reply : TokenStorage.TokenReply) : bool :=
  match reply with
  | TokenStorage.TokenResponse status (TokenStorage.Json _) =>
      negb ((200 <=? status) && (status <? 300))
  | TokenStorage.TokenResponse _ TokenStorage.Unreadable => true
  | TokenStorage.TokenNetworkError => true
  end.

(** [createTestTokens]: the clock is read three times; the tokens are
    returned whether or not they could be saved. *)
Definition createTestTokens (env : Env) (s : State) : TokenSet * State :=
  let t1 := now env (ticks s) in
  let t2 := now env (S (ticks s)) in
  let t3 := now env (S (S (ticks s))) in
  let testTokens :=
    mkTokenSet (Some ("test_access_token_" +:+ Requests.decimal t1))
               (Some ("test_refresh_token_" +:+ Requests.decimal t2))
               None (Some (t3 + 3600 * 1000)) None None in
  let s := tick (tick (tick s)) in
  (testTokens, snd (saveTokenCache (write_ok env (writes s)) testTokens s)).

(** The process starts again: the module variables are back to null. *)
Definition restart (s : State) : State :=
  mkState None None (file s) (sent s) (ticks s) (writes s) (log s).

End TokenManagerOps.

(* ---------------------------------------------------------------------- *)
(** ** The enhanced token storage: the calls around the refresh             *)
(* ---------------------------------------------------------------------- *)

Module EnhancedOps.
Import Js EnhancedTokenStorage.
Import TokenStorage(TokenSet, mkTokenSet, access_token, refresh_token,
                    expires_in, expires_at, scope, token_type,
                    TokenRequest, mkTokenRequest).

(** The reply to a request at the token endpoint. *)
Inductive Reply : Type :=
| Response (status : Z) (body : TokenBody)
| NetworkError.

(** refreshToken run to its end: [reply] answers the request if one is
    made. *)
Definition refreshToken (refreshToken : option string) (reply : Reply)
  (at_time save_time : Z) (ok : bool) (s : Storage)
  : option TokenSet * Storage :=
  match refresh_invoke refreshToken s with
  | (None, s) => (None, s)
  | (Some _, s) =>
      match reply with
      | Response status body =>
          refresh_on_end refreshToken status body at_time save_time ok s
      | NetworkError => refresh_on_error s
      end
  end.

(** [getValidAccessToken]; [check_time] is the reading of the clock in
    needsRefresh. *)
Definition getValidAccessToken (reply : Reply)
  (check_time at_time save_time : Z) (ok : bool) (s : Storage)
  : option string * Storage :=
  match loadTokens s with
  | (None, s) => (None, say "[TokenStorage] No tokens available" s)
  | (Some tokens, s) =>
      if needsRefresh check_time tokens then
        match refreshToken (refresh_token tokens) reply at_time save_time ok
                (say "[TokenStorage] Token needs refresh" s) with
        | (Some refreshedTokens, s) => (access_token refreshedTokens, s)
        | (None, s) => (None, say "[TokenStorage] Token refresh failed" s)
        end
      else (access_token tokens, s)
  end.

(** [clearTokens]: the cache is dropped only after the file is gone. *)
Definition clearTokens (unlink_ok : bool) (s : Storage) : Storage :=
  match file s with
  | Some _ =>
      if unlink_ok
      then say "[TokenStorage] Tokens cleared"
               (mkStorage None (configured s) None (sent s) (writes s) (log s))
      else say "[TokenStorage] Error clearing tokens:" s
  | None =>
      say "[TokenStorage] Tokens cleared"
          (mkStorage None (configured s) None (sent s) (writes s) (log s))
  end.

(** The object that getTokenExpirationInfo returns ([expiresAt] as the
    number behind the Date). *)
Record ExpirationInfo : Type := mkInfo {
  expiresAt : Z;
  timeUntilExpiry : Z;
  isExpired : bool;
  info_needsRefresh : bool
}.

(** [getTokenExpirationInfo]; the clock is read here and again in
    needsRefresh. *)
Definition getTokenExpirationInfo (at_time check_time : Z) (s : Storage)
  : option ExpirationInfo * Storage :=
  match loadTokens s with
  | (None, s) => (None, s)
  | (Some tokens, s) =>
      if truthy_num (expires_at tokens) then
        match expires_at tokens with
        | Some e =>
            (Some (mkInfo e (e - at_time) (e - at_time <=? 0)
                          (needsRefresh check_time tokens)), s)
        | None => (None, s)
        end
      else (None, s)
  end.

Inductive exchange_result : Type :=
| Exchanged (tokens : TokenSet)
| NotConfigured
| ExchangeFailed (status : Z)
| ExchangeUnparsable
| ExchangeNetworkError.

(** exchangeCodeForTokens run to its end: the promise resolves with the
    token object whatever saveTokens returned. *)
Definition exchangeCodeForTokens (code : string) (reply : Reply)
  (at_time save_time : Z) (ok : bool) (s : Storage)
  : exchange_result * Storage :=
  if configured s then
    let s := send (mkTokenRequest "authorization_code" code)
               (say "[TokenStorage] Exchanging code for tokens..." s) in
    match reply with
    | Response status body =>
        if ((200 <=? status) && (status <? 300))%bool then
          match body with
          | Unparsable => (ExchangeUnparsable, s)
          | Parsed tokenResponse =>
              let t := with_expires_at
                         (option_map (fun e => at_time + e * 1000)
                                     (expires_in tokenResponse))
                         tokenResponse in
              let '(_, t, s) := saveTokens save_time ok t s in
              (Exchanged t,
               say "[TokenStorage] Tokens obtained and saved successfully" s)
          end
        else (ExchangeFailed status, s)
    | NetworkError => (ExchangeNetworkError, s)
    end
  else (NotConfigured, s).

(** Calls of refreshToken made one after the other, before any response
    has arrived: the storage after the last of them. *)
Definition invoke_each (refreshTokens : list string) (s : Storage) : Storage :=
  fold_left (fun s r => snd (refresh_invoke (Some r) s)) refreshTokens s.

(** A token set that lies in the cache and is about to expire. *)
Definition stale : TokenSet :=
  mkTokenSet (Some "access-old") (Some "refresh-old") (Some 3600)
             (Some 1000) (Some "Mail.Read") (Some "Bearer").

End EnhancedOps.


(* ====================================================================== *)
(** * Properties                                                            *)
(* ====================================================================== *)

(* ---------------------------------------------------------------------- *)
(** ** Pagination                                                           *)
(* ---------------------------------------------------------------------- *)

Module PaginationFacts.
Import Js Http GraphApi Pages.

Lemma push_page_app (acc : list json) (response : json) :
  push_page acc response = acc ++ push_page [] response.
Proof.
  unfold push_page.
  destruct (get "value" response) as [[]|]; simpl; auto using app_nil_r.
Qed.

Lemma fetched_items_app (t1 t2 : trace) :
  fetched_items (t1 ++ t2) = fetched_items t1 ++ fetched_items t2.
Proof. unfold fetched_items. apply flat_map_app. Qed.

Lemma fetched_items_one (e : event) (j : json) :
  event_response e = Some j -> fetched_items [e] = push_page [] j.
Proof.
  intros H. unfold fetched_items, event_items. simpl.
  rewrite H. apply app_nil_r.
Qed.

(** A request and the handling of its reply: one exchange, and a response
    handed back is the one recorded. *)
Lemma request_settles env req t :
  exists r,
    (reply <- https_request env req ;; settle reply) t
    = (r, t ++ [Exchange req (remote env t req)])
    /\ r <> Diverge
    /\ (forall j, r = Ok j ->
          event_response (Exchange req (remote env t req)) = Some j).
Proof.
  unfold bind, https_request.
  destruct (remote env t req) as [status body|msg] eqn:E.
  - unfold settle.
    destruct ((200 <=? status) && (status <? 300))%bool eqn:S2.
    + destruct body as [|j|raw]; eexists;
        (split; [reflexivity|]; split; [discriminate|]);
        try discriminate;
        intros j' [= <-]; simpl; rewrite S2; reflexivity.
    + destruct (status =? 401); eexists;
        (split; [reflexivity|]; split; discriminate).
  - eexists. split; [reflexivity|]. split; discriminate.
Qed.

Lemma simulate_settles env method path data queryParams t :
  exists r e,
    simulate env method path data queryParams t = (r, t ++ [e])
    /\ r <> Diverge
    /\ (forall j, r = Ok j -> event_response e = Some j).
Proof.
  unfold simulate.
  destruct (simulateGraphAPIResponse env t method path data queryParams)
    as [j|]; eexists _, _; (split; [reflexivity|]; split; [discriminate|]).
  - intros j' [= <-]. reflexivity.
  - discriminate.
Qed.

(** A call makes at most one exchange; a response handed back is the one
    recorded in the trace. *)
Lemma callGraphAPI_exchange env accessToken method path data queryParams t :
  exists r evs,
    callGraphAPI env accessToken method path data queryParams t = (r, t ++ evs)
    /\ r <> Diverge
    /\ (List.length evs <= 1)%nat
    /\ (forall j, r = Ok j -> exists e, evs = [e] /\ event_response e = Some j).
Proof.
  unfold callGraphAPI.
  destruct (USE_TEST_MODE env && startsWith accessToken "test_access_token_")%bool.
  - destruct (simulate_settles env method path data queryParams t)
      as (r & e & -> & Hnd & Hok).
    exists r, [e]. split; [reflexivity|]. split; [assumption|].
    split; [cbn [List.length]; lia|]. intros j Hj. exists e. auto.
  - destruct path as [| | |p| |];
      try (exists (Throw TypeError), []; rewrite app_nil_r;
           split; [reflexivity|]; split; [discriminate|];
           split; [simpl; lia|discriminate]).
    set (req := mkRequest _ _ _ _).
    destruct (request_settles env req t) as (r & -> & Hnd & Hok).
    exists r, [Exchange req (remote env t req)].
    split; [reflexivity|]. split; [assumption|].
    split; [cbn [List.length]; lia|]. intros j Hj. eexists. auto.
Qed.

(** Unfolding of one iteration of the loop. *)
Lemma paginate_step env accessToken method maxCount fuel st :
  paginate env accessToken method maxCount (S fuel) st =
  if Nat.ltb MAX_PAGINATION_PAGES (S (pageCount st)) then ret (allItems st)
  else
    response <- callGraphAPI env accessToken method (currentUrl st) None
                             (currentParams st) ;;
    match response with
    | JNull => throw TypeError
    | _ =>
        let items := push_page (allItems st) response in
        if reached maxCount items then ret items
        else
          match get "@odata.nextLink" response with
          | Some nextLink =>
              if truthy nextLink
              then paginate env accessToken method maxCount fuel
                     (mkLoop items nextLink [] (S (pageCount st)))
              else ret items
          | None => ret items
          end
    end.
Proof. reflexivity. Qed.

Lemma after_page_cases env accessToken method maxCount fuel st response t :
  let items := push_page (allItems st) response in
  (response = JNull
   /\ after_page env accessToken method maxCount fuel st response t
      = (Throw TypeError, t))
  \/ after_page env accessToken method maxCount fuel st response t
    = (Ok items, t)
  \/ (exists nextLink,
        get "@odata.nextLink" response = Some nextLink
        /\ truthy nextLink = true
        /\ reached maxCount items = false
        /\ after_page env accessToken method maxCount fuel st response t
           = paginate env accessToken method maxCount fuel
               (mkLoop items nextLink [] (S (pageCount st))) t).
Proof.
  intros items. unfold after_page. fold items.
  destruct response; auto;
    (destruct (reached maxCount items) eqn:R; [right; left; reflexivity|]);
    (destruct (get "@odata.nextLink" _) as [nextLink|] eqn:L;
       [|right; left; reflexivity]);
    (destruct (truthy nextLink) eqn:T; [|right; left; reflexivity]);
    right; right; exists nextLink; auto.
Qed.

Lemma paginate_bind env accessToken method maxCount fuel st t :
  paginate env accessToken method maxCount (S fuel) st t =
  if Nat.ltb MAX_PAGINATION_PAGES (S (pageCount st)) then (Ok (allItems st), t)
  else
    match callGraphAPI env accessToken method (currentUrl st) None
                       (currentParams st) t with
    | (Ok response, t') =>
        after_page env accessToken method maxCount fuel st response t'
    | (Throw e, t') => (Throw e, t')
    | (Diverge, t') => (Diverge, t')
    end.
Proof.
  rewrite paginate_step.
  destruct (Nat.ltb MAX_PAGINATION_PAGES (S (pageCount st))); reflexivity.
Qed.

(** The loop fetches no more pages than the ceiling still allows, and what
    it returns is the accumulator extended by the pages it fetched. *)
Lemma paginate_trace env accessToken method maxCount :
  forall fuel st t,
    exists r evs,
      paginate env accessToken method maxCount fuel st t = (r, t ++ evs)
      /\ (List.length evs <= MAX_PAGINATION_PAGES - pageCount st)%nat
      /\ (forall items, r = Ok items ->
             items = allItems st ++ fetched_items evs).
Proof.
  induction fuel as [|fuel IH]; intros st t.
  { exists Diverge, []. rewrite app_nil_r.
    split; [reflexivity|]. split; [cbn [List.length]; lia|discriminate]. }
  rewrite paginate_bind.
  destruct (Nat.ltb MAX_PAGINATION_PAGES (S (pageCount st))) eqn:Hceil.
  - exists (Ok (allItems st)), []. rewrite !app_nil_r.
    split; [reflexivity|]. split; [cbn [List.length]; lia|].
    intros items [= <-]. reflexivity.
  - apply Nat.ltb_ge in Hceil.
    destruct (callGraphAPI_exchange env accessToken method (currentUrl st)
                None (currentParams st) t) as (r & evs & Hcall & Hnd & Hlen & Hok).
    rewrite Hcall.
    destruct r as [response|e|]; [|clear Hok|congruence].
    + destruct (Hok response eq_refl) as (e & -> & He).
      pose proof (fetched_items_one e response He) as Hitems.
      destruct (after_page_cases env accessToken method maxCount fuel st
                  response (t ++ [e]))
        as [[_ Hc]|[Hc|(nextLink & _ & _ & _ & Hc)]]; rewrite Hc; clear Hc.
      * exists (Throw TypeError), [e].
        split; [reflexivity|].
        split; [cbn [List.length]; lia|discriminate].
      * eexists _, [e]. split; [reflexivity|].
        split; [cbn [List.length]; lia|].
        intros items [= <-]. rewrite Hitems. apply push_page_app.
      * destruct (IH (mkLoop (push_page (allItems st) response) nextLink []
                             (S (pageCount st))) (t ++ [e]))
          as (r' & evs' & Hrun & Hlen' & Hok').
        exists r', (e :: evs'). rewrite Hrun, <- app_assoc.
        split; [reflexivity|].
        cbn [pageCount] in Hlen'. split; [cbn [List.length]; lia|].
        intros items Hr. rewrite (Hok' items Hr). cbn [allItems].
        change (e :: evs') with ([e] ++ evs').
        rewrite fetched_items_app, Hitems, push_page_app, app_assoc.
        reflexivity.
    + exists (Throw e), evs. split; [reflexivity|].
      split; [lia|discriminate].
Qed.

(** Fuel beyond the pages that the ceiling still allows is never used up. *)
Lemma paginate_terminates env accessToken method maxCount :
  forall fuel st t,
    (0 < fuel)%nat ->
    (MAX_PAGINATION_PAGES < fuel + pageCount st)%nat ->
    fst (paginate env accessToken method maxCount fuel st t) <> Diverge.
Proof.
  induction fuel as [|fuel IH]; intros st t Hpos Hfuel; [lia|].
  rewrite paginate_bind.
  destruct (Nat.ltb MAX_PAGINATION_PAGES (S (pageCount st))) eqn:Hceil;
    [discriminate|].
  apply Nat.ltb_ge in Hceil.
  destruct (callGraphAPI_exchange env accessToken method (currentUrl st)
              None (currentParams st) t) as (r & evs & Hcall & Hnd & _ & _).
  rewrite Hcall.
  destruct r as [response|e|]; [|discriminate|congruence].
  destruct (after_page_cases env accessToken method maxCount fuel st
              response (t ++ evs))
    as [[_ Hc]|[Hc|(nextLink & _ & _ & _ & Hc)]]; rewrite Hc;
    try discriminate.
  apply IH; cbn [pageCount]; lia.
Qed.

Lemma request_answers env P req t :
  answers env P ->
  exists j,
    (reply <- https_request env req ;; settle reply) t
    = (Ok j, t ++ [Exchange req (remote env t req)])
    /\ P j = true
    /\ event_response (Exchange req (remote env t req)) = Some j.
Proof.
  intros [Hremote _]. unfold bind, https_request.
  destruct (Hremote t req) as (status & j & -> & Hst & HP).
  assert (S2 : ((200 <=? status) && (status <? 300))%bool = true).
  { apply andb_true_iff. split; [apply Z.leb_le|apply Z.ltb_lt]; lia. }
  unfold settle. rewrite S2. exists j.
  split; [reflexivity|]. split; [assumption|].
  simpl. rewrite S2. reflexivity.
Qed.

Lemma simulate_answers env P method path data queryParams t :
  answers env P ->
  exists j e,
    simulate env method path data queryParams t = (Ok j, t ++ [e])
    /\ P j = true /\ event_response e = Some j.
Proof.
  intros [_ Hsim]. unfold simulate.
  destruct (Hsim t method path data queryParams) as (j & -> & HP).
  exists j. eexists. split; [reflexivity|]. split; [assumption|reflexivity].
Qed.

(** A server that answers every call makes [callGraphAPI] return. *)
Lemma callGraphAPI_answers env P accessToken method p data queryParams t :
  answers env P ->
  exists j e,
    callGraphAPI env accessToken method (JStr p) data queryParams t
      = (Ok j, t ++ [e])
    /\ P j = true /\ event_response e = Some j.
Proof.
  intros [Hremote Hsim]. unfold callGraphAPI.
  destruct (USE_TEST_MODE env && startsWith accessToken "test_access_token_")%bool.
  - unfold simulate.
    destruct (Hsim t method (JStr p) data queryParams) as (j & -> & HP).
    eexists j, _. split; [reflexivity|]. split; [assumption|reflexivity].
  - unfold bind, https_request.
    set (req := mkRequest _ _ _ _).
    destruct (Hremote t req) as (status & j & -> & Hst & HP).
    assert (S2 : ((200 <=? status) && (status <? 300))%bool = true).
    { apply andb_true_iff. split; [apply Z.leb_le|apply Z.ltb_lt]; lia. }
    unfold settle. rewrite S2.
    eexists j, _. split; [reflexivity|]. split; [assumption|].
    simpl. rewrite S2. reflexivity.
Qed.

Lemma cursor_is_url_string j nextLink :
  cursor_is_url j = true ->
  get "@odata.nextLink" j = Some nextLink ->
  truthy nextLink = true ->
  exists u, nextLink = JStr u.
Proof.
  unfold cursor_is_url. intros H L T. rewrite L in H.
  destruct nextLink; try (rewrite T in H; discriminate); eauto.
Qed.

(** Against a server that always answers with a page whose cursor, if it
    has one, is a URL, the loop returns. *)
Lemma paginate_returns env accessToken method maxCount :
  answers env ok_page ->
  forall fuel st t,
    (0 < fuel)%nat ->
    (MAX_PAGINATION_PAGES < fuel + pageCount st)%nat ->
    (exists u, currentUrl st = JStr u) ->
    exists items,
      fst (paginate env accessToken method maxCount fuel st t) = Ok items.
Proof.
  intros Hans.
  induction fuel as [|fuel IH]; intros st t Hpos Hfuel [u Hu]; [lia|].
  rewrite paginate_bind.
  destruct (Nat.ltb MAX_PAGINATION_PAGES (S (pageCount st))) eqn:Hceil;
    [eexists; reflexivity|].
  apply Nat.ltb_ge in Hceil. rewrite Hu.
  destruct (callGraphAPI_answers env ok_page accessToken method u None
              (currentParams st) t Hans) as (j & e & -> & Hj & _).
  apply andb_true_iff in Hj. destruct Hj as [Hnn Hcur].
  destruct (after_page_cases env accessToken method maxCount fuel st
              j (t ++ [e]))
    as [[-> _]|[Hc|(nextLink & HL & HT & _ & Hc)]];
    [discriminate| |]; rewrite Hc.
  - eexists; reflexivity.
  - apply IH; cbn [pageCount currentUrl]; try lia.
    eapply cursor_is_url_string; eauto.
Qed.

(** The whole call: its trace, its bound and its result. *)
Lemma paginated_run env fuel accessToken path queryParams maxCount t :
  exists r evs,
    callGraphAPIPaginated env fuel accessToken "GET" path queryParams
                          maxCount t = (r, t ++ evs)
    /\ (List.length evs <= MAX_PAGINATION_PAGES)%nat
    /\ (forall v, r = Ok v ->
          v = combined (trim maxCount (fetched_items evs)))
    /\ ((MAX_PAGINATION_PAGES < fuel)%nat -> r <> Diverge)
    /\ ((MAX_PAGINATION_PAGES < fuel)%nat -> answers env ok_page ->
          exists v, r = Ok v).
Proof.
  unfold callGraphAPIPaginated. cbn [String.eqb Ascii.eqb Bool.eqb negb].
  set (st := mkLoop [] (JStr path) queryParams 0).
  destruct (paginate_trace env accessToken "GET" maxCount fuel st t)
    as (r & evs & Hrun & Hlen & Hok).
  pose proof (paginate_terminates env accessToken "GET" maxCount fuel st t)
    as Hterm.
  pose proof (fun H => paginate_returns env accessToken "GET" maxCount H
                         fuel st t) as Hret.
  unfold bind. rewrite Hrun in *. cbn [fst pageCount st] in *.
  destruct r as [items|e|].
  - eexists _, evs. split; [reflexivity|]. split; [lia|].
    split; [|split; [discriminate|eauto]].
    intros v [= <-]. rewrite (Hok items eq_refl). reflexivity.
  - exists (Throw e), evs. split; [reflexivity|]. split; [lia|].
    split; [discriminate|]. split; [discriminate|].
    intros Hfuel Hans.
    assert (Hurl : exists u, JStr path = JStr u) by (exists path; reflexivity).
    destruct (Hret Hans ltac:(lia) ltac:(lia) Hurl) as [items Hitems].
    discriminate.
  - exists Diverge, evs. split; [reflexivity|]. split; [lia|].
    split; [discriminate|]. split.
    + intros Hfuel _. apply Hterm; [lia|lia|reflexivity].
    + intros Hfuel _. exfalso. apply Hterm; [lia|lia|reflexivity].
Qed.

Lemma has_cursor_inv j :
  has_cursor j = true ->
  exists fields link,
    j = JObj fields
    /\ assoc "@odata.nextLink" fields = Some (JStr link)
    /\ truthy_str link = true.
Proof.
  unfold has_cursor, get. intros H.
  destruct j as [| | | | |fields]; try discriminate.
  destruct (assoc "@odata.nextLink" fields) as [[| | |link| |]|] eqn:L;
    try discriminate.
  exists fields, link. split; [reflexivity|]. split; [exact L|].
  destruct link; [discriminate|reflexivity].
Qed.

(** Against a server whose every page carries a cursor the loop ends by
    the ceiling or by the cap, and by nothing else. *)
Lemma paginate_endless env accessToken method maxCount :
  answers env has_cursor ->
  forall fuel st t,
    (MAX_PAGINATION_PAGES < fuel + pageCount st)%nat ->
    (pageCount st <= MAX_PAGINATION_PAGES)%nat ->
    (exists u, currentUrl st = JStr u) ->
    exists evs,
      paginate env accessToken method maxCount fuel st t
      = (Ok (allItems st ++ fetched_items evs), t ++ evs)
      /\ (List.length evs + pageCount st <= MAX_PAGINATION_PAGES)%nat
      /\ ((List.length evs + pageCount st = MAX_PAGINATION_PAGES)%nat
          \/ reached maxCount (allItems st ++ fetched_items evs) = true).
Proof.
  intros Hans.
  induction fuel as [|fuel IH]; intros st t Hfuel Hpc [u Hu]; [lia|].
  rewrite paginate_bind.
  destruct (Nat.ltb MAX_PAGINATION_PAGES (S (pageCount st))) eqn:Hceil.
  - apply Nat.ltb_lt in Hceil. exists [].
    rewrite !app_nil_r. split; [reflexivity|].
    cbn [List.length]. split; [lia|left; lia].
  - apply Nat.ltb_ge in Hceil. rewrite Hu.
    destruct (callGraphAPI_answers env has_cursor accessToken method u None
                (currentParams st) t Hans) as (j & e & -> & Hj & He).
    destruct (has_cursor_inv j Hj) as (fields & link & -> & Hl & Hlink).
    unfold after_page. rewrite (push_page_app (allItems st)).
    rewrite <- (fetched_items_one e (JObj fields) He).
    destruct (reached maxCount (allItems st ++ fetched_items [e])) eqn:R.
    + exists [e]. split; [reflexivity|].
      cbn [List.length]. split; [lia|right; exact R].
    + cbn [get]. rewrite Hl. cbn [truthy]. rewrite Hlink.
      destruct (IH (mkLoop (allItems st ++ fetched_items [e]) (JStr link) []
                           (S (pageCount st))) (t ++ [e]))
        as (evs & Hrun & Hlen & Hwhy).
      * cbn [pageCount]. lia.
      * cbn [pageCount]. lia.
      * cbn [currentUrl]. eauto.
      * cbn [allItems pageCount] in Hrun, Hlen, Hwhy.
        exists (e :: evs). rewrite Hrun.
        change (e :: evs) with ([e] ++ evs).
        rewrite fetched_items_app, !app_assoc.
        split; [reflexivity|].
        rewrite length_app. cbn [List.length].
        rewrite <- !app_assoc in Hwhy |- *.
        split; [lia|].
        destruct Hwhy as [Hwhy|Hwhy]; [left; lia|right; exact Hwhy].
Qed.

(** The whole call against such a server. *)
Lemma paginated_endless env fuel accessToken path queryParams maxCount t :
  answers env has_cursor ->
  (MAX_PAGINATION_PAGES < fuel)%nat ->
  exists evs,
    callGraphAPIPaginated env fuel accessToken "GET" path queryParams
                          maxCount t
    = (Ok (combined (trim maxCount (fetched_items evs))), t ++ evs)
    /\ (List.length evs <= MAX_PAGINATION_PAGES)%nat
    /\ ((List.length evs = MAX_PAGINATION_PAGES)%nat
        \/ reached maxCount (fetched_items evs) = true).
Proof.
  intros Hans Hfuel.
  unfold callGraphAPIPaginated. cbn [String.eqb Ascii.eqb Bool.eqb negb].
  destruct (paginate_endless env accessToken "GET" maxCount Hans fuel
              (mkLoop [] (JStr path) queryParams 0) t)
    as (evs & Hrun & Hlen & Hwhy).
  - cbn [pageCount]. lia.
  - cbn [pageCount]. lia.
  - cbn [currentUrl]. eauto.
  - cbn [allItems pageCount app] in Hrun, Hlen, Hwhy.
    exists evs. unfold bind. rewrite Hrun.
    split; [reflexivity|]. split; [lia|].
    destruct Hwhy as [Hwhy|Hwhy]; [left; lia|right; exact Hwhy].
Qed.

(** The looping server of [looping_env]: exactly the ceiling's worth of
    pages is fetched, with and without a cap that asks for more. *)
Example looping_cursor_hundred_pages :
  let '(r, evs) :=
    callGraphAPIPaginated looping_env 1000 "token" "GET" "me/messages"
                          [("$top", "1")] 0 [] in
  List.length evs = 100%nat
  /\ r = Ok (combined (map (fun n => JNum (Z.of_nat n)) (seq 0 100))).
Proof. vm_compute. split; reflexivity. Qed.

Example looping_cursor_cap_beyond_ceiling :
  let '(r, evs) :=
    callGraphAPIPaginated looping_env 1000 "token" "GET" "me/messages"
                          [("$top", "1")] 5000 [] in
  List.length evs = 100%nat
  /\ r = Ok (combined (map (fun n => JNum (Z.of_nat n)) (seq 0 100))).
Proof. vm_compute. split; reflexivity. Qed.

Lemma looping_env_answers : answers looping_env ok_page.
Proof.
  split.
  - intros t req. exists 200, (looping_page (List.length t)).
    split; [reflexivity|]. split; [lia|reflexivity].
  - intros t method path data queryParams.
    exists (looping_page (List.length t)). split; reflexivity.
Qed.

Lemma looping_env_has_cursor : answers looping_env has_cursor.
Proof.
  split.
  - intros t req. exists 200, (looping_page (List.length t)).
    split; [reflexivity|]. split; [lia|reflexivity].
  - intros t method path data queryParams.
    exists (looping_page (List.length t)). split; reflexivity.
Qed.

Lemma is_page_inv n j :
  is_page n j = true ->
  exists fields items link,
    j = JObj fields
    /\ get "value" j = Some (JArr items)
    /\ List.length items = n
    /\ get "@odata.nextLink" j = Some (JStr link)
    /\ truthy_str link = true.
Proof.
  unfold is_page. intros H.
  destruct j as [| | | | |fields]; try discriminate.
  destruct (get "value" (JObj fields)) as [[| | | |items|]|]; try discriminate.
  destruct (get "@odata.nextLink" (JObj fields)) as [[| | |link| |]|];
    try discriminate.
  apply andb_true_iff in H. destruct H as [Hn Hl].
  apply Nat.eqb_eq in Hn. exists fields, items, link. auto.
Qed.

(** Pages of [n] items each: the loop fetches exactly the [k] pages that
    are needed to reach the cap. *)
Lemma paginate_full_pages env accessToken method n maxCount :
  answers env (is_page n) ->
  0 < maxCount ->
  forall k fuel st t,
    (k < fuel)%nat ->
    (pageCount st + S k <= MAX_PAGINATION_PAGES)%nat ->
    (exists u, currentUrl st = JStr u) ->
    Z.of_nat (List.length (allItems st)) + Z.of_nat (k * n) < maxCount ->
    maxCount <= Z.of_nat (List.length (allItems st)) + Z.of_nat (S k * n) ->
    exists evs,
      List.length evs = S k
      /\ List.length (fetched_items evs) = (S k * n)%nat
      /\ paginate env accessToken method maxCount fuel st t
         = (Ok (allItems st ++ fetched_items evs), t ++ evs).
Proof.
  intros Hans Hmax.
  induction k as [|k IH]; intros fuel st t Hfuel Hceil [u Hu] Hlow Hhigh;
    (destruct fuel as [|fuel]; [lia|]);
    rewrite paginate_bind;
    (destruct (Nat.ltb MAX_PAGINATION_PAGES (S (pageCount st))) eqn:Hc;
     [apply Nat.ltb_lt in Hc; lia|]); clear Hc; rewrite Hu;
    destruct (callGraphAPI_answers env (is_page n) accessToken method u None
                (currentParams st) t Hans) as (j & e & -> & Hj & He);
    destruct (is_page_inv n j Hj)
      as (fields & items & link & -> & Hv & Hn & Hl & Hlink);
    pose proof (fetched_items_one e _ He) as Hitems;
    assert (Hpush : forall acc, push_page acc (JObj fields) = acc ++ items)
      by (intros acc; unfold push_page; rewrite Hv; reflexivity);
    rewrite Hpush in Hitems; cbn [app] in Hitems;
    unfold after_page; rewrite Hpush, Hl; cbn [truthy]; rewrite Hlink;
    unfold reached; rewrite length_app, Hn.
  - replace ((0 <? maxCount) &&
             (maxCount <=? Z.of_nat (List.length (allItems st) + n)))%bool
      with true
      by (symmetry; apply andb_true_iff;
          split; [apply Z.ltb_lt|apply Z.leb_le]; lia).
    exists [e]. rewrite Hitems.
    split; [reflexivity|]. split; [lia|reflexivity].
  - replace ((0 <? maxCount) &&
             (maxCount <=? Z.of_nat (List.length (allItems st) + n)))%bool
      with false
      by (symmetry; apply andb_false_iff; right; apply Z.leb_gt; nia).
    destruct (IH fuel (mkLoop (allItems st ++ items) (JStr link) []
                              (S (pageCount st))) (t ++ [e]))
      as (evs & Hlen & Hfetched & Hrun);
      cbn [pageCount allItems currentUrl]; try lia; eauto;
      try (rewrite length_app, Hn; nia).
    exists (e :: evs). rewrite Hrun. cbn [allItems].
    split; [cbn [List.length]; lia|].
    change (e :: evs) with ([e] ++ evs).
    rewrite fetched_items_app, Hitems, <- !app_assoc.
    split; [|reflexivity].
    rewrite length_app, Hfetched, Hn. lia.
Qed.

End PaginationFacts.

(* ---------------------------------------------------------------------- *)
(** ** The single call and the caller's queryParams object                  *)
(* ---------------------------------------------------------------------- *)

Module QueryParamsFacts.
Import Js Http GraphApiLegacy.

Lemma nth_error_update_same {A : Type} (l : list A) (i : nat) (x y : A) :
  nth_error l i = Some x -> nth_error (update i y l) i = Some y.
Proof.
  revert i. induction l as [|z l IH]; intros [|i] H; simpl in *;
    try discriminate; auto.
Qed.

Lemma nth_error_update_other {A : Type} (l : list A) (i j : nat) (y : A) :
  i <> j -> nth_error (update i y l) j = nth_error l j.
Proof.
  revert i j. induction l as [|z l IH]; intros [|i] [|j] H; simpl;
    try reflexivity; try congruence.
  apply IH. congruence.
Qed.

Lemma assoc_remove_key_same {A : Type} (k : string) (o : list (string * A)) :
  assoc k (remove_key k o) = None.
Proof.
  induction o as [|[k' v] o IH]; simpl; [reflexivity|].
  destruct (String.eqb k k') eqn:E; [assumption|].
  simpl. rewrite E. assumption.
Qed.

Lemma assoc_remove_key_other {A : Type} (k k0 : string)
  (o : list (string * A)) :
  k0 <> k -> assoc k0 (remove_key k o) = assoc k0 o.
Proof.
  intros Hne. induction o as [|[k' v] o IH]; simpl; [reflexivity|].
  destruct (String.eqb k k') eqn:E.
  - apply String.eqb_eq in E. subst k'.
    destruct (String.eqb k0 k) eqn:E0; [|assumption].
    apply String.eqb_eq in E0. contradiction.
  - simpl. rewrite IH. reflexivity.
Qed.

(** The bindings that stay keep their order. *)
Lemma remove_key_filter {A : Type} (k : string) (o : list (string * A)) :
  remove_key k o = List.filter (fun kv => negb (String.eqb k (fst kv))) o.
Proof.
  induction o as [|[k' v] o IH]; simpl; [reflexivity|].
  destruct (String.eqb k k'); simpl; congruence.
Qed.

Lemma lift_heap {A : Type} (m : M A) (w : world) :
  heap (snd (lift m w)) = heap w.
Proof. unfold lift. destruct (m (exchanges w)). reflexivity. Qed.

(** The store after the query string has been built. *)
Lemma build_query_string_heap queryParams w o :
  nth_error (heap w) queryParams = Some o ->
  exists queryString,
    build_query_string queryParams w
    = (Ok queryString,
       mkWorld (exchanges w)
               (if truthy_ostr (assoc "$filter" o)
                then update queryParams (remove_key "$filter" o) (heap w)
                else heap w)).
Proof.
  intros Hread. unfold build_query_string, lbind, read. rewrite Hread.
  destruct o as [|kv o']; [eexists; destruct w; reflexivity|].
  set (o := kv :: o') in *.
  destruct (truthy_ostr (assoc "$filter" o)) eqn:T.
  - unfold write. cbn [heap exchanges].
    rewrite (nth_error_update_same _ _ _ _ Hread).
    eexists. reflexivity.
  - unfold lret. rewrite Hread. eexists. destruct w; reflexivity.
Qed.

(** The store after a call that goes to the network with a relative path. *)
Lemma callGraphAPI_heap env accessToken method p data queryParams w o :
  (USE_TEST_MODE env && startsWith accessToken "test_access_token_")%bool
    = false ->
  (startsWith p "http://" || startsWith p "https://")%bool = false ->
  nth_error (heap w) queryParams = Some o ->
  heap (snd (callGraphAPI env accessToken method (JStr p) data queryParams w))
  = if truthy_ostr (assoc "$filter" o)
    then update queryParams (remove_key "$filter" o) (heap w)
    else heap w.
Proof.
  intros Hmode Hrel Hread. unfold callGraphAPI, final_url.
  rewrite Hmode, Hrel. unfold lbind at 1. unfold lbind at 1.
  destruct (build_query_string_heap queryParams w o Hread) as [qs ->].
  unfold lret at 1.
  match goal with |- heap (snd (lift ?m ?w')) = _ =>
    rewrite (lift_heap m w') end.
  reflexivity.
Qed.

(** C10, as the code has it. Outside test mode and with a relative path, a
    call whose queryParams object has a [$filter] with a truthy (non-empty)
    value leaves the caller's object without that key, whatever the outcome
    of the request; every other key keeps its value and every other object
    is untouched. *)
Theorem callGraphAPI_deletes_truthy_filter
  env accessToken method p data queryParams w o f :
  (USE_TEST_MODE env && startsWith accessToken "test_access_token_")%bool
    = false ->
  (startsWith p "http://" || startsWith p "https://")%bool = false ->
  nth_error (heap w) queryParams = Some o ->
  assoc "$filter" o = Some f ->
  truthy_str f = true ->
  let w' := snd (callGraphAPI env accessToken method (JStr p) data
                              queryParams w) in
  nth_error (heap w') queryParams = Some (remove_key "$filter" o)
  /\ assoc "$filter" (remove_key "$filter" o) = None
  /\ (forall k, k <> "$filter" ->
        assoc k (remove_key "$filter" o) = assoc k o)
  /\ (forall r, r <> queryParams ->
        nth_error (heap w') r = nth_error (heap w) r).
Proof.
  intros Hmode Hrel Hread Hf Hft w'. subst w'.
  rewrite (callGraphAPI_heap env accessToken method p data queryParams w o
             Hmode Hrel Hread).
  rewrite Hf. cbn [truthy_ostr]. rewrite Hft.
  split; [eapply nth_error_update_same; eassumption|].
  split; [apply assoc_remove_key_same|].
  split.
  - intros k Hk. apply assoc_remove_key_other. assumption.
  - intros r Hr. apply nth_error_update_other. congruence.
Qed.

Lemma callGraphAPI_deletes_truthy_filter_witness :
  let w := mkWorld [] [[("$top", "10"); ("$filter", "isRead eq false")]] in
  let w' := snd (callGraphAPI quiet_env "token" "GET" (JStr "me/messages")
                              None 0%nat w) in
  nth_error (heap w') 0 = Some [("$top", "10")].
Proof.
  intros w w'.
  exact (proj1 (callGraphAPI_deletes_truthy_filter quiet_env "token" "GET"
                  "me/messages" None 0%nat w
                  [("$top", "10"); ("$filter", "isRead eq false")]
                  "isRead eq false"
                  eq_refl eq_refl eq_refl eq_refl eq_refl)).
Defined.

(** C10 as stated fails: an object that contains the key [$filter] with an
    empty value still contains it after the call, and the key is sent
    through the generic serializer. *)
Lemma empty_filter_key_is_kept :
  let o := [("$top", "10"); ("$filter", EmptyString)] in
  let w := mkWorld [] [o] in
  let w' := snd (callGraphAPI quiet_env "token" "GET" (JStr "me/messages")
                              None 0%nat w) in
  In "$filter" (keys o)
  /\ nth_error (heap w') 0 = Some o
  /\ assoc "$filter" o = Some EmptyString
  /\ map req_url (flat_map (fun e => match e with
                                     | Exchange req _ => [req]
                                     | _ => []
                                     end) (exchanges w'))
     = ["https://graph.microsoft.com/v1.0/me/messages?%24top=10&%24filter="].
Proof.
  cbv zeta. split; [simpl; auto|]. vm_compute. auto.
Qed.

End QueryParamsFacts.

(* ---------------------------------------------------------------------- *)
(** ** Pagination in the revision without the ceiling                       *)
(* ---------------------------------------------------------------------- *)

Module LegacyPaginationFacts.
Import Js Http Pages GraphApiLegacy.
Import GraphApi(push_page, reached, trim, combined).

Lemma length_update {A : Type} (i : nat) (x : A) (l : list A) :
  List.length (update i x l) = List.length l.
Proof.
  revert i. induction l as [|y l IH]; intros [|i]; simpl; auto.
Qed.

(** Building the query string makes no exchange and keeps every object of
    the store in its place; it succeeds when the reference names one. *)
Lemma build_query_string_frame queryParams w :
  exists r w',
    build_query_string queryParams w = (r, w')
    /\ exchanges w' = exchanges w
    /\ List.length (heap w') = List.length (heap w)
    /\ r <> Diverge
    /\ ((queryParams < List.length (heap w))%nat -> exists qs, r = Ok qs).
Proof.
  unfold build_query_string, lbind, read.
  destruct (nth_error (heap w) queryParams) as [o|] eqn:Hread.
  - destruct o as [|kv o'].
    + eexists _, w. repeat split; try discriminate; eauto.
    + set (o := kv :: o') in *.
      destruct (truthy_ostr (assoc "$filter" o)).
      * unfold write. cbn [heap exchanges].
        rewrite (QueryParamsFacts.nth_error_update_same _ _ _ _ Hread).
        eexists _, _. split; [reflexivity|]. cbn [heap exchanges].
        rewrite length_update. repeat split; try discriminate; eauto.
      * unfold lret. rewrite Hread.
        eexists _, w. repeat split; try discriminate; eauto.
  - eexists _, w. repeat split; try discriminate.
    intros Hlt. apply nth_error_None in Hread. lia.
Qed.

Lemma lift_run {A : Type} (m : M A) (w : world) :
  lift m w = (fst (m (exchanges w)),
              mkWorld (snd (m (exchanges w))) (heap w)).
Proof. unfold lift. destruct (m (exchanges w)). reflexivity. Qed.

(** A call makes at most one exchange and keeps the size of the store. *)
Lemma legacy_call_exchange env accessToken method path data queryParams w :
  exists r evs w',
    callGraphAPI env accessToken method path data queryParams w = (r, w')
    /\ exchanges w' = exchanges w ++ evs
    /\ List.length (heap w') = List.length (heap w)
    /\ r <> Diverge
    /\ (forall j, r = Ok j -> exists e, evs = [e] /\ event_response e = Some j).
Proof.
  unfold callGraphAPI.
  destruct (USE_TEST_MODE env && startsWith accessToken "test_access_token_")%bool.
  - unfold lbind, read.
    destruct (nth_error (heap w) queryParams) as [o|].
    + rewrite lift_run.
      destruct (PaginationFacts.simulate_settles env method path data o
                  (exchanges w)) as (r & e & -> & Hnd & Hok).
      exists r, [e]. eexists. split; [reflexivity|]. cbn.
      repeat split; auto. intros j Hj. exists e. auto.
    + exists (Throw TypeError), [], w. rewrite app_nil_r.
      repeat split; discriminate.
  - destruct path as [| | |p| |];
      try (exists (Throw TypeError), [], w; rewrite app_nil_r;
           repeat split; discriminate).
    unfold final_url.
    destruct (startsWith p "http://" || startsWith p "https://")%bool.
    + unfold lbind at 1. unfold lret at 1. rewrite lift_run.
      set (req := mkRequest _ _ _ _).
      destruct (PaginationFacts.request_settles env req (exchanges w))
        as (r & -> & Hnd & Hok).
      exists r, [Exchange req (remote env (exchanges w) req)].
      eexists. split; [reflexivity|]. cbn.
      repeat split; auto. intros j Hj. eexists. auto.
    + unfold lbind at 1. unfold lbind at 1.
      destruct (build_query_string_frame queryParams w)
        as (r0 & w0 & -> & Hex & Hlen & Hnd0 & _).
      destruct r0 as [qs|e|]; [| |congruence].
      * unfold lret at 1. rewrite lift_run, Hex.
        set (req := mkRequest _ _ _ _).
        destruct (PaginationFacts.request_settles env req (exchanges w))
          as (r & -> & Hnd & Hok).
        exists r, [Exchange req (remote env (exchanges w) req)].
        eexists. split; [reflexivity|]. cbn.
        repeat split; auto. intros j Hj. eexists. auto.
      * exists (Throw e), [], w0. rewrite app_nil_r.
        repeat split; auto; discriminate.
Qed.

(** A server that answers every call makes the call return, when the
    reference names an object. *)
Lemma legacy_call_answers env P accessToken method p data queryParams w :
  answers env P ->
  (queryParams < List.length (heap w))%nat ->
  exists j e w',
    callGraphAPI env accessToken method (JStr p) data queryParams w
    = (Ok j, w')
    /\ exchanges w' = exchanges w ++ [e]
    /\ List.length (heap w') = List.length (heap w)
    /\ P j = true
    /\ event_response e = Some j.
Proof.
  intros Hans Hvalid. unfold callGraphAPI.
  destruct (USE_TEST_MODE env && startsWith accessToken "test_access_token_")%bool.
  - unfold lbind, read.
    destruct (nth_error (heap w) queryParams) as [o|] eqn:Hread.
    + rewrite lift_run.
      destruct (PaginationFacts.simulate_answers env P method (JStr p) data
                  o (exchanges w) Hans) as (j & e & -> & HP & He).
      exists j, e. eexists. split; [reflexivity|]. cbn. auto.
    + apply nth_error_None in Hread. lia.
  - unfold final_url.
    destruct (startsWith p "http://" || startsWith p "https://")%bool.
    + unfold lbind at 1. unfold lret at 1. rewrite lift_run.
      set (req := mkRequest _ _ _ _).
      destruct (PaginationFacts.request_answers env P req (exchanges w) Hans)
        as (j & -> & HP & He).
      exists j. eexists. eexists. split; [reflexivity|]. cbn. auto.
    + unfold lbind at 1. unfold lbind at 1.
      destruct (build_query_string_frame queryParams w)
        as (r0 & w0 & -> & Hex & Hlen & _ & Hok).
      destruct (Hok Hvalid) as [qs ->].
      unfold lret at 1. rewrite lift_run, Hex.
      set (req := mkRequest _ _ _ _).
      destruct (PaginationFacts.request_answers env P req (exchanges w) Hans)
        as (j & -> & HP & He).
      exists j. eexists. eexists. split; [reflexivity|]. cbn.
      auto.
Qed.

Lemma legacy_paginate_bind env accessToken method maxCount fuel st w :
  paginate env accessToken method maxCount (S fuel) st w =
  match callGraphAPI env accessToken method (currentUrl st) None
                     (currentParams st) w with
  | (Ok response, w') =>
      legacy_after_page env accessToken method maxCount fuel st response w'
  | (Throw e, w') => (Throw e, w')
  | (Diverge, w') => (Diverge, w')
  end.
Proof. reflexivity. Qed.

Lemma legacy_after_page_cases env accessToken method maxCount fuel st
  response w :
  let items := push_page (allItems st) response in
  (response = JNull
   /\ legacy_after_page env accessToken method maxCount fuel st response w
      = (Throw TypeError, w))
  \/ legacy_after_page env accessToken method maxCount fuel st response w
    = (Ok items, w)
  \/ (exists nextLink,
        get "@odata.nextLink" response = Some nextLink
        /\ truthy nextLink = true
        /\ reached maxCount items = false
        /\ legacy_after_page env accessToken method maxCount fuel st
             response w
           = paginate env accessToken method maxCount fuel
               (mkLoop items nextLink (List.length (heap w)))
               (mkWorld (exchanges w) (heap w ++ [[]]))).
Proof.
  intros items. unfold legacy_after_page. fold items.
  destruct response; auto;
    (destruct (reached maxCount items) eqn:R; [right; left; reflexivity|]);
    (destruct (get "@odata.nextLink" _) as [nextLink|] eqn:L;
       [|right; left; reflexivity]);
    (destruct (truthy nextLink) eqn:T; [|right; left; reflexivity]);
    right; right; exists nextLink; auto.
Qed.

(** What the loop returns is the accumulator extended by the pages it
    fetched. *)
Lemma legacy_paginate_trace env accessToken method maxCount :
  forall fuel st w,
    exists r evs w',
      paginate env accessToken method maxCount fuel st w = (r, w')
      /\ exchanges w' = exchanges w ++ evs
      /\ (forall items, r = Ok items ->
             items = allItems st ++ fetched_items evs).
Proof.
  induction fuel as [|fuel IH]; intros st w.
  { exists Diverge, [], w. rewrite app_nil_r.
    split; [reflexivity|]. split; [reflexivity|discriminate]. }
  rewrite legacy_paginate_bind.
  destruct (legacy_call_exchange env accessToken method (currentUrl st)
              None (currentParams st) w)
    as (r & evs & w1 & -> & Hex & _ & Hnd & Hok).
  destruct r as [response|e|]; [| |congruence].
  - destruct (Hok response eq_refl) as (e & -> & He).
    pose proof (PaginationFacts.fetched_items_one e response He) as Hitems.
    destruct (legacy_after_page_cases env accessToken method maxCount fuel st
                response w1)
      as [[_ Hc]|[Hc|(nextLink & _ & _ & _ & Hc)]]; rewrite Hc; clear Hc.
    + exists (Throw TypeError), [e], w1.
      split; [reflexivity|]. split; [assumption|discriminate].
    + eexists _, [e], w1. split; [reflexivity|]. split; [assumption|].
      intros items [= <-]. rewrite Hitems.
      apply PaginationFacts.push_page_app.
    + destruct (IH (mkLoop (push_page (allItems st) response) nextLink
                           (List.length (heap w1)))
                   (mkWorld (exchanges w1) (heap w1 ++ [[]])))
        as (r' & evs' & w2 & Hrun & Hex' & Hok').
      exists r', (e :: evs'), w2. rewrite Hrun.
      split; [reflexivity|]. cbn [exchanges] in Hex'.
      split; [rewrite Hex', Hex, <- app_assoc; reflexivity|].
      intros items Hr. rewrite (Hok' items Hr). cbn [allItems].
      change (e :: evs') with ([e] ++ evs').
      rewrite PaginationFacts.fetched_items_app, Hitems,
        PaginationFacts.push_page_app, app_assoc.
      reflexivity.
  - exists (Throw e), evs, w1. split; [reflexivity|].
    split; [assumption|discriminate].
Qed.

(** Pages of [n] items each: the loop fetches exactly the pages that are
    needed to reach the cap. *)
Lemma legacy_paginate_full_pages env accessToken method n maxCount :
  answers env (is_page n) ->
  0 < maxCount ->
  forall k fuel st w,
    (k < fuel)%nat ->
    (currentParams st < List.length (heap w))%nat ->
    (exists u, currentUrl st = JStr u) ->
    Z.of_nat (List.length (allItems st)) + Z.of_nat (k * n) < maxCount ->
    maxCount <= Z.of_nat (List.length (allItems st)) + Z.of_nat (S k * n) ->
    exists evs w',
      List.length evs = S k
      /\ List.length (fetched_items evs) = (S k * n)%nat
      /\ paginate env accessToken method maxCount fuel st w
         = (Ok (allItems st ++ fetched_items evs), w')
      /\ exchanges w' = exchanges w ++ evs.
Proof.
  intros Hans Hmax.
  induction k as [|k IH]; intros fuel st w Hfuel Hvalid [u Hu] Hlow Hhigh;
    (destruct fuel as [|fuel]; [lia|]);
    rewrite legacy_paginate_bind, Hu;
    destruct (legacy_call_answers env (is_page n) accessToken method u None
                (currentParams st) w Hans Hvalid)
      as (j & e & w1 & -> & Hex & Hlen & Hj & He);
    destruct (PaginationFacts.is_page_inv n j Hj)
      as (fields & items & link & -> & Hv & Hn & Hl & Hlink);
    pose proof (PaginationFacts.fetched_items_one e _ He) as Hitems;
    assert (Hpush : forall acc, push_page acc (JObj fields) = acc ++ items)
      by (intros acc; unfold push_page; rewrite Hv; reflexivity);
    rewrite Hpush in Hitems; cbn [app] in Hitems;
    unfold legacy_after_page; rewrite Hpush, Hl; cbn [truthy]; rewrite Hlink;
    unfold reached; rewrite length_app, Hn.
  - replace ((0 <? maxCount) &&
             (maxCount <=? Z.of_nat (List.length (allItems st) + n)))%bool
      with true
      by (symmetry; apply andb_true_iff;
          split; [apply Z.ltb_lt|apply Z.leb_le]; lia).
    exists [e], w1. rewrite Hitems.
    split; [reflexivity|]. split; [lia|]. split; [reflexivity|assumption].
  - replace ((0 <? maxCount) &&
             (maxCount <=? Z.of_nat (List.length (allItems st) + n)))%bool
      with false
      by (symmetry; apply andb_false_iff; right; apply Z.leb_gt; nia).
    unfold lbind at 1. unfold alloc_empty.
    destruct (IH fuel (mkLoop (allItems st ++ items) (JStr link)
                              (List.length (heap w1)))
                 (mkWorld (exchanges w1) (heap w1 ++ [[]])))
      as (evs & w2 & Hlen2 & Hfetched & Hrun & Hex2);
      cbn [allItems currentUrl currentParams heap]; try lia; eauto;
      try (rewrite length_app; cbn [List.length]; lia);
      try (rewrite length_app, Hn; nia).
    exists (e :: evs), w2. rewrite Hrun. cbn [allItems].
    split; [cbn [List.length]; lia|].
    change (e :: evs) with ([e] ++ evs).
    rewrite PaginationFacts.fetched_items_app, Hitems, <- !app_assoc.
    split; [rewrite length_app, Hfetched, Hn; lia|].
    split; [reflexivity|].
    cbn [exchanges] in Hex2. rewrite Hex2, Hex, <- app_assoc. reflexivity.
Qed.

Lemma looping_env_pages : answers looping_env (is_page 1).
Proof.
  split.
  - intros t req. exists 200, (looping_page (List.length t)).
    split; [reflexivity|]. split; [lia|reflexivity].
  - intros t method path data queryParams.
    exists (looping_page (List.length t)). split; reflexivity.
Qed.

(** Against the server whose cursor loops, this revision never leaves the
    loop when there is no cap: whatever the fuel, it is used up, one
    request per unit. *)
Lemma legacy_loop_never_ends accessToken method :
  forall fuel st w,
    (currentParams st < List.length (heap w))%nat ->
    (exists u, currentUrl st = JStr u) ->
    exists w',
      paginate looping_env accessToken method 0 fuel st w = (Diverge, w')
      /\ List.length (exchanges w') = (List.length (exchanges w) + fuel)%nat.
Proof.
  induction fuel as [|fuel IH]; intros st w Hvalid [u Hu].
  { exists w. split; [reflexivity|lia]. }
  rewrite legacy_paginate_bind, Hu.
  destruct (legacy_call_answers looping_env (is_page 1) accessToken method u
              None (currentParams st) w looping_env_pages Hvalid)
    as (j & e & w1 & -> & Hex & Hlen & Hj & He).
  destruct (PaginationFacts.is_page_inv 1 j Hj)
    as (fields & items & link & -> & Hv & Hn & Hl & Hlink).
  unfold legacy_after_page. rewrite Hl. cbn [truthy]. rewrite Hlink.
  unfold reached. cbn [Z.ltb Z.compare andb].
  unfold lbind at 1. unfold alloc_empty.
  destruct (IH (mkLoop (push_page (allItems st) (JObj fields)) (JStr link)
                       (List.length (heap w1)))
               (mkWorld (exchanges w1) (heap w1 ++ [[]])))
    as (w2 & Hrun & Hcount).
  - cbn [currentParams heap]. rewrite length_app. cbn [List.length]. lia.
  - cbn [currentUrl]. eauto.
  - exists w2. split; [exact Hrun|].
    cbn [exchanges] in Hcount. rewrite Hcount, Hex, length_app.
    cbn [List.length]. lia.
Qed.

(** The same against every server whose pages all carry a cursor. *)
Lemma legacy_loop_endless env accessToken method :
  answers env has_cursor ->
  forall fuel st w,
    (currentParams st < List.length (heap w))%nat ->
    (exists u, currentUrl st = JStr u) ->
    exists w',
      paginate env accessToken method 0 fuel st w = (Diverge, w')
      /\ List.length (exchanges w') = (List.length (exchanges w) + fuel)%nat.
Proof.
  intros Hans.
  induction fuel as [|fuel IH]; intros st w Hvalid [u Hu].
  { exists w. split; [reflexivity|lia]. }
  rewrite legacy_paginate_bind, Hu.
  destruct (legacy_call_answers env has_cursor accessToken method u
              None (currentParams st) w Hans Hvalid)
    as (j & e & w1 & -> & Hex & Hlen & Hj & He).
  destruct (PaginationFacts.has_cursor_inv j Hj)
    as (fields & link & -> & Hl & Hlink).
  unfold legacy_after_page. cbn [get]. rewrite Hl. cbn [truthy].
  rewrite Hlink.
  unfold reached. cbn [Z.ltb Z.compare andb].
  unfold lbind at 1. unfold alloc_empty.
  destruct (IH (mkLoop (push_page (allItems st) (JObj fields)) (JStr link)
                       (List.length (heap w1)))
               (mkWorld (exchanges w1) (heap w1 ++ [[]])))
    as (w2 & Hrun & Hcount).
  - cbn [currentParams heap]. rewrite length_app. cbn [List.length]. lia.
  - cbn [currentUrl]. eauto.
  - exists w2. split; [exact Hrun|].
    cbn [exchanges] in Hcount. rewrite Hcount, Hex, length_app.
    cbn [List.length]. lia.
Qed.

Lemma legacy_paginated_endless env fuel accessToken path queryParams w :
  answers env has_cursor ->
  (queryParams < List.length (heap w))%nat ->
  exists w',
    callGraphAPIPaginated env fuel accessToken "GET" path queryParams 0 w
    = (Diverge, w')
    /\ List.length (exchanges w') = (List.length (exchanges w) + fuel)%nat.
Proof.
  intros Hans Hvalid.
  unfold callGraphAPIPaginated. cbn [String.eqb Ascii.eqb Bool.eqb negb].
  destruct (legacy_loop_endless env accessToken "GET" Hans fuel
              (mkLoop [] (JStr path) queryParams) w)
    as (w' & Hrun & Hcount).
  - exact Hvalid.
  - cbn. eauto.
  - exists w'. unfold lbind. rewrite Hrun. auto.
Qed.

(** The whole call of this revision against the looping server. *)
Lemma legacy_paginated_hangs (fuel : nat) :
  exists w',
    callGraphAPIPaginated looping_env fuel "token" "GET" "me/messages"
                          0%nat 0 (mkWorld [] [[("$top", "1")]])
    = (Diverge, w')
    /\ List.length (exchanges w') = fuel.
Proof.
  unfold callGraphAPIPaginated. cbn [String.eqb Ascii.eqb Bool.eqb negb].
  destruct (legacy_loop_never_ends "token" "GET" fuel
              (mkLoop [] (JStr "me/messages") 0%nat)
              (mkWorld [] [[("$top", "1")]]))
    as (w' & Hrun & Hcount).
  - cbn. lia.
  - cbn. eauto.
  - exists w'. unfold lbind. rewrite Hrun. split; [reflexivity|].
    rewrite Hcount. reflexivity.
Qed.

End LegacyPaginationFacts.

(* ---------------------------------------------------------------------- *)
(** ** The cap on the number of items, in both revisions                    *)
(* ---------------------------------------------------------------------- *)

Module PaginationClaims.
Import Js Http Pages.

Lemma ten_env_answers : answers ten_env (is_page 10).
Proof.
  split.
  - intros t req. exists 200, (ten_page (List.length t)).
    split; [reflexivity|]. split; [lia|reflexivity].
  - intros t method path data queryParams.
    exists (ten_page (List.length t)). split; reflexivity.
Qed.

(** C1. The page ceiling is applied in one of the two copies only. In
    the revision that reads config.MAX_PAGINATION_PAGES the call ends
    whatever the remote side answers, after at most that many fetches, for
    every maxCount, and returns the items of the pages it fetched, cut to
    maxCount. Against a server whose every page carries a cursor, an
    https URL (one that loops back to an earlier page included), it ends
    by the ceiling or by the cap and by nothing else: with maxCount = 0 it
    fetches exactly MAX_PAGINATION_PAGES pages and returns all their
    items. The copy at utils/graph-api.js has no ceiling: against the same
    server and with maxCount = 0 it never leaves its loop, each turn
    making one more request. *)
Theorem page_ceiling_in_one_revision_only env accessToken path :
  (forall fuel queryParams maxCount t,
      (MAX_PAGINATION_PAGES < fuel)%nat ->
      exists r evs,
        GraphApi.callGraphAPIPaginated env fuel accessToken "GET" path
                                       queryParams maxCount t
        = (r, t ++ evs)
        /\ r <> Diverge
        /\ (List.length evs <= MAX_PAGINATION_PAGES)%nat
        /\ (forall v, r = Ok v ->
              v = GraphApi.combined
                    (GraphApi.trim maxCount (fetched_items evs))))
  /\ (answers env has_cursor ->
      (forall fuel queryParams maxCount t,
          (MAX_PAGINATION_PAGES < fuel)%nat ->
          exists evs,
            GraphApi.callGraphAPIPaginated env fuel accessToken "GET" path
                                           queryParams maxCount t
            = (Ok (GraphApi.combined
                     (GraphApi.trim maxCount (fetched_items evs))),
               t ++ evs)
            /\ (List.length evs <= MAX_PAGINATION_PAGES)%nat
            /\ ((List.length evs = MAX_PAGINATION_PAGES)%nat
                \/ GraphApi.reached maxCount (fetched_items evs) = true)
            /\ (maxCount = 0 ->
                List.length evs = MAX_PAGINATION_PAGES
                /\ GraphApi.trim maxCount (fetched_items evs)
                   = fetched_items evs))
      /\ (forall fuel queryParams w,
            (queryParams < List.length (GraphApiLegacy.heap w))%nat ->
            exists w',
              GraphApiLegacy.callGraphAPIPaginated env fuel accessToken "GET"
                                                   path queryParams 0 w
              = (Diverge, w')
              /\ List.length (GraphApiLegacy.exchanges w')
                 = (List.length (GraphApiLegacy.exchanges w) + fuel)%nat)).
Proof.
  split.
  - intros fuel queryParams maxCount t Hfuel.
    destruct (PaginationFacts.paginated_run env fuel accessToken path
                queryParams maxCount t)
      as (r & evs & Hrun & Hlen & Hok & Hnd & _).
    exists r, evs. auto.
  - intros Hans. split.
    + intros fuel queryParams maxCount t Hfuel.
      destruct (PaginationFacts.paginated_endless env fuel accessToken path
                  queryParams maxCount t Hans Hfuel)
        as (evs & Hrun & Hlen & Hwhy).
      exists evs. split; [exact Hrun|]. split; [exact Hlen|].
      split; [exact Hwhy|].
      intros ->. split; [|reflexivity].
      destruct Hwhy as [Hwhy|Hwhy]; [exact Hwhy|discriminate].
    + intros fuel queryParams w Hvalid.
      exact (LegacyPaginationFacts.legacy_paginated_endless env fuel
               accessToken path queryParams w Hans Hvalid).
Qed.

Lemma page_ceiling_in_one_revision_only_witness :
  (exists evs,
      GraphApi.callGraphAPIPaginated looping_env 101 "token" "GET"
                                     "me/messages" [("$top", "1")] 0 []
      = (Ok (GraphApi.combined (fetched_items evs)), [] ++ evs)
      /\ List.length evs = MAX_PAGINATION_PAGES)
  /\ (exists w',
        GraphApiLegacy.callGraphAPIPaginated looping_env 500 "token" "GET"
          "me/messages" 0%nat 0
          (GraphApiLegacy.mkWorld [] [[("$top", "1")]])
        = (Diverge, w')
        /\ List.length (GraphApiLegacy.exchanges w') = 500%nat).
Proof.
  destruct (proj2 (page_ceiling_in_one_revision_only looping_env "token"
                     "me/messages")
              PaginationFacts.looping_env_has_cursor) as [Hnew Hold].
  split.
  - destruct (Hnew 101%nat [("$top", "1")] 0 [])
      as (evs & Hrun & _ & _ & Hzero).
    + unfold MAX_PAGINATION_PAGES. lia.
    + destruct (Hzero eq_refl) as [Hlen Htrim].
      exists evs. rewrite Htrim in Hrun. split; [exact Hrun|exact Hlen].
  - destruct (Hold 500%nat 0%nat
                (GraphApiLegacy.mkWorld [] [[("$top", "1")]]))
      as (w' & Hrun & Hcount).
    + cbn. lia.
    + exists w'. split; [exact Hrun|exact Hcount].
Defined.



Example ten_env_first_25 :
  fst (GraphApi.callGraphAPIPaginated ten_env 50 "token" "GET" "me/messages"
                                      [("$top", "10")] 25 [])
  = Ok (JObj [("value", JArr (map (fun i => JNum (Z.of_nat i)) (seq 0 25)));
              ("@odata.count", JNum 25)]).
Proof. vm_compute. reflexivity. Qed.

End PaginationClaims.

(* ---------------------------------------------------------------------- *)
(** ** The filter parameter in the query string                             *)
(* ---------------------------------------------------------------------- *)

Module FilterFacts.
Import Js Http.

Ltac each_ascii c :=
  destruct c as [[] [] [] [] [] [] [] []].

(** One character through the encoder and back. *)
Lemma decode_encoded_char (c : ascii) (rest : string) :
  Uri.decodeURIComponent
    ((if Uri.uri_unreserved c then String c EmptyString
      else Uri.percent_byte c) +:+ rest)
  = option_map (String c) (Uri.decodeURIComponent rest).
Proof. each_ascii c; reflexivity. Qed.

(** decodeURIComponent undoes encodeURIComponent. *)
Lemma decode_encodeURIComponent (s : string) :
  Uri.decodeURIComponent (Uri.encodeURIComponent s) = Some s.
Proof.
  induction s as [|c s IH]; [reflexivity|].
  cbn [Uri.encodeURIComponent].
  rewrite decode_encoded_char, IH. reflexivity.
Qed.

Lemma append_assoc (a b c : string) :
  (a +:+ b) +:+ c = a +:+ (b +:+ c).
Proof. induction a as [|d a IH]; simpl; congruence. Qed.

Lemma mem_ascii_append (c : ascii) (a b : string) :
  Uri.mem_ascii c (a +:+ b) = (Uri.mem_ascii c a || Uri.mem_ascii c b)%bool.
Proof.
  induction a as [|d a IH]; [reflexivity|].
  simpl. rewrite IH. apply orb_assoc.
Qed.

Lemma encoded_char_no_separator (c : ascii) :
  Uri.mem_ascii "&"
    (if Uri.uri_unreserved c then String c EmptyString
     else Uri.percent_byte c) = false.
Proof. each_ascii c; reflexivity. Qed.

(** An encoded component holds no ampersand. *)
Lemma encodeURIComponent_no_separator (s : string) :
  Uri.mem_ascii "&" (Uri.encodeURIComponent s) = false.
Proof.
  induction s as [|c s IH]; [reflexivity|].
  cbn [Uri.encodeURIComponent].
  rewrite mem_ascii_append, encoded_char_no_separator, IH. reflexivity.
Qed.

Lemma split_append_separator (sep : ascii) (a b : string) :
  split sep (a +:+ String sep b) = split sep a ++ split sep b.
Proof.
  induction a as [|c a IH]; cbn [String.append split].
  - rewrite Ascii.eqb_refl. reflexivity.
  - destruct (Ascii.eqb c sep); [rewrite IH; reflexivity|].
    rewrite IH. destruct (split sep a) as [|piece pieces] eqn:E.
    + destruct a; cbn in E; [discriminate|].
      destruct (Ascii.eqb a sep); [discriminate|].
      destruct (split sep a0); discriminate.
    + reflexivity.
Qed.

Lemma split_without_separator (sep : ascii) (s : string) :
  Uri.mem_ascii sep s = false -> split sep s = [s].
Proof.
  induction s as [|c s IH]; [reflexivity|].
  cbn [Uri.mem_ascii split]. intros H.
  apply orb_false_iff in H. destruct H as [Hc Hs].
  rewrite Ascii.eqb_sym, Hc, (IH Hs). reflexivity.
Qed.

(** One character through the encoder and back through the reader of a
    query string. *)
Lemma read_encoded_char (c : ascii) (rest : string) :
  Uri.percent_decode
    (Uri.plus_to_space
       ((if Uri.uri_unreserved c then String c EmptyString
         else Uri.percent_byte c) +:+ rest))
  = String c (Uri.percent_decode (Uri.plus_to_space rest)).
Proof. each_ascii c; reflexivity. Qed.

Lemma read_encodeURIComponent (s : string) :
  Uri.percent_decode (Uri.plus_to_space (Uri.encodeURIComponent s)) = s.
Proof.
  induction s as [|c s IH]; [reflexivity|].
  cbn [Uri.encodeURIComponent]. rewrite read_encoded_char, IH. reflexivity.
Qed.

(** What a reader of the query string makes of the filter parameter. *)
Lemma form_parse_filter_pair (f : string) :
  Uri.form_parse_pair ("$filter=" +:+ Uri.encodeURIComponent f)
  = ("$filter", f).
Proof.
  unfold Uri.form_parse_pair. cbn [String.append Uri.cut_at_equals Ascii.eqb
    Bool.eqb]. cbn. rewrite read_encodeURIComponent. reflexivity.
Qed.

Lemma filter_piece_is_whole (f : string) :
  split "&" ("$filter=" +:+ Uri.encodeURIComponent f)
  = ["$filter=" +:+ Uri.encodeURIComponent f].
Proof.
  apply split_without_separator.
  rewrite mem_ascii_append, encodeURIComponent_no_separator. reflexivity.
Qed.

Lemma split_at_ampersand (a b : string) :
  split "&" (a +:+ "&" +:+ b) = split "&" a ++ split "&" b.
Proof. exact (split_append_separator "&" a b). Qed.

Lemma strip_question_append (s : string) :
  Uri.strip_question ("?" +:+ s) = s.
Proof. reflexivity. Qed.

Lemma filter_piece_truthy (x : string) : truthy_str ("$filter=" +:+ x) = true.
Proof. reflexivity. Qed.

(** The query strings that both revisions build around a filter, read
    back: the filter is the last parameter and reads as it was given. *)
Lemma form_parse_with_filter (front f : string) :
  front = "?" \/ (exists generic, front = "?" +:+ generic +:+ "&") ->
  exists others,
    Uri.form_parse (front +:+ "$filter=" +:+ Uri.encodeURIComponent f)
    = others ++ [("$filter", f)].
Proof.
  intros [->|[generic ->]]; unfold Uri.form_parse.
  - exists []. rewrite strip_question_append, filter_piece_is_whole.
    cbn [List.filter]. rewrite filter_piece_truthy.
    cbn [map app]. rewrite form_parse_filter_pair. reflexivity.
  - exists (map Uri.form_parse_pair
                (List.filter truthy_str (split "&" generic))).
    rewrite !append_assoc, strip_question_append.
    rewrite split_at_ampersand, filter_piece_is_whole.
    rewrite filter_app, map_app.
    cbn [List.filter]. rewrite filter_piece_truthy.
    cbn [map]. rewrite form_parse_filter_pair. reflexivity.
Qed.

(** A filter given in the queryParams object is appended after the output
    of the generic serializer, encoded exactly once. *)
Lemma query_string_filter_from_params (path : string) (queryParams : Params) f :
  assoc "$filter" queryParams = Some f ->
  exists front,
    GraphApi.query_string (GraphApi.build_query path queryParams)
    = front +:+ "$filter=" +:+ Uri.encodeURIComponent f
    /\ (front = "?" \/ exists generic, front = "?" +:+ generic +:+ "&").
Proof.
  intros Hf. unfold GraphApi.build_query.
  set (q0 := fold_left _ _ _).
  destruct queryParams as [|kv rest]; [discriminate|].
  unfold GraphApi.take_query_params. rewrite Hf.
  unfold GraphApi.query_string.
  cbn [GraphApi.params GraphApi.filter GraphApi.filterPreEncoded].
  set (generic := Uri.form_serialize _).
  destruct generic as [|c g] eqn:G; cbn [truthy_str].
  - exists "?". split; [reflexivity|auto].
  - exists ("?" +:+ String c g +:+ "&"). split.
    + rewrite !append_assoc. reflexivity.
    + right. exists (String c g). reflexivity.
Qed.

(** The same in the revision that edits its argument, for a filter that
    is truthy. *)
Lemma legacy_query_string_filter queryParams w o f :
  nth_error (GraphApiLegacy.heap w) queryParams = Some o ->
  assoc "$filter" o = Some f ->
  truthy_str f = true ->
  exists front,
    fst (GraphApiLegacy.build_query_string queryParams w)
    = Ok (front +:+ "$filter=" +:+ Uri.encodeURIComponent f)
    /\ (front = "?" \/ exists generic, front = "?" +:+ generic +:+ "&").
Proof.
  intros Hread Hf Hft.
  unfold GraphApiLegacy.build_query_string, GraphApiLegacy.lbind,
    GraphApiLegacy.read.
  rewrite Hread. destruct o as [|kv o']; [discriminate|].
  rewrite Hf. cbn [truthy_ostr]. rewrite Hft.
  unfold GraphApiLegacy.write. cbn [GraphApiLegacy.heap].
  rewrite (QueryParamsFacts.nth_error_update_same _ _ _ _ Hread).
  unfold GraphApiLegacy.lret. cbn [fst].
  set (generic := Uri.form_serialize _).
  destruct generic as [|c g]; cbn [truthy_str].
  - exists "?". split; [reflexivity|auto].
  - exists ("?" +:+ String c g +:+ "&"). split.
    + cbn [String.append truthy_str]. rewrite !append_assoc. reflexivity.
    + right. exists (String c g). reflexivity.
Qed.

(** C8 as stated fails: a filter that the caller has encoded before
    putting it in the queryParams object is encoded once more, in both
    revisions; decoded once, the parameter of the URL gives the encoded
    text and not the filter that was meant. *)
Lemma preencoded_filter_is_encoded_again :
  let intended := "displayName eq 'R&D'" in
  let given := Uri.encodeURIComponent intended in
  given = "displayName%20eq%20'R%26D'"
  /\ GraphApi.final_url "me/mailFolders" [("$filter", given)]
     = "https://graph.microsoft.com/v1.0/me/mailFolders?$filter=displayName%2520eq%2520'R%2526D'"
  /\ fst (GraphApiLegacy.final_url "me/mailFolders" 0%nat
            (GraphApiLegacy.mkWorld [] [[("$filter", given)]]))
     = Ok "https://graph.microsoft.com/v1.0/me/mailFolders?$filter=displayName%2520eq%2520'R%2526D'"
  /\ Uri.decodeURIComponent "displayName%2520eq%2520'R%2526D'" = Some given
  /\ String.eqb given intended = false.
Proof. vm_compute. repeat split; reflexivity. Qed.

(** C8, as the code has it. A filter given as the [$filter] of the
    queryParams object (any value in the revision with the page ceiling, a
    truthy one in the other) is put at the end of the query string, after
    the output of the generic serializer and apart from it, as [$filter=]
    followed by encodeURIComponent of the value as given: one level of
    encoding of that value, whether or not the caller had encoded it
    before. The encoded value holds no ampersand, it decodes back to the
    value as given, and a reader of the query string finds the filter as
    its last parameter, whole. *)
Theorem filter_from_params_round_trips :
  (forall path queryParams f,
      assoc "$filter" queryParams = Some f ->
      exists front others,
        GraphApi.query_string (GraphApi.build_query path queryParams)
        = front +:+ "$filter=" +:+ Uri.encodeURIComponent f
        /\ (front = "?" \/ exists generic, front = "?" +:+ generic +:+ "&")
        /\ Uri.form_parse
             (GraphApi.query_string (GraphApi.build_query path queryParams))
           = others ++ [("$filter", f)])
  /\ (forall queryParams w o f,
        nth_error (GraphApiLegacy.heap w) queryParams = Some o ->
        assoc "$filter" o = Some f ->
        truthy_str f = true ->
        exists front others,
          fst (GraphApiLegacy.build_query_string queryParams w)
          = Ok (front +:+ "$filter=" +:+ Uri.encodeURIComponent f)
          /\ (front = "?" \/ exists generic, front = "?" +:+ generic +:+ "&")
          /\ Uri.form_parse
               (front +:+ "$filter=" +:+ Uri.encodeURIComponent f)
             = others ++ [("$filter", f)])
  /\ (forall f,
        Uri.decodeURIComponent (Uri.encodeURIComponent f) = Some f
        /\ Uri.mem_ascii "&" (Uri.encodeURIComponent f) = false).
Proof.
  split; [|split].
  - intros path queryParams f Hf.
    destruct (query_string_filter_from_params path queryParams f Hf)
      as (front & Hq & Hfront).
    destruct (form_parse_with_filter front f Hfront) as [others Hparse].
    exists front, others. rewrite Hq. auto.
  - intros queryParams w o f Hread Hf Hft.
    destruct (legacy_query_string_filter queryParams w o f Hread Hf Hft)
      as (front & Hq & Hfront).
    destruct (form_parse_with_filter front f Hfront) as [others Hparse].
    exists front, others. auto.
  - intros f. split.
    + apply decode_encodeURIComponent.
    + apply encodeURIComponent_no_separator.
Qed.

Lemma filter_from_params_round_trips_witness :
  exists front others,
    GraphApi.query_string
      (GraphApi.build_query "me/mailFolders"
         [("$top", "10"); ("$filter", "displayName eq 'R&D'")])
    = front +:+ "$filter=" +:+ Uri.encodeURIComponent "displayName eq 'R&D'"
    /\ (front = "?" \/ exists generic, front = "?" +:+ generic +:+ "&")
    /\ Uri.form_parse
         (GraphApi.query_string
            (GraphApi.build_query "me/mailFolders"
               [("$top", "10"); ("$filter", "displayName eq 'R&D'")]))
       = others ++ [("$filter", "displayName eq 'R&D'")].
Proof.
  exact (proj1 filter_from_params_round_trips "me/mailFolders"
           [("$top", "10"); ("$filter", "displayName eq 'R&D'")]
           "displayName eq 'R&D'" eq_refl).
Defined.

(** A filter that the caller encoded and placed in the path, in the
    revision that reads parameters from the path: the builder decodes it
    while reading the path and appends it with no encoding at all, so the
    URL carries a raw ampersand inside the filter, and a reader of the
    query string sees a filter cut at the ampersand and one more
    parameter. *)
Example preencoded_filter_in_path_is_cut :
  let intended := "displayName eq 'R&D'" in
  let path := "me/mailFolders?$filter=" +:+ Uri.encodeURIComponent intended in
  path = "me/mailFolders?$filter=displayName%20eq%20'R%26D'"
  /\ GraphApi.final_url path []
     = "https://graph.microsoft.com/v1.0/me/mailFolders?$filter=displayName eq 'R&D'"
  /\ Uri.form_parse "?$filter=displayName eq 'R&D'"
     = [("$filter", "displayName eq 'R"); ("D'", EmptyString)].
Proof. cbv zeta. repeat split; vm_compute; reflexivity. Qed.

(** The same filter given in the queryParams object arrives whole. *)
Example filter_in_params_arrives_whole :
  GraphApi.final_url "me/mailFolders" [("$filter", "displayName eq 'R&D'")]
  = "https://graph.microsoft.com/v1.0/me/mailFolders?$filter=displayName%20eq%20'R%26D'"
  /\ assoc "$filter" (Uri.form_parse "?$filter=displayName%20eq%20'R%26D'")
     = Some "displayName eq 'R&D'".
Proof. split; vm_compute; reflexivity. Qed.

(** The path of email/list.js for a folder named R&D, not encoded by the
    caller: the filter is cut as well. *)
Example raw_filter_in_path_is_cut :
  GraphApi.final_url "me/mailFolders?$filter=displayName eq 'R&D'" []
  = "https://graph.microsoft.com/v1.0/me/mailFolders?D%27=&$filter=displayName eq 'R".
Proof. vm_compute. reflexivity. Qed.

End FilterFacts.

(* ---------------------------------------------------------------------- *)
(** ** The credential store                                                 *)
(* ---------------------------------------------------------------------- *)

Module CredentialFacts.
Import Js TokenStorage.

Lemma between_200_300 (status : Z) :
  200 <= status < 300 ->
  ((200 <=? status) && (status <? 300))%bool = true.
Proof.
  intros H. apply andb_true_iff. split; [apply Z.leb_le|apply Z.ltb_lt]; lia.
Qed.

Lemma status_200_granted : 200 <= 200 < 300.
Proof. lia. Qed.

(** C9. A stored document with an access token and no accounts key is one
    account named default; a document with an accounts mapping lists the
    keys of the mapping. *)
Theorem legacy_document_is_the_default_account (s : Store) (d : Doc) :
  tokens s = None ->
  file s = Some d ->
  (accounts d = None ->
   truthy_ostr (access_token (top d)) = true ->
   fst (getAllAccounts s) = ["default"]
   /\ tokens (snd (getAllAccounts s)) = Some d)
  /\ (forall accs,
        accounts d = Some accs -> fst (getAllAccounts s) = keys accs).
Proof.
  intros Hmem Hfile.
  unfold getAllAccounts, getTokens, _loadTokensFromFile.
  rewrite Hmem, Hfile. cbn [fst snd]. split.
  - intros Hacc Htok. rewrite Hacc, Htok. split; reflexivity.
  - intros accs Hacc. rewrite Hacc. reflexivity.
Qed.

Lemma legacy_document_is_the_default_account_witness :
  fst (getAllAccounts (fresh_store None (Some (legacy_doc token_b))))
    = ["default"]
  /\ fst (getAllAccounts (fresh_store None (Some two_accounts)))
     = ["a@x.com"; "b@x.com"].
Proof.
  split.
  - apply (proj1 (legacy_document_is_the_default_account
                    (fresh_store None (Some (legacy_doc token_b)))
                    (legacy_doc token_b) eq_refl eq_refl));
      reflexivity.
  - exact (proj2 (legacy_document_is_the_default_account
                    (fresh_store None (Some two_accounts))
                    two_accounts eq_refl eq_refl)
                  [("a@x.com", token_a); ("b@x.com", token_b)] eq_refl).
Defined.

(** A document that keeps its tokens under accounts has no refresh token
    at the top level, where [refreshAccessToken] looks for it: the method
    throws before any request is made. *)
Lemma refresh_needs_top_level_token (env : Env) (s : Store) (d : Doc) :
  tokens s = Some d ->
  truthy_ostr (refresh_token (top d)) = false ->
  refreshAccessToken env s = (Done (Rejected NoRefreshToken), s).
Proof.
  intros Hmem Hnone. unfold refreshAccessToken, refresh_invoke.
  rewrite Hmem. destruct (refresh_token (top d)) as [r|]; [|reflexivity].
  cbn [truthy_ostr] in Hnone. rewrite Hnone. reflexivity.
Qed.

(** C5 on the code. In the two-account scenario the call makes no request
    to the token endpoint and returns null, although b@x.com holds a
    refresh token and the endpoint would grant a new access token; the
    registry stays as it was, in memory and on disk. *)
Theorem two_accounts_refresh_never_happens :
  let s := fresh_store (Some two_accounts) (Some two_accounts) in
  let '(r, s') := getValidAccessToken (granting 5000000 true) s in
  selected two_accounts = Some token_b
  /\ expired 5000000 (expires_at token_b) = true
  /\ r = Done None
  /\ sent s' = []
  /\ tokens s' = Some two_accounts
  /\ file s' = Some two_accounts.
Proof. vm_compute. repeat split; reflexivity. Qed.

(** The same for every environment and every registry of that shape. *)
Lemma accounts_refresh_never_happens env s d accs active t :
  tokens s = Some d ->
  accounts d = Some accs ->
  activeAccount d = Some active ->
  truthy_str active = true ->
  assoc active accs = Some t ->
  truthy_ostr (access_token t) = true ->
  truthy_ostr (refresh_token t) = true ->
  expired (now env (ticks s)) (expires_at t) = true ->
  truthy_ostr (refresh_token (top d)) = false ->
  fst (getValidAccessToken env s) = Done None
  /\ sent (snd (getValidAccessToken env s)) = sent s
  /\ tokens (snd (getValidAccessToken env s)) = Some d.
Proof.
  intros Hmem Hacc Hact Htr Hsel Hat Hrt Hexp Htop.
  unfold getValidAccessToken, getTokens. rewrite Hmem, Hacc, Hact, Htr, Hsel.
  rewrite Hat. cbn [negb]. unfold date_now. rewrite Hexp, Hrt.
  unfold refresh_or.
  rewrite (refresh_needs_top_level_token env
             (say (attempt_for active) (tick s)) d Hmem Htop).
  cbn [fst snd]. auto.
Qed.

(** A refresh that the endpoint grants, from a store with no refresh in
    flight: the token set in memory is rewritten from the response before
    the file is written; the outcome depends on the write. *)
Lemma refresh_granted env s d r status b :
  tokens s = Some d ->
  refresh_token (top d) = Some r ->
  truthy_str r = true ->
  refreshPromise s = None ->
  token_endpoint env (sent s) (mkTokenRequest "refresh_token" r)
    = TokenResponse status (Json b) ->
  200 <= status < 300 ->
  let d' := with_top d (refreshed (top d) b (now env (ticks s))) in
  let '(out, s') := refreshAccessToken env s in
  tokens s' = Some d'
  /\ sent s' = sent s ++ [mkTokenRequest "refresh_token" r]
  /\ refreshPromise s' = None
  /\ (if write_ok env (writes s)
      then out = Done (Resolved (rb_access_token b))
           /\ file s' = Some d'
           /\ In "Access token refreshed and saved successfully." (log s')
      else out = Done (Rejected SaveFailed)
           /\ file s' = file s
           /\ In "Failed to save refreshed tokens:" (log s')).
Proof.
  intros Hmem Hr Htr Hslot Hreply Hst d'.
  unfold refreshAccessToken, refresh_invoke.
  rewrite Hmem, Hr, Htr, Hslot, Hreply.
  unfold refresh_on_end. rewrite (between_200_300 status Hst).
  cbn [tokens set_promise send say tick ticks set_tokens writes].
  rewrite Hmem. fold d'.
  unfold refresh_on_saved.
  cbn [tokens sent refreshPromise file log writes set_promise say set_file
       failed_write tick set_tokens send].
  destruct (write_ok env (writes s));
    cbn [tokens sent refreshPromise file log writes set_promise say set_file
         failed_write tick set_tokens send];
    repeat split; auto; rewrite !in_app_iff; simpl; auto.
Qed.

(** The four assignments of a granted refresh. *)
Lemma refreshed_is_rewritten t b at_time lifetime :
  rb_expires_in b = Some lifetime ->
  rewritten t (refreshed t b at_time) b at_time lifetime.
Proof.
  intros Hlife. unfold rewritten.
  cbn [refreshed expires_at access_token refresh_token].
  rewrite Hlife. cbn [option_map].
  split; [reflexivity|]. split; [reflexivity|].
  split; [intros ->; reflexivity|]. split; [intros ->; reflexivity|].
  split.
  - intros old _. split.
    + intros Hlt. eexists. split; [reflexivity|assumption].
    + intros (new & [= <-] & Hlt). assumption.
  - intros old _ Hold Hpos. eexists. split; [reflexivity|lia].
Qed.

(** Through [getValidAccessToken] on a legacy document the failed write
    costs the token in memory as well: the call returns null and the store
    forgets its tokens. *)
Example failed_write_forgets_legacy_tokens :
  let s := fresh_store None (Some (legacy_doc token_b)) in
  let '(r, s') := getValidAccessToken (granting 5000000 false) s in
  r = Done None /\ tokens s' = None /\ file s' = Some (legacy_doc token_b).
Proof. vm_compute. repeat split; reflexivity. Qed.

Lemma getTokens_post (s : Store) :
  tokens (snd (getTokens s)) = fst (getTokens s)
  /\ refreshPromise (snd (getTokens s)) = refreshPromise s
  /\ ticks (snd (getTokens s)) = ticks s
  /\ sent (snd (getTokens s)) = sent s.
Proof.
  unfold getTokens, _loadTokensFromFile.
  destruct (tokens s) eqn:T; [cbn; auto|].
  destruct (file s); cbn; auto.
Qed.

(** With no refresh in flight the method runs to a result. *)
Lemma refresh_runs_to_result env s :
  refreshPromise s = None ->
  exists out, fst (refreshAccessToken env s) = Done out.
Proof.
  intros Hslot. unfold refreshAccessToken, refresh_invoke.
  destruct (tokens s) as [d|]; [|eexists; reflexivity].
  destruct (refresh_token (top d)) as [r|]; [|eexists; reflexivity].
  destruct (truthy_str r); [|eexists; reflexivity].
  rewrite Hslot.
  destruct (token_endpoint env (sent s) _) as [status body|];
    [|eexists; reflexivity].
  destruct (refresh_on_end status body _ _) as [[out|snapshot] s2];
    [eexists; reflexivity|].
  destruct (refresh_on_saved snapshot _ s2). eexists; reflexivity.
Qed.

Lemma refresh_or_result env on_failure s :
  refreshPromise s = None ->
  fst (refresh_or env on_failure s)
  = Done (match fst (refreshAccessToken env s) with
          | Done (Resolved token) => token
          | _ => None
          end).
Proof.
  intros Hslot. unfold refresh_or.
  destruct (refresh_runs_to_result env s Hslot) as [out Hout].
  destruct (refreshAccessToken env s) as [r s']. cbn [fst] in *. subst r.
  destruct out; reflexivity.
Qed.

(** The source computes the table [decision]. *)
Lemma getValidAccessToken_decision env s :
  refreshPromise s = None ->
  fst (getValidAccessToken env s) = Done (decision env s).
Proof.
  intros Hslot.
  unfold decision, stored, refresh_yields, refresh_point, getValidAccessToken.
  destruct (getTokens_post s) as (Hmem & Hp & Hticks & _).
  destruct (getTokens s) as [od s0]. cbn [fst snd] in *.
  rewrite Hslot in Hp. rewrite Hmem, <- Hticks.
  destruct od as [d|]; [|reflexivity].
  unfold selected, due.
  destruct (accounts d) as [accs|].
  - destruct (activeAccount d) as [active|]; [|reflexivity].
    destruct (truthy_str active); [|reflexivity].
    destruct (assoc active accs) as [t|]; [|reflexivity].
    destruct (negb (truthy_ostr (access_token t))); [reflexivity|].
    unfold date_now.
    destruct (expired (now env (ticks s0)) (expires_at t)); [|reflexivity].
    destruct (truthy_ostr (refresh_token t)); [|reflexivity].
    apply refresh_or_result. exact Hp.
  - destruct (negb (truthy_ostr (access_token (top d)))); [reflexivity|].
    unfold isTokenExpired. rewrite Hmem.
    destruct (expires_at (top d)) as [e|].
    + destruct (e =? 0); cbn [orb].
      * destruct (truthy_ostr (refresh_token (top d))); [|reflexivity].
        apply refresh_or_result. exact Hp.
      * unfold date_now.
        destruct (expired (now env (ticks s0)) (Some e)); [|reflexivity].
        destruct (truthy_ostr (refresh_token (top d))); [|reflexivity].
        cbn [snd]. apply refresh_or_result. exact Hp.
    + destruct (truthy_ostr (refresh_token (top d))); [|reflexivity].
      apply refresh_or_result. exact Hp.
Qed.

(** Without a refresh token in the selected token set no request leaves. *)
Lemma no_refresh_token_no_request env s d t :
  stored s = Some d ->
  selected d = Some t ->
  truthy_ostr (refresh_token t) = false ->
  sent (snd (getValidAccessToken env s)) = sent s.
Proof.
  unfold stored, getValidAccessToken.
  destruct (getTokens_post s) as (_ & _ & _ & Hsent).
  destruct (getTokens s) as [od s0]. cbn [fst snd] in *.
  intros -> Hsel Hrt. unfold selected in Hsel.
  destruct (accounts d) as [accs|].
  - destruct (activeAccount d) as [active|]; [|discriminate].
    destruct (truthy_str active); [|discriminate].
    rewrite Hsel.
    destruct (negb (truthy_ostr (access_token t))); [exact Hsent|].
    unfold date_now.
    destruct (expired (now env (ticks s0)) (expires_at t));
      [|exact Hsent].
    rewrite Hrt. exact Hsent.
  - injection Hsel as <-.
    destruct (negb (truthy_ostr (access_token (top d)))); [exact Hsent|].
    destruct (isTokenExpired env s0) as [[|] s1] eqn:Hexp.
    + rewrite Hrt. unfold isTokenExpired, date_now in Hexp.
      destruct (tokens s0) as [d0|]; [|inversion Hexp; subst; exact Hsent].
      destruct (expires_at (top d0)) as [e|];
        [|inversion Hexp; subst; exact Hsent].
      destruct (e =? 0); inversion Hexp; subst; exact Hsent.
    + unfold isTokenExpired, date_now in Hexp.
      destruct (tokens s0) as [d0|]; [|discriminate].
      destruct (expires_at (top d0)) as [e|]; [|discriminate].
      destruct (e =? 0); [discriminate|].
      inversion Hexp; subst. exact Hsent.
Qed.

Lemma not_due_is_ahead d t at_time e :
  due d t at_time = false ->
  expires_at t = Some e ->
  at_time + refreshTokenBuffer < e.
Proof.
  unfold due, expired. intros Hdue He. rewrite He in Hdue.
  destruct (accounts d).
  - apply Z.leb_gt in Hdue. lia.
  - apply orb_false_iff in Hdue. destruct Hdue as [_ Hdue].
    apply Z.leb_gt in Hdue. lia.
Qed.

(** What a caller gets from the refresh inside getValidAccessToken. *)
Lemma refresh_or_delivers env on_failure pending s :
  delivered pending (fst (refresh_or env on_failure s))
  = match fst (refreshAccessToken env s) with
    | Done out => token_of out
    | Waiting _ => token_of pending
    end.
Proof.
  unfold refresh_or.
  destruct (refreshAccessToken env s) as [[[token|f]|p] s']; reflexivity.
Qed.

(** The source computes the table [outcome], in every store. *)
Lemma getValidAccessToken_outcome env pending s :
  delivered pending (fst (getValidAccessToken env s)) = outcome env pending s.
Proof.
  unfold outcome, stored, refresh_gives, refresh_point, getValidAccessToken.
  destruct (getTokens_post s) as (Hmem & _ & Hticks & _).
  destruct (getTokens s) as [od s0]. cbn [fst snd] in *.
  rewrite Hmem, <- Hticks.
  destruct od as [d|]; [|reflexivity].
  unfold selected, due.
  destruct (accounts d) as [accs|].
  - destruct (activeAccount d) as [active|]; [|reflexivity].
    destruct (truthy_str active); [|reflexivity].
    destruct (assoc active accs) as [t|]; [|reflexivity].
    destruct (negb (truthy_ostr (access_token t))); [reflexivity|].
    unfold date_now.
    destruct (expired (now env (ticks s0)) (expires_at t)); [|reflexivity].
    destruct (truthy_ostr (refresh_token t)); [|reflexivity].
    apply refresh_or_delivers.
  - destruct (negb (truthy_ostr (access_token (top d)))); [reflexivity|].
    unfold isTokenExpired. rewrite Hmem.
    destruct (expires_at (top d)) as [e|].
    + destruct (e =? 0); cbn [orb].
      * destruct (truthy_ostr (refresh_token (top d))); [|reflexivity].
        apply refresh_or_delivers.
      * unfold date_now.
        destruct (expired (now env (ticks s0)) (Some e)); [|reflexivity].
        destruct (truthy_ostr (refresh_token (top d))); [|reflexivity].
        cbn [snd]. apply refresh_or_delivers.
    + destruct (truthy_ostr (refresh_token (top d))); [|reflexivity].
      apply refresh_or_delivers.
Qed.

(** A token set that is not due has its expiry more than the buffer
    ahead, when the expiry is recorded where the source needs it. *)
Lemma not_due_has_expiry_ahead s d t at_time :
  expiry_recorded s = true ->
  stored s = Some d ->
  selected d = Some t ->
  due d t at_time = false ->
  exists e, expires_at t = Some e /\ at_time + refreshTokenBuffer < e.
Proof.
  unfold expiry_recorded. intros Hrec Hd Hsel Hdue.
  rewrite Hd, Hsel in Hrec.
  destruct (expires_at t) as [e|] eqn:He.
  - exists e. split; [reflexivity|].
    eapply not_due_is_ahead; eassumption.
  - unfold due in Hdue. rewrite He in Hdue.
    destruct (accounts d); discriminate.
Qed.

(** The null results of [getValidAccessToken] in auth/token-storage.js. *)
Lemma storage_null_iff env pending s :
  expiry_recorded s = true ->
  let at_time := now env (ticks s) in
  let r := delivered pending (fst (getValidAccessToken env s)) in
  (refreshPromise s = None -> fst (getValidAccessToken env s) = Done r)
  /\ (r = None <->
      stored s = None
      \/ exists d,
           stored s = Some d
           /\ (selected d = None
               \/ exists t,
                    selected d = Some t
                    /\ (truthy_ostr (access_token t) = false
                        \/ (due d t at_time = true
                            /\ (truthy_ostr (refresh_token t) = false
                                \/ refresh_gives env pending s = None)))))
  /\ (forall v,
        r = Some v ->
        exists d t,
          stored s = Some d /\ selected d = Some t
          /\ ((due d t at_time = false
               /\ access_token t = Some v
               /\ exists e, expires_at t = Some e
                            /\ at_time + refreshTokenBuffer < e)
              \/ (due d t at_time = true
                  /\ truthy_ostr (refresh_token t) = true
                  /\ refresh_gives env pending s = Some v)))
  /\ (forall d t,
        stored s = Some d -> selected d = Some t ->
        truthy_ostr (refresh_token t) = false ->
        sent (snd (getValidAccessToken env s)) = sent s).
Proof.
  intros Hrec at_time r. subst r.
  rewrite (getValidAccessToken_outcome env pending s).
  split.
  { intros Hslot. rewrite (getValidAccessToken_decision env s Hslot).
    f_equal.
    pose proof (getValidAccessToken_outcome env pending s) as Hout.
    rewrite (getValidAccessToken_decision env s Hslot) in Hout.
    exact Hout. }
  split; [|split]; [| |intros d t; apply no_refresh_token_no_request].
  - unfold outcome. fold at_time.
    destruct (stored s) as [d|]; [|tauto].
    destruct (selected d) as [t|] eqn:Hsel.
    2: { split; [intros _; right; exists d; auto|reflexivity]. }
    destruct (truthy_ostr (access_token t)) eqn:Hat; cbn [negb].
    2: { split; [intros _; right; exists d; split; [reflexivity|];
                 right; exists t; auto|reflexivity]. }
    destruct (due d t at_time) eqn:Hdue.
    + destruct (truthy_ostr (refresh_token t)) eqn:Hrt.
      * split.
        -- intros Hy. right. exists d. split; [reflexivity|].
           right. exists t. split; [exact Hsel|]. right. auto.
        -- intros [H|(d' & [= <-] & [H|(t' & H1 & H2)])];
             [discriminate|congruence|].
           rewrite Hsel in H1. injection H1 as <-.
           destruct H2 as [H2|(_ & [H2|H2])]; congruence.
      * split; [intros _|reflexivity]. right. exists d.
        split; [reflexivity|]. right. exists t. split; [exact Hsel|].
        right. auto.
    + split.
      * intros Hnone. rewrite Hnone in Hat. discriminate.
      * intros [H|(d' & [= <-] & [H|(t' & H1 & H2)])];
          [discriminate|congruence|].
        rewrite Hsel in H1. injection H1 as <-.
        destruct H2 as [H2|(H2 & _)]; congruence.
  - intros v. unfold outcome. fold at_time.
    destruct (stored s) as [d|] eqn:Hd; [|discriminate].
    destruct (selected d) as [t|] eqn:Hsel; [|discriminate].
    destruct (negb (truthy_ostr (access_token t))); [discriminate|].
    destruct (due d t at_time) eqn:Hdue.
    + destruct (truthy_ostr (refresh_token t)) eqn:Hrt; [|discriminate].
      intros Hy. exists d, t. split; [reflexivity|].
      split; [exact Hsel|]. right. auto.
    + intros Hv. exists d, t. split; [reflexivity|].
      split; [exact Hsel|]. left. split; [exact Hdue|].
      split; [assumption|].
      eapply not_due_has_expiry_ahead; eassumption.
Qed.

End CredentialFacts.

(* ---------------------------------------------------------------------- *)
(** ** Concurrent refreshes share one request                               *)
(* ---------------------------------------------------------------------- *)

Module SingleFlightFacts.
Import Js TokenStorage SingleFlight.

Lemma has_refresh_token_inv s :
  has_refresh_token s = true ->
  exists d r,
    tokens s = Some d /\ refresh_token (top d) = Some r
    /\ truthy_str r = true.
Proof.
  unfold has_refresh_token. destruct (tokens s) as [d|]; [|discriminate].
  destruct (refresh_token (top d)) as [r|] eqn:Hr; [|discriminate].
  intros H. exists d, r. split; [reflexivity|]. split; [exact Hr|exact H].
Qed.

(** The first call from a store at rest starts the one request. *)
Lemma first_call_starts s c0 :
  refreshPromise s = None ->
  has_refresh_token s = true ->
  exists m, step (at_rest s) (Call c0) = Some m /\ in_flight s [c0] m.
Proof.
  intros Hslot Htok.
  destruct (has_refresh_token_inv s Htok) as (d & r & Hd & Hr & Htr).
  unfold step, at_rest, refresh_invoke. cbn [store flights delivered].
  rewrite Hd, Hr, Htr, Hslot.
  eexists. split; [reflexivity|].
  exists (mkFlight (List.length (sent s)) [c0] None),
         (mkTokenRequest "refresh_token" r).
  cbn. unfold has_refresh_token. cbn. rewrite Hd, Hr. cbn. auto 10.
Qed.

Lemma refreshed_keeps_a_refresh_token t b at_time :
  truthy_ostr (refresh_token t) = true ->
  truthy_ostr (refresh_token (refreshed t b at_time)) = true.
Proof.
  intros H. cbn [refreshed refresh_token].
  destruct (truthy_ostr (rb_refresh_token b)) eqn:E; assumption.
Qed.

(** An event that leaves a flight pending adds no request: a call joins
    the flight, a granted response moves it on to the write. *)
Lemma pending_step s0 waiting m e m' :
  in_flight s0 waiting m ->
  step m e = Some m' ->
  flights m' <> [] ->
  in_flight s0 (waiting ++ callers [e]) m'.
Proof.
  intros (f & req & Hf & Hw & Hslot & Htok & Hsent & Hdel) Hstep Hpending.
  destruct (has_refresh_token_inv _ Htok) as (d & r & Hd & Hr & Htr).
  destruct e as [c|p status body at_time|p|p ok]; cbn [step] in Hstep.
  - unfold refresh_invoke in Hstep. rewrite Hd, Hr, Htr, Hslot in Hstep.
    injection Hstep as <-. rewrite Hf. cbn [attach].
    rewrite Nat.eqb_refl.
    eexists _, req. cbn. unfold has_refresh_token. cbn.
    rewrite Hd, Hr, Hw. cbn. auto 10.
  - rewrite Hf in Hstep. cbn [find_flight] in Hstep.
    destruct (Nat.eqb (flight_id f) p) eqn:Hp; [|discriminate].
    destruct (flight_snapshot f); [discriminate|].
    unfold refresh_on_end in Hstep.
    destruct body as [b|].
    + destruct ((200 <=? status) && (status <? 300))%bool.
      * rewrite Hd in Hstep. injection Hstep as <-.
        rewrite Hp.
        eexists _, req. cbn. unfold has_refresh_token. cbn.
        rewrite app_nil_r.
        repeat split; auto.
        destruct (truthy_ostr (rb_refresh_token b)) eqn:E; [assumption|].
        rewrite Hr. assumption.
      * injection Hstep as <-. exfalso. apply Hpending.
        cbn. rewrite Hf. cbn. rewrite Nat.eqb_refl. reflexivity.
    + injection Hstep as <-. exfalso. apply Hpending.
      cbn. rewrite Hf. cbn. rewrite Nat.eqb_refl. reflexivity.
  - rewrite Hf in Hstep. cbn [find_flight] in Hstep.
    destruct (Nat.eqb (flight_id f) p); [|discriminate].
    destruct (flight_snapshot f); [discriminate|].
    cbn in Hstep. injection Hstep as <-. exfalso. apply Hpending.
    cbn. rewrite Hf. cbn. rewrite Nat.eqb_refl. reflexivity.
  - rewrite Hf in Hstep. cbn [find_flight] in Hstep.
    destruct (Nat.eqb (flight_id f) p); [|discriminate].
    destruct (flight_snapshot f) as [snapshot|]; [|discriminate].
    destruct (refresh_on_saved snapshot ok (store m)) as [out s'].
    injection Hstep as <-. exfalso. apply Hpending.
    cbn. rewrite Hf. cbn. rewrite Nat.eqb_refl. reflexivity.
Qed.

Lemma callers_cons (e : event) (evs : list event) :
  callers (e :: evs) = callers [e] ++ callers evs.
Proof. unfold callers. cbn [flat_map]. rewrite app_nil_r. reflexivity. Qed.

Lemma run_pending_in_flight s0 :
  forall evs waiting m m',
    in_flight s0 waiting m ->
    run_pending m evs = Some m' ->
    in_flight s0 (waiting ++ callers evs) m'.
Proof.
  induction evs as [|e evs IH]; intros waiting m m' Hin Hrun.
  - injection Hrun as <-. cbn. rewrite app_nil_r. exact Hin.
  - cbn [run_pending] in Hrun.
    destruct (step m e) as [m1|] eqn:Hstep; [|discriminate].
    destruct (flights m1) as [|f1 rest] eqn:Hf1; [discriminate|].
    assert (Hpending : flights m1 <> []) by (rewrite Hf1; discriminate).
    pose proof (pending_step s0 waiting m e m1 Hin Hstep Hpending) as Hin1.
    specialize (IH _ _ _ Hin1 Hrun).
    rewrite callers_cons, app_assoc. exact IH.
Qed.

(** The event that ends the flight hands one and the same outcome to every
    caller, empties the slot and sends nothing. *)
Lemma settling_step s0 waiting m e m' :
  in_flight s0 waiting m ->
  step m e = Some m' ->
  flights m' = [] ->
  exists out,
    delivered m' = map (fun caller => (caller, out)) waiting
    /\ refreshPromise (store m') = None
    /\ sent (store m') = sent (store m).
Proof.
  intros (f & req & Hf & Hw & Hslot & Htok & Hsent & Hdel) Hstep Hdone.
  destruct (has_refresh_token_inv _ Htok) as (d & r & Hd & Hr & Htr).
  destruct e as [c|p status body at_time|p|p ok]; cbn [step] in Hstep.
  - unfold refresh_invoke in Hstep. rewrite Hd, Hr, Htr, Hslot in Hstep.
    injection Hstep as <-. rewrite Hf in Hdone. cbn in Hdone.
    rewrite Nat.eqb_refl in Hdone. discriminate.
  - rewrite Hf in Hstep. cbn [find_flight] in Hstep.
    destruct (Nat.eqb (flight_id f) p) eqn:Hp; [|discriminate].
    destruct (flight_snapshot f); [discriminate|].
    unfold refresh_on_end in Hstep.
    destruct body as [b|].
    + destruct ((200 <=? status) && (status <? 300))%bool.
      * rewrite Hd in Hstep. injection Hstep as <-.
        rewrite Hp in Hdone. discriminate.
      * injection Hstep as <-. eexists. unfold settle, deliver.
        cbn. rewrite Hdel, Hw. repeat split; reflexivity.
    + injection Hstep as <-. eexists. unfold settle, deliver.
      cbn. rewrite Hdel, Hw. repeat split; reflexivity.
  - rewrite Hf in Hstep. cbn [find_flight] in Hstep.
    destruct (Nat.eqb (flight_id f) p); [|discriminate].
    destruct (flight_snapshot f); [discriminate|].
    cbn in Hstep. injection Hstep as <-. eexists. unfold settle, deliver.
    cbn. rewrite Hdel, Hw. repeat split; reflexivity.
  - rewrite Hf in Hstep. cbn [find_flight] in Hstep.
    destruct (Nat.eqb (flight_id f) p); [|discriminate].
    destruct (flight_snapshot f) as [snapshot|]; [|discriminate].
    unfold refresh_on_saved in Hstep.
    destruct ok; injection Hstep as <-; eexists; unfold settle, deliver;
      cbn; rewrite Hdel, Hw; repeat split; reflexivity.
Qed.

(** The run of [three_callers], ended by the write of the file: one
    request, and the three callers get the new access token. *)
Example three_callers_one_request :
  let s := fresh_store (Some (legacy_doc token_b)) (Some (legacy_doc token_b)) in
  option_map (fun m => (sent (store m), delivered m, refreshPromise (store m)))
             (run (at_rest s) (Call 1 :: three_callers ++ [WriteDone 0 true]))
  = Some ([mkTokenRequest "refresh_token" "refresh-b"],
          [(1%nat, Resolved (Some "access-new"));
           (2%nat, Resolved (Some "access-new"));
           (3%nat, Resolved (Some "access-new"))],
          None).
Proof. vm_compute. reflexivity. Qed.

End SingleFlightFacts.

Module ManagerFlightFacts.
Import Js TokenManager ManagerFlight.

Lemma manager_callers_cons (e : event) (evs : list event) :
  callers (e :: evs) = callers [e] ++ callers evs.
Proof. unfold callers. cbn [flat_map]. rewrite app_nil_r. reflexivity. Qed.

Lemma manager_first_call_starts s c0 :
  refreshPromise s = None ->
  has_refresh_token s = true ->
  exists m, step (at_rest s) (Call c0) = Some m /\ in_flight s [c0] m.
Proof.
  intros Hslot Htok. unfold has_refresh_token, tokens_at_hand in Htok.
  unfold step, at_rest, refresh_invoke. cbn [state flights delivered].
  rewrite Hslot.
  destruct (cachedTokens s) as [t|].
  - destruct (TokenStorage.refresh_token t) as [r|]; [|discriminate].
    cbn [truthy_ostr] in Htok. rewrite Htok.
    eexists. split; [reflexivity|].
    eexists (mkFlight _ [c0]), _. cbn. auto 10.
  - destruct (loadTokenCache s) as [[t|] s1] eqn:Hload; [|discriminate].
    cbn [fst] in Htok.
    destruct (TokenStorage.refresh_token t) as [r|]; [|discriminate].
    cbn [truthy_ostr] in Htok. rewrite Htok.
    assert (Hsent : sent s1 = sent s).
    { unfold loadTokenCache in Hload. destruct (file s) as [t0|];
        [|discriminate].
      destruct (truthy_ostr (TokenStorage.access_token t0));
        [|discriminate].
      injection Hload as _ <-. reflexivity. }
    eexists. split; [reflexivity|].
    eexists (mkFlight _ [c0]), _. cbn. rewrite Hsent. auto 10.
Qed.

(** While the slot is taken a call joins before it looks at any token; a
    response or an error always ends the flight. *)
Lemma manager_pending_step s0 waiting m e m' :
  in_flight s0 waiting m ->
  step m e = Some m' ->
  flights m' <> [] ->
  in_flight s0 (waiting ++ callers [e]) m'.
Proof.
  intros (f & req & Hf & Hw & Hslot & Hsent & Hdel) Hstep Hpending.
  destruct e as [c|p status body at_time ok|p]; cbn [step] in Hstep.
  - unfold refresh_invoke in Hstep. rewrite Hslot in Hstep.
    injection Hstep as <-. rewrite Hf. cbn [attach].
    rewrite Nat.eqb_refl.
    eexists _, req. cbn. rewrite Hw. auto 10.
  - rewrite Hf in Hstep. cbn [find_flight] in Hstep.
    destruct (Nat.eqb (flight_id f) p); [|discriminate].
    destruct (refresh_on_end status body at_time ok (state m)) as [out s'].
    injection Hstep as <-. exfalso. apply Hpending.
    cbn. rewrite Hf. cbn. rewrite Nat.eqb_refl. reflexivity.
  - rewrite Hf in Hstep. cbn [find_flight] in Hstep.
    destruct (Nat.eqb (flight_id f) p); [|discriminate].
    cbn in Hstep. injection Hstep as <-. exfalso. apply Hpending.
    cbn. rewrite Hf. cbn. rewrite Nat.eqb_refl. reflexivity.
Qed.

Lemma manager_run_pending_in_flight s0 :
  forall evs waiting m m',
    in_flight s0 waiting m ->
    run_pending m evs = Some m' ->
    in_flight s0 (waiting ++ callers evs) m'.
Proof.
  induction evs as [|e evs IH]; intros waiting m m' Hin Hrun.
  - injection Hrun as <-. cbn. rewrite app_nil_r. exact Hin.
  - cbn [run_pending] in Hrun.
    destruct (step m e) as [m1|] eqn:Hstep; [|discriminate].
    destruct (flights m1) as [|f1 rest] eqn:Hf1; [discriminate|].
    assert (Hpending : flights m1 <> []) by (rewrite Hf1; discriminate).
    pose proof (manager_pending_step s0 waiting m e m1 Hin Hstep Hpending)
      as Hin1.
    specialize (IH _ _ _ Hin1 Hrun).
    rewrite manager_callers_cons, app_assoc. exact IH.
Qed.

Lemma refresh_on_end_clears_slot status body at_time ok s :
  refreshPromise (snd (refresh_on_end status body at_time ok s)) = None
  /\ sent (snd (refresh_on_end status body at_time ok s)) = sent s.
Proof.
  unfold refresh_on_end. destruct body as [b|]; [|split; reflexivity].
  destruct ((200 <=? status) && (status <? 300))%bool; [|split; reflexivity].
  destruct (cachedTokens s) as [t|]; [|split; reflexivity].
  destruct ok; split; reflexivity.
Qed.

Lemma manager_settling_step s0 waiting m e m' :
  in_flight s0 waiting m ->
  step m e = Some m' ->
  flights m' = [] ->
  exists out,
    delivered m' = map (fun caller => (caller, out)) waiting
    /\ refreshPromise (state m') = None
    /\ sent (state m') = sent (state m).
Proof.
  intros (f & req & Hf & Hw & Hslot & Hsent & Hdel) Hstep Hdone.
  destruct e as [c|p status body at_time ok|p]; cbn [step] in Hstep.
  - unfold refresh_invoke in Hstep. rewrite Hslot in Hstep.
    injection Hstep as <-. rewrite Hf in Hdone. cbn in Hdone.
    rewrite Nat.eqb_refl in Hdone. discriminate.
  - rewrite Hf in Hstep. cbn [find_flight] in Hstep.
    destruct (Nat.eqb (flight_id f) p); [|discriminate].
    pose proof (refresh_on_end_clears_slot status body at_time ok (state m))
      as [Hclear Hkeep].
    destruct (refresh_on_end status body at_time ok (state m)) as [out s'].
    injection Hstep as <-. exists out. unfold settle.
    cbn in *. rewrite Hdel, Hw. auto.
  - rewrite Hf in Hstep. cbn [find_flight] in Hstep.
    destruct (Nat.eqb (flight_id f) p); [|discriminate].
    cbn in Hstep. injection Hstep as <-. exists None. unfold settle.
    cbn. rewrite Hdel, Hw. auto.
Qed.

End ManagerFlightFacts.

(* ---------------------------------------------------------------------- *)
(** ** The token cache of auth/token-manager.js                             *)
(* ---------------------------------------------------------------------- *)

Module ManagerFacts.
Import Js TokenManager.
Import TokenStorage(TokenSet, access_token, refresh_token, expires_at,
                    rb_access_token, rb_refresh_token, rb_expires_in,
                    TokenResponse, Json, mkTokenRequest, mkBody,
                    now, token_endpoint, write_ok, Done, Waiting, refreshed,
                    token_a, token_b, token_c, granting).

Lemma loadTokenCache_post s :
  refreshPromise (snd (loadTokenCache s)) = refreshPromise s
  /\ sent (snd (loadTokenCache s)) = sent s
  /\ ticks (snd (loadTokenCache s)) = ticks s
  /\ writes (snd (loadTokenCache s)) = writes s
  /\ file (snd (loadTokenCache s)) = file s
  /\ (forall t, fst (loadTokenCache s) = Some t ->
        cachedTokens (snd (loadTokenCache s)) = Some t).
Proof.
  unfold loadTokenCache. destruct (file s) as [t|] eqn:Hfile; cbn.
  - destruct (truthy_ostr (access_token t)); cbn; repeat split; auto;
      try discriminate; congruence.
  - repeat split; auto; discriminate.
Qed.

(** A refresh that the endpoint grants, from a state with no refresh in
    flight: the cached token set is rewritten from the response; the value
    the promise resolves with depends on the write of the file. *)
Lemma manager_refresh_granted env s t r status b :
  cachedTokens s = Some t ->
  refresh_token t = Some r ->
  truthy_str r = true ->
  refreshPromise s = None ->
  token_endpoint env (sent s) (mkTokenRequest "refresh_token" r)
    = TokenResponse status (Json b) ->
  200 <= status < 300 ->
  let t' := refreshed t b (now env (ticks s)) in
  let '(out, s') := refreshAccessToken env s in
  cachedTokens s' = Some t'
  /\ sent s' = sent s ++ [mkTokenRequest "refresh_token" r]
  /\ refreshPromise s' = None
  /\ (if write_ok env (writes s)
      then out = Done (rb_access_token b)
           /\ file s' = Some t'
           /\ In "[DEBUG] Access token refreshed and saved successfully" (log s')
      else out = Done None
           /\ file s' = file s
           /\ In "[DEBUG] Failed to save refreshed tokens" (log s')).
Proof.
  intros Hmem Hr Htr Hslot Hreply Hst t'.
  unfold refreshAccessToken, refresh_invoke.
  rewrite Hslot, Hmem, Hr, Htr, Hreply.
  unfold refresh_on_end.
  rewrite (CredentialFacts.between_200_300 status Hst).
  cbn [cachedTokens set_promise send say tick ticks set_cache writes].
  rewrite Hmem. fold t'. unfold saveTokenCache.
  destruct (write_ok env (writes s)); cbn; repeat split; auto;
    rewrite !in_app_iff; simpl; auto.
Qed.

Lemma manager_refresh_runs env s :
  refreshPromise s = None ->
  exists out, fst (refreshAccessToken env s) = Done out.
Proof.
  intros Hslot. unfold refreshAccessToken, refresh_invoke. rewrite Hslot.
  destruct (match cachedTokens s with
            | Some t => (Some t, s)
            | None => loadTokenCache s
            end) as [[t|] s1]; [|eexists; reflexivity].
  destruct (refresh_token t) as [r|]; [|eexists; reflexivity].
  destruct (truthy_str r); [|eexists; reflexivity].
  destruct (token_endpoint env (sent s) _) as [status body|];
    [|eexists; reflexivity].
  destruct (refresh_on_end status body _ _ _). eexists; reflexivity.
Qed.

(** The source computes the table [decision]. *)
Lemma getAccessToken_decision env s :
  refreshPromise s = None ->
  fst (getAccessToken env s) = Done (decision env s).
Proof.
  intros Hslot.
  unfold getAccessToken, decision, tokens_at_hand, refresh_yields,
    refresh_point, due.
  destruct (loadTokenCache_post s) as (Hp & _ & Hticks & _).
  destruct (cachedTokens s) as [t|].
  - destruct (expiry_or_zero t - refreshBuffer <=? now env (ticks s));
      [|reflexivity].
    destruct (manager_refresh_runs env
                (say "[DEBUG] Token expired or expiring soon, attempting refresh..."
                     (tick s)) Hslot) as [out Hout].
    rewrite Hout.
    destruct (refreshAccessToken env _) as [r s']. cbn [fst] in *.
    subst r. reflexivity.
  - destruct (loadTokenCache s) as [[t|] s1]; cbn [fst snd] in *;
      [|reflexivity].
    rewrite Hticks.
    destruct (expiry_or_zero t - refreshBuffer <=? now env (ticks s));
      [|reflexivity].
    rewrite Hslot in Hp.
    destruct (manager_refresh_runs env
                (say "[DEBUG] Token expired or expiring soon, attempting refresh..."
                     (tick s1)) Hp) as [out Hout].
    rewrite Hout.
    destruct (refreshAccessToken env _) as [r s']. cbn [fst] in *.
    subst r. reflexivity.
Qed.

(** A call of the refresh without a refresh token at hand sends nothing. *)
Lemma manager_refresh_without_token env s t :
  refreshPromise s = None ->
  cachedTokens s = Some t ->
  truthy_ostr (refresh_token t) = false ->
  fst (refreshAccessToken env s) = Done None
  /\ sent (snd (refreshAccessToken env s)) = sent s.
Proof.
  intros Hslot Hmem Hrt. unfold refreshAccessToken, refresh_invoke.
  rewrite Hslot, Hmem.
  destruct (refresh_token t) as [r|]; [|split; reflexivity].
  cbn [truthy_ostr] in Hrt. rewrite Hrt. split; reflexivity.
Qed.

Lemma manager_no_refresh_token_no_request env s t :
  refreshPromise s = None ->
  tokens_at_hand s = Some t ->
  truthy_ostr (refresh_token t) = false ->
  sent (snd (getAccessToken env s)) = sent s.
Proof.
  intros Hslot Hhand Hrt. unfold getAccessToken, tokens_at_hand in *.
  destruct (loadTokenCache_post s) as (Hp & Hsent & _ & _ & _ & Hcache).
  destruct (cachedTokens s) as [t0|] eqn:Hmem.
  - injection Hhand as ->.
    destruct (expiry_or_zero t - refreshBuffer <=? now env (ticks s));
      [|reflexivity].
    apply (manager_refresh_without_token env
             (say "[DEBUG] Token expired or expiring soon, attempting refresh..."
                  (tick s)) t); assumption.
  - destruct (loadTokenCache s) as [[t1|] s1]; cbn [fst snd] in *;
      [|discriminate].
    injection Hhand as ->.
    destruct (expiry_or_zero t - refreshBuffer <=? now env (ticks s1));
      [|exact Hsent].
    rewrite <- Hsent.
    apply (manager_refresh_without_token env
             (say "[DEBUG] Token expired or expiring soon, attempting refresh..."
                  (tick s1)) t); cbn; try assumption.
    + congruence.
    + apply Hcache. reflexivity.
Qed.

Lemma tokens_at_hand_cached s t :
  tokens_at_hand s = Some t ->
  cachedTokens (refresh_point s) = Some t
  /\ refreshPromise (refresh_point s) = refreshPromise s.
Proof.
  unfold tokens_at_hand, refresh_point.
  destruct (loadTokenCache_post s) as (Hp & _ & _ & _ & _ & Hcache).
  destruct (cachedTokens s) as [t0|] eqn:Hmem.
  - intros [= <-]. split; [exact Hmem|reflexivity].
  - intros Hload. cbn. split; [apply Hcache; exact Hload|exact Hp].
Qed.

Lemma manager_yields_none_without_token env s t :
  refreshPromise s = None ->
  tokens_at_hand s = Some t ->
  truthy_ostr (refresh_token t) = false ->
  refresh_yields env s = None.
Proof.
  intros Hslot Hhand Hrt. unfold refresh_yields.
  destruct (tokens_at_hand_cached s t Hhand) as [Hcache Hp].
  rewrite Hslot in Hp.
  destruct (manager_refresh_without_token env (refresh_point s) t
              Hp Hcache Hrt) as [-> _].
  reflexivity.
Qed.

(** The source computes the table [outcome], in every state. *)
Lemma getAccessToken_outcome env pending s :
  delivered pending (fst (getAccessToken env s)) = outcome env pending s.
Proof.
  unfold getAccessToken, outcome, tokens_at_hand, refresh_gives,
    refresh_point, due.
  destruct (loadTokenCache_post s) as (_ & _ & Hticks & _).
  destruct (cachedTokens s) as [t|].
  - destruct (expiry_or_zero t - refreshBuffer <=? now env (ticks s));
      reflexivity.
  - destruct (loadTokenCache s) as [[t|] s1]; cbn [fst snd] in *;
      [|reflexivity].
    rewrite Hticks.
    destruct (expiry_or_zero t - refreshBuffer <=? now env (ticks s));
      reflexivity.
Qed.

Lemma manager_gives_none_without_token env pending s t :
  refreshPromise s = None ->
  tokens_at_hand s = Some t ->
  truthy_ostr (refresh_token t) = false ->
  refresh_gives env pending s = None.
Proof.
  intros Hslot Hhand Hrt. unfold refresh_gives.
  destruct (tokens_at_hand_cached s t Hhand) as [Hcache Hp].
  rewrite Hslot in Hp.
  destruct (manager_refresh_without_token env (refresh_point s) t
              Hp Hcache Hrt) as [-> _].
  reflexivity.
Qed.

End ManagerFacts.

Module EnhancedFacts.
Import Js.
Import TokenStorage(TokenSet, access_token, refresh_token, expires_in,
                    expires_at, rewritten).
Import EnhancedTokenStorage.

Lemma enhanced_refresh_granted s refreshToken status tokenResponse
      at_time save_time lifetime :
  200 <= status < 300 ->
  expires_in tokenResponse = Some lifetime ->
  at_time + lifetime * 1000 <> 0 ->
  let t' :=
    (if truthy_ostr (refresh_token tokenResponse)
     then with_expires_at (Some (at_time + lifetime * 1000)) tokenResponse
     else with_refresh_token refreshToken
            (with_expires_at (Some (at_time + lifetime * 1000))
                             tokenResponse)) in
  refresh_on_end refreshToken status (Parsed tokenResponse) at_time
                 save_time true s
  = (Some t', say "[TokenStorage] Token refreshed successfully"
                  (snd (saveTokens save_time true t' s)))
  /\ cachedTokens (snd (refresh_on_end refreshToken status
                          (Parsed tokenResponse) at_time save_time true s))
     = Some t'
  /\ file (snd (refresh_on_end refreshToken status (Parsed tokenResponse)
                               at_time save_time true s))
     = Some t'.
Proof.
  intros Hst Hlife Hnz t'.
  assert (Hrange : ((200 <=? status) && (status <? 300))%bool = true).
  { apply andb_true_intro. split; [apply Z.leb_le | apply Z.ltb_lt]; lia. }
  assert (Hkeep : forall u,
             expires_at u = Some (at_time + lifetime * 1000) ->
             saveTokens save_time true u s
             = (true, u,
                mkStorage (Some u) (configured s) (Some u) (sent s)
                          (S (writes s))
                          (log s ++
                           ["[TokenStorage] Tokens saved successfully"]))).
  { intros u Hu. unfold saveTokens. rewrite Hu. cbn [truthy_num].
    apply Z.eqb_neq in Hnz. rewrite Hnz. reflexivity. }
  unfold refresh_on_end. rewrite Hrange, Hlife. cbn [option_map].
  subst t'.
  destruct (truthy_ostr (refresh_token tokenResponse)) eqn:Hr;
    cbn [with_expires_at refresh_token]; rewrite Hr;
    rewrite Hkeep by reflexivity;
    (split; [reflexivity | split; reflexivity]).
Qed.

Lemma enhanced_is_rewritten before tokenResponse at_time lifetime :
  expires_in tokenResponse = Some lifetime ->
  rewritten before
    (if truthy_ostr (refresh_token tokenResponse)
     then with_expires_at (Some (at_time + lifetime * 1000)) tokenResponse
     else with_refresh_token (refresh_token before)
            (with_expires_at (Some (at_time + lifetime * 1000))
                             tokenResponse))
    (body_of tokenResponse) at_time lifetime.
Proof.
  intros Hlife. unfold rewritten, body_of.
  cbn [TokenStorage.rb_access_token TokenStorage.rb_refresh_token].
  destruct (truthy_ostr (refresh_token tokenResponse)) eqn:Hr;
    cbn [with_expires_at with_refresh_token expires_at access_token
         refresh_token].
  - split; [reflexivity|]. split; [reflexivity|].
    split; [discriminate|]. split; [reflexivity|].
    split.
    + intros old _. split.
      * intros Hlt. eexists. split; [reflexivity | exact Hlt].
      * intros (new & Hnew & Hlt). injection Hnew as <-. exact Hlt.
    + intros old _ Hold Hpos. eexists. split; [reflexivity | lia].
  - split; [reflexivity|]. split; [reflexivity|].
    split; [reflexivity|]. split; [discriminate|].
    split.
    + intros old _. split.
      * intros Hlt. eexists. split; [reflexivity | exact Hlt].
      * intros (new & Hnew & Hlt). injection Hnew as <-. exact Hlt.
    + intros old _ Hold Hpos. eexists. split; [reflexivity | lia].
Qed.

End EnhancedFacts.

(* ---------------------------------------------------------------------- *)
(** ** The credential store: the two implementations together              *)
(* ---------------------------------------------------------------------- *)

Module CredentialClaims.
Import Js.
Import TokenStorage(TokenSet, access_token, refresh_token, expires_in,
                    expires_at,
                    rb_access_token, rb_refresh_token, rb_expires_in,
                    TokenResponse, Json, mkTokenRequest, mkBody,
                    now, token_endpoint, write_ok, Done, Waiting,
                    Resolved, Rejected, SaveFailed, refreshed, rewritten,
                    top, legacy_doc, token_a, token_b, token_c, granting,
                    one_account, token_without_access, account_without_access,
                    token_without_expiry, account_without_expiry).




(** C7 as stated fails, in both implementations: the endpoint grants the
    refresh, the write of the token file fails, and the caller of the
    refresh gets null (token-manager.js) or a rejection (token-storage.js),
    not the new access token. *)
Lemma failed_write_fails_refresh :
  (let s := TokenManager.fresh_state (Some token_b) (Some token_b) in
   let '(out, s') := TokenManager.refreshAccessToken (granting 5000000 false) s in
   TokenManager.sent s' = [mkTokenRequest "refresh_token" "refresh-b"]
   /\ out = Done None)
  /\ (let s := TokenStorage.fresh_store (Some (legacy_doc token_b))
                                        (Some (legacy_doc token_b)) in
      let '(out, s') := TokenStorage.refreshAccessToken (granting 5000000 false) s in
      TokenStorage.sent s' = [mkTokenRequest "refresh_token" "refresh-b"]
      /\ out = Done (Rejected SaveFailed)).
Proof. vm_compute. repeat split; reflexivity. Qed.

(** C7, as the code has it. When the endpoint grants the refresh and the
    write of the token file fails, the token set in memory already holds
    the new access token and the file keeps its old content, the failure
    to save is logged under a message of its own, and the refresh itself
    fails toward its caller: it resolves with null in token-manager.js and
    is rejected in token-storage.js. *)
Theorem failed_write_keeps_memory_fails_caller :
  (forall env s t r status b,
      TokenManager.cachedTokens s = Some t ->
      refresh_token t = Some r ->
      truthy_str r = true ->
      TokenManager.refreshPromise s = None ->
      token_endpoint env (TokenManager.sent s)
                     (mkTokenRequest "refresh_token" r)
        = TokenResponse status (Json b) ->
      200 <= status < 300 ->
      write_ok env (TokenManager.writes s) = false ->
      let out := fst (TokenManager.refreshAccessToken env s) in
      let s' := snd (TokenManager.refreshAccessToken env s) in
      out = Done None
      /\ (exists t', TokenManager.cachedTokens s' = Some t'
                     /\ access_token t' = rb_access_token b)
      /\ TokenManager.file s' = TokenManager.file s
      /\ In "[DEBUG] Failed to save refreshed tokens" (TokenManager.log s')
      /\ TokenManager.refreshPromise s' = None)
  /\ (forall env s d r status b,
      TokenStorage.tokens s = Some d ->
      refresh_token (top d) = Some r ->
      truthy_str r = true ->
      TokenStorage.refreshPromise s = None ->
      token_endpoint env (TokenStorage.sent s)
                     (mkTokenRequest "refresh_token" r)
        = TokenResponse status (Json b) ->
      200 <= status < 300 ->
      write_ok env (TokenStorage.writes s) = false ->
      let out := fst (TokenStorage.refreshAccessToken env s) in
      let s' := snd (TokenStorage.refreshAccessToken env s) in
      out = Done (Rejected SaveFailed)
      /\ (exists d', TokenStorage.tokens s' = Some d'
                     /\ access_token (top d') = rb_access_token b)
      /\ TokenStorage.file s' = TokenStorage.file s
      /\ In "Failed to save refreshed tokens:" (TokenStorage.log s')
      /\ TokenStorage.refreshPromise s' = None).
Proof.
  split.
  - intros env s t r status b Hmem Hr Htr Hslot Hreply Hst Hwrite.
    pose proof (ManagerFacts.manager_refresh_granted env s t r status b
                  Hmem Hr Htr Hslot Hreply Hst) as H.
    cbv zeta in H. rewrite Hwrite in H.
    destruct (TokenManager.refreshAccessToken env s) as [out s'].
    destruct H as (Hcache & _ & Hp & Hout & Hfile & Hlog).
    cbn [fst snd]. split; [assumption|]. split.
    + eexists. split; [exact Hcache|reflexivity].
    + auto.
  - intros env s d r status b Hmem Hr Htr Hslot Hreply Hst Hwrite.
    pose proof (CredentialFacts.refresh_granted env s d r status b
                  Hmem Hr Htr Hslot Hreply Hst) as H.
    cbv zeta in H. rewrite Hwrite in H.
    destruct (TokenStorage.refreshAccessToken env s) as [out s'].
    destruct H as (Htok & _ & Hp & Hout & Hfile & Hlog).
    cbn [fst snd]. split; [assumption|]. split.
    + eexists. split; [exact Htok|reflexivity].
    + auto.
Qed.

Lemma failed_write_keeps_memory_fails_caller_witness :
  fst (TokenManager.refreshAccessToken (granting 5000000 false)
         (TokenManager.fresh_state (Some token_b) (Some token_b)))
  = Done None
  /\ fst (TokenStorage.refreshAccessToken (granting 5000000 false)
            (TokenStorage.fresh_store (Some (legacy_doc token_b))
                                      (Some (legacy_doc token_b))))
     = Done (Rejected SaveFailed).
Proof.
  split.
  - exact (proj1 (proj1 failed_write_keeps_memory_fails_caller
                    (granting 5000000 false)
                    (TokenManager.fresh_state (Some token_b) (Some token_b))
                    token_b "refresh-b" 200
                    (mkBody (Some "access-new") None (Some 3600) None)
                    eq_refl eq_refl eq_refl eq_refl eq_refl
                    CredentialFacts.status_200_granted eq_refl)).
  - exact (proj1 (proj2 failed_write_keeps_memory_fails_caller
                    (granting 5000000 false)
                    (TokenStorage.fresh_store (Some (legacy_doc token_b))
                                              (Some (legacy_doc token_b)))
                    (legacy_doc token_b) "refresh-b" 200
                    (mkBody (Some "access-new") None (Some 3600) None)
                    eq_refl eq_refl eq_refl eq_refl eq_refl
                    CredentialFacts.status_200_granted eq_refl)).
Defined.

(** A token that is due and has no refresh token: the attempt is logged,
    no request leaves, and the result is null. *)
Example due_token_without_refresh_token :
  (let s := TokenStorage.fresh_store (Some one_account) (Some one_account) in
   let '(r, s') := TokenStorage.getValidAccessToken (granting 5000000 true) s in
   TokenStorage.selected one_account = Some token_c
   /\ r = Done None
   /\ TokenStorage.sent s' = []
   /\ In (TokenStorage.attempt_for "c@x.com") (TokenStorage.log s'))
  /\ (let s := TokenManager.fresh_state (Some token_c) (Some token_c) in
      let '(r, s') := TokenManager.getAccessToken (granting 5000000 true) s in
      TokenManager.tokens_at_hand s = Some token_c
      /\ r = Done None
      /\ TokenManager.sent s' = []).
Proof. vm_compute. repeat split; auto. Qed.

(** C3 as stated fails, twice. An account is registered and active, its
    token set has no access token: the result is null although no refresh
    is attempted (the expiry is not looked at, the clock is not read,
    nothing is sent, and the one line logged is the one of the missing
    access token). And an active account whose token set records no expiry
    gets its stored access token back, without a refresh, although no
    expiry lies ahead of the buffer. *)
Lemma null_for_token_set_without_access_token :
  (let s := TokenStorage.fresh_store (Some account_without_access)
                                     (Some account_without_access) in
   let '(r, s') := TokenStorage.getValidAccessToken (granting 5000000 true) s in
   fst (TokenStorage.getAllAccounts s) = ["e@x.com"]
   /\ TokenStorage.activeAccount account_without_access = Some "e@x.com"
   /\ TokenStorage.selected account_without_access
      = Some token_without_access
   /\ r = Done None
   /\ TokenStorage.sent s' = []
   /\ TokenStorage.ticks s' = 0%nat
   /\ TokenStorage.refreshPromise s' = None
   /\ TokenStorage.log s' = ["No access token for active account"])
  /\ (let s := TokenStorage.fresh_store (Some account_without_expiry)
                                        (Some account_without_expiry) in
      let '(r, s') :=
        TokenStorage.getValidAccessToken (granting 5000000 true) s in
      TokenStorage.selected account_without_expiry
      = Some token_without_expiry
      /\ expires_at token_without_expiry = None
      /\ r = Done (Some "access-f")
      /\ TokenStorage.sent s' = []
      /\ TokenStorage.log s' = []).
Proof. vm_compute. repeat split; reflexivity. Qed.

(** A call that finds a refresh in flight sends nothing and gets what that
    refresh settles with; a rejection is caught and gives null. *)
Example joined_refresh_decides :
  let s := TokenStorage.mkStore (Some (legacy_doc token_b)) (Some 0%nat)
             (Some (legacy_doc token_b))
             [mkTokenRequest "refresh_token" "refresh-b"] 0 0 [] in
  let r := fst (TokenStorage.getValidAccessToken (granting 5000000 true) s) in
  r = Waiting 0%nat
  /\ TokenStorage.delivered (Resolved (Some "access-new")) r
     = Some "access-new"
  /\ TokenStorage.delivered (Rejected SaveFailed) r = None
  /\ TokenStorage.sent
       (snd (TokenStorage.getValidAccessToken (granting 5000000 true) s))
     = [mkTokenRequest "refresh_token" "refresh-b"].
Proof. vm_compute. repeat split; reflexivity. Qed.

(** C3, as the code has it. What a call gives its caller in the end, a
    call that joins a refresh in flight included. In token-storage.js,
    for a store whose selected token set records its expiry where the
    source compares with it, the result is null exactly when no tokens
    are stored, or no token set is selected (in the multi-account form: no
    active account, or one that is no key of accounts), or the selected
    token set has no access token, or a refresh was attempted and failed:
    the token is due and either has no refresh token, in which case no
    request is sent, or the refresh gives no token. A token that is
    returned is either the stored one, whose expiry then lies more than
    the buffer ahead, or the one the refresh has given. In
    token-manager.js the same holds for the cached token set, with a
    missing expiry read as 0. With no refresh in flight the call returns
    without waiting. *)
Theorem getValidAccessToken_null_iff :
  (forall env pending s,
      TokenStorage.expiry_recorded s = true ->
      let at_time := now env (TokenStorage.ticks s) in
      let r := TokenStorage.delivered pending
                 (fst (TokenStorage.getValidAccessToken env s)) in
      (TokenStorage.refreshPromise s = None ->
       fst (TokenStorage.getValidAccessToken env s) = Done r)
      /\ (r = None <->
          TokenStorage.stored s = None
          \/ exists d,
               TokenStorage.stored s = Some d
               /\ (TokenStorage.selected d = None
                   \/ exists t,
                        TokenStorage.selected d = Some t
                        /\ (truthy_ostr (access_token t) = false
                            \/ (TokenStorage.due d t at_time = true
                                /\ (truthy_ostr (refresh_token t) = false
                                    \/ TokenStorage.refresh_gives env pending s
                                       = None)))))
      /\ (forall v,
            r = Some v ->
            exists d t,
              TokenStorage.stored s = Some d
              /\ TokenStorage.selected d = Some t
              /\ ((TokenStorage.due d t at_time = false
                   /\ access_token t = Some v
                   /\ exists e, expires_at t = Some e
                                /\ at_time + TokenStorage.refreshTokenBuffer
                                   < e)
                  \/ (TokenStorage.due d t at_time = true
                      /\ truthy_ostr (refresh_token t) = true
                      /\ TokenStorage.refresh_gives env pending s = Some v)))
      /\ (forall d t,
            TokenStorage.stored s = Some d ->
            TokenStorage.selected d = Some t ->
            truthy_ostr (refresh_token t) = false ->
            TokenStorage.sent (snd (TokenStorage.getValidAccessToken env s))
            = TokenStorage.sent s))
  /\ (forall env pending s,
      let at_time := now env (TokenManager.ticks s) in
      let r := TokenManager.delivered pending
                 (fst (TokenManager.getAccessToken env s)) in
      (TokenManager.refreshPromise s = None ->
       fst (TokenManager.getAccessToken env s) = Done r)
      /\ (r = None <->
          TokenManager.tokens_at_hand s = None
          \/ exists t,
               TokenManager.tokens_at_hand s = Some t
               /\ ((TokenManager.due t at_time = false
                    /\ access_token t = None)
                   \/ (TokenManager.due t at_time = true
                       /\ TokenManager.refresh_gives env pending s = None)))
      /\ (forall v,
            r = Some v ->
            exists t,
              TokenManager.tokens_at_hand s = Some t
              /\ ((TokenManager.due t at_time = false
                   /\ access_token t = Some v
                   /\ at_time + TokenManager.refreshBuffer
                      < TokenManager.expiry_or_zero t)
                  \/ (TokenManager.due t at_time = true
                      /\ TokenManager.refresh_gives env pending s = Some v)))
      /\ (TokenManager.refreshPromise s = None ->
          forall t,
            TokenManager.tokens_at_hand s = Some t ->
            truthy_ostr (refresh_token t) = false ->
            TokenManager.refresh_gives env pending s = None
            /\ TokenManager.sent (snd (TokenManager.getAccessToken env s))
               = TokenManager.sent s)).
Proof.
  split; [exact CredentialFacts.storage_null_iff|].
  intros env pending s at_time r. subst r.
  rewrite (ManagerFacts.getAccessToken_outcome env pending s).
  split.
  { intros Hslot.
    pose proof (ManagerFacts.getAccessToken_outcome env pending s) as Hout.
    rewrite (ManagerFacts.getAccessToken_decision env s Hslot) in *.
    cbn [TokenManager.delivered] in Hout. rewrite Hout. reflexivity. }
  unfold TokenManager.outcome. fold at_time.
  split; [|split].
  - destruct (TokenManager.tokens_at_hand s) as [t|] eqn:Hhand; [|tauto].
    destruct (TokenManager.due t at_time) eqn:Hdue.
    + split.
      * intros Hy. right. exists t. split; [reflexivity|]. right. auto.
      * intros [H|(t' & [= <-] & [(H & _)|(_ & H)])];
          try discriminate; congruence.
    + split.
      * intros Hnone. right. exists t. split; [reflexivity|]. left. auto.
      * intros [H|(t' & [= <-] & [(_ & H)|(H & _)])];
          try discriminate; congruence.
  - intros v.
    destruct (TokenManager.tokens_at_hand s) as [t|] eqn:Hhand;
      [|discriminate].
    destruct (TokenManager.due t at_time) eqn:Hdue.
    + intros Hy. exists t. split; [reflexivity|]. right. auto.
    + intros Hv. exists t. split; [reflexivity|]. left.
      split; [exact Hdue|]. split; [exact Hv|].
      unfold TokenManager.due in Hdue. apply Z.leb_gt in Hdue. lia.
  - intros Hslot t Hhand Hrt. split.
    + exact (ManagerFacts.manager_gives_none_without_token env pending s t
               Hslot Hhand Hrt).
    + exact (ManagerFacts.manager_no_refresh_token_no_request env s t
               Hslot Hhand Hrt).
Qed.

Lemma getValidAccessToken_null_iff_witness :
  (exists d t,
      TokenStorage.stored
        (TokenStorage.fresh_store None (Some (legacy_doc token_b))) = Some d
      /\ TokenStorage.selected d = Some t
      /\ ((TokenStorage.due d t 5000000 = false
           /\ access_token t = Some "access-new"
           /\ exists e, expires_at t = Some e
                        /\ 5000000 + TokenStorage.refreshTokenBuffer < e)
          \/ (TokenStorage.due d t 5000000 = true
              /\ truthy_ostr (refresh_token t) = true
              /\ TokenStorage.refresh_gives (granting 5000000 true)
                   (Rejected SaveFailed)
                   (TokenStorage.fresh_store None (Some (legacy_doc token_b)))
                 = Some "access-new")))
  /\ (exists t,
        TokenManager.tokens_at_hand
          (TokenManager.fresh_state None (Some token_a)) = Some t
        /\ ((TokenManager.due t 5000000 = false
             /\ access_token t = Some "access-a"
             /\ 5000000 + TokenManager.refreshBuffer
                < TokenManager.expiry_or_zero t)
            \/ (TokenManager.due t 5000000 = true
                /\ TokenManager.refresh_gives (granting 5000000 true) None
                     (TokenManager.fresh_state None (Some token_a))
                   = Some "access-a"))).
Proof.
  split.
  - exact (proj1 (proj2 (proj2
             (proj1 getValidAccessToken_null_iff (granting 5000000 true)
                (Rejected SaveFailed)
                (TokenStorage.fresh_store None (Some (legacy_doc token_b)))
                eq_refl)))
             "access-new" eq_refl).
  - exact (proj1 (proj2 (proj2
             (proj2 getValidAccessToken_null_iff (granting 5000000 true)
                None
                (TokenManager.fresh_state None (Some token_a)))))
             "access-a" eq_refl).
Defined.

End CredentialClaims.

(* ---------------------------------------------------------------------- *)
(** ** Concurrent refreshes: the two implementations together               *)
(* ---------------------------------------------------------------------- *)

Module RefreshGuard.
Import Js.



(** Three calls to the module of token-manager.js while one request is on
    its way, then the response: one request, one value for all three. *)
Example manager_three_callers_one_request :
  let s := TokenManager.fresh_state (Some TokenStorage.token_b)
                                    (Some TokenStorage.token_b) in
  option_map
    (fun m => (TokenManager.sent (ManagerFlight.state m),
               ManagerFlight.delivered m,
               TokenManager.refreshPromise (ManagerFlight.state m)))
    (ManagerFlight.run (ManagerFlight.at_rest s)
       [ManagerFlight.Call 1; ManagerFlight.Call 2; ManagerFlight.Call 3;
        ManagerFlight.ResponseEnd 0 200
          (TokenStorage.Json
             (TokenStorage.mkBody (Some "access-new") None (Some 3600) None))
          5000000 true])
  = Some ([TokenStorage.mkTokenRequest "refresh_token" "refresh-b"],
          [(1%nat, Some "access-new"); (2%nat, Some "access-new");
           (3%nat, Some "access-new")],
          None).
Proof. vm_compute. reflexivity. Qed.

End RefreshGuard.
(* ====================================================================== *)
(** * Further properties of the client and of the credential stores         *)
(* ====================================================================== *)

(* ---------------------------------------------------------------------- *)
(** ** The paginated client: test mode, failures, cursors                   *)
(* ---------------------------------------------------------------------- *)

Module GraphClientFacts.
Import Js Http Pages Requests.

Lemma simulated_call env accessToken method path data queryParams t :
  test_mode env accessToken = true ->
  exists r e,
    GraphApi.callGraphAPI env accessToken method path data queryParams t
    = (r, t ++ [e])
    /\ is_simulated e = true
    /\ r <> Diverge
    /\ (forall j, r = Ok j -> event_response e = Some j).
Proof.
  intros Hmode. unfold GraphApi.callGraphAPI.
  unfold test_mode in Hmode. rewrite Hmode. unfold simulate.
  destruct (simulateGraphAPIResponse env t method path data queryParams)
    as [j|]; eexists _, _;
    (split; [reflexivity|]; split; [reflexivity|]; split; [discriminate|]).
  - intros j' [= <-]. reflexivity.
  - discriminate.
Qed.

Lemma simulated_pages env accessToken method maxCount :
  test_mode env accessToken = true ->
  forall fuel st t,
    exists r evs,
      GraphApi.paginate env accessToken method maxCount fuel st t
      = (r, t ++ evs)
      /\ forallb is_simulated evs = true.
Proof.
  intros Hmode. induction fuel as [|fuel IH]; intros st t.
  { exists Diverge, []. rewrite app_nil_r. split; reflexivity. }
  rewrite PaginationFacts.paginate_bind.
  destruct (Nat.ltb MAX_PAGINATION_PAGES (S (GraphApi.pageCount st))).
  { eexists _, []. rewrite app_nil_r. split; reflexivity. }
  destruct (simulated_call env accessToken method (GraphApi.currentUrl st)
              None (GraphApi.currentParams st) t Hmode)
    as (r & e & Hcall & Hsim & _ & _).
  rewrite Hcall.
  destruct r as [response|err|].
  - destruct (PaginationFacts.after_page_cases env accessToken method
                maxCount fuel st response (t ++ [e]))
      as [[_ Hc]|[Hc|(nextLink & _ & _ & _ & Hc)]]; rewrite Hc; clear Hc.
    + eexists _, [e]. split; [reflexivity|].
      cbn [forallb]. rewrite Hsim. reflexivity.
    + eexists _, [e]. split; [reflexivity|].
      cbn [forallb]. rewrite Hsim. reflexivity.
    + destruct (IH (GraphApi.mkLoop
                      (GraphApi.push_page (GraphApi.allItems st) response)
                      nextLink [] (S (GraphApi.pageCount st))) (t ++ [e]))
        as (r' & evs' & Hrun & Hall).
      exists r', (e :: evs'). rewrite Hrun, <- app_assoc.
      split; [reflexivity|]. cbn [forallb]. rewrite Hsim, Hall. reflexivity.
  - eexists _, [e]. split; [reflexivity|].
    cbn [forallb]. rewrite Hsim. reflexivity.
  - eexists _, [e]. split; [reflexivity|].
    cbn [forallb]. rewrite Hsim. reflexivity.
Qed.

Lemma legacy_simulated_call env accessToken method path data queryParams w :
  test_mode env accessToken = true ->
  exists r evs,
    GraphApiLegacy.callGraphAPI env accessToken method path data queryParams w
    = (r, GraphApiLegacy.mkWorld (GraphApiLegacy.exchanges w ++ evs)
                                 (GraphApiLegacy.heap w))
    /\ forallb is_simulated evs = true.
Proof.
  intros Hmode. unfold GraphApiLegacy.callGraphAPI.
  unfold test_mode in Hmode. rewrite Hmode.
  unfold GraphApiLegacy.lbind, GraphApiLegacy.read.
  destruct (nth_error (GraphApiLegacy.heap w) queryParams) as [o|].
  - rewrite LegacyPaginationFacts.lift_run. unfold simulate.
    cbn [fst snd GraphApiLegacy.exchanges GraphApiLegacy.heap].
    eexists _, [_]. split; [reflexivity|]. reflexivity.
  - exists (Throw TypeError), []. rewrite app_nil_r.
    destruct w. split; reflexivity.
Qed.

Lemma legacy_simulated_pages env accessToken method maxCount :
  test_mode env accessToken = true ->
  forall fuel st w,
    exists r evs extra,
      GraphApiLegacy.paginate env accessToken method maxCount fuel st w
      = (r, GraphApiLegacy.mkWorld (GraphApiLegacy.exchanges w ++ evs)
                                   (GraphApiLegacy.heap w ++ extra))
      /\ forallb is_simulated evs = true.
Proof.
  intros Hmode. induction fuel as [|fuel IH]; intros st w.
  { exists Diverge, [], []. rewrite !app_nil_r. destruct w.
    split; reflexivity. }
  rewrite LegacyPaginationFacts.legacy_paginate_bind.
  destruct (legacy_simulated_call env accessToken method
              (GraphApiLegacy.currentUrl st) None
              (GraphApiLegacy.currentParams st) w Hmode)
    as (r & evs & Hcall & Hsim).
  rewrite Hcall.
  destruct r as [response|err|].
  - destruct (LegacyPaginationFacts.legacy_after_page_cases env accessToken
                method maxCount fuel st response
                (GraphApiLegacy.mkWorld (GraphApiLegacy.exchanges w ++ evs)
                                        (GraphApiLegacy.heap w)))
      as [[_ Hc]|[Hc|(nextLink & _ & _ & _ & Hc)]]; rewrite Hc; clear Hc.
    + exists (Throw TypeError), evs, []. rewrite app_nil_r. auto.
    + eexists _, evs, []. rewrite app_nil_r. auto.
    + cbn [GraphApiLegacy.exchanges GraphApiLegacy.heap].
      match goal with
      | |- context [GraphApiLegacy.paginate _ _ _ _ _ ?st' ?w'] =>
          destruct (IH st' w') as (r' & evs' & extra & Hrun & Hall)
      end.
      rewrite Hrun. cbn [GraphApiLegacy.exchanges GraphApiLegacy.heap].
      exists r', (evs ++ evs'), ([[]] ++ extra).
      rewrite !app_assoc. split; [reflexivity|].
      rewrite forallb_app, Hsim, Hall. reflexivity.
  - exists (Throw err), evs, []. rewrite app_nil_r. auto.
  - exists Diverge, evs, []. rewrite app_nil_r. auto.
Qed.

(** X1. In test mode (USE_TEST_MODE set and a token that starts with
    test_access_token_) a paginated call never reaches the network: every
    exchange it makes is a call of the simulator, in both revisions; in the
    revision that edits its argument the client leaves the objects that
    existed before the call, the caller's queryParams among them, as they
    were (the simulator of utils/mock-data.js only answers). *)
Theorem test_mode_never_reaches_the_network :
  (forall env fuel accessToken method path queryParams maxCount t,
      test_mode env accessToken = true ->
      exists r evs,
        GraphApi.callGraphAPIPaginated env fuel accessToken method path
                                       queryParams maxCount t
        = (r, t ++ evs)
        /\ forallb is_simulated evs = true)
  /\ (forall env fuel accessToken method path queryParams maxCount w,
        test_mode env accessToken = true ->
        exists r evs extra,
          GraphApiLegacy.callGraphAPIPaginated env fuel accessToken method
                                               path queryParams maxCount w
          = (r, GraphApiLegacy.mkWorld
                  (GraphApiLegacy.exchanges w ++ evs)
                  (GraphApiLegacy.heap w ++ extra))
          /\ forallb is_simulated evs = true).
Proof.
  split.
  - intros env fuel accessToken method path queryParams maxCount t Hmode.
    unfold GraphApi.callGraphAPIPaginated.
    destruct (negb (String.eqb method "GET")).
    { exists (Throw UnsupportedMethod), []. rewrite app_nil_r.
      split; reflexivity. }
    unfold bind.
    destruct (simulated_pages env accessToken method maxCount Hmode fuel
                (GraphApi.mkLoop [] (JStr path) queryParams 0) t)
      as (r & evs & Hrun & Hall).
    rewrite Hrun.
    destruct r; eexists _, evs; (split; [reflexivity|exact Hall]).
  - intros env fuel accessToken method path queryParams maxCount w Hmode.
    unfold GraphApiLegacy.callGraphAPIPaginated.
    destruct (negb (String.eqb method "GET")).
    { exists (Throw UnsupportedMethod), [], []. rewrite !app_nil_r.
      destruct w. split; reflexivity. }
    unfold GraphApiLegacy.lbind.
    destruct (legacy_simulated_pages env accessToken method maxCount Hmode
                fuel (GraphApiLegacy.mkLoop [] (JStr path) queryParams) w)
      as (r & evs & extra & Hrun & Hall).
    rewrite Hrun.
    destruct r; eexists _, evs, extra; (split; [reflexivity|exact Hall]).
Qed.

Lemma test_mode_never_reaches_the_network_witness :
  (exists r evs,
      GraphApi.callGraphAPIPaginated mock_env 50 "test_access_token_17"
        "GET" "me/messages" [("$top", "10")] 25 []
      = (r, [] ++ evs)
      /\ forallb is_simulated evs = true)
  /\ (exists r evs extra,
        GraphApiLegacy.callGraphAPIPaginated mock_env 50
          "test_access_token_17" "GET" "me/messages" 0%nat 25
          (GraphApiLegacy.mkWorld [] [[("$filter", "isRead eq false")]])
        = (r, GraphApiLegacy.mkWorld
                ([] ++ evs) ([[("$filter", "isRead eq false")]] ++ extra))
        /\ forallb is_simulated evs = true).
Proof.
  split.
  - exact (proj1 test_mode_never_reaches_the_network mock_env 50%nat
             "test_access_token_17" "GET" "me/messages" [("$top", "10")] 25
             [] eq_refl).
  - exact (proj2 test_mode_never_reaches_the_network mock_env 50%nat
             "test_access_token_17" "GET" "me/messages" 0%nat 25
             (GraphApiLegacy.mkWorld [] [[("$filter", "isRead eq false")]])
             eq_refl).
Defined.

(** The exchanges before the last one of a call are none, and a call that
    hands back a value has made an exchange that delivered it. *)
Lemma removelast_short {A : Type} (l : list A) :
  (List.length l <= 1)%nat -> removelast l = [].
Proof.
  destruct l as [|x [|y l]]; cbn [List.length removelast]; intros H;
    [reflexivity|reflexivity|lia].
Qed.

Lemma responded_iff e j : event_response e = Some j -> responded e = true.
Proof. unfold responded. intros ->. reflexivity. Qed.

Lemma paginate_stops_at_failure env accessToken method maxCount :
  forall fuel st t,
    exists r evs,
      GraphApi.paginate env accessToken method maxCount fuel st t
      = (r, t ++ evs)
      /\ forallb responded (removelast evs) = true
      /\ (forall items, r = Ok items -> forallb responded evs = true)
      /\ (forallb responded evs = false -> exists e, r = Throw e).
Proof.
  induction fuel as [|fuel IH]; intros st t.
  { exists Diverge, []. rewrite app_nil_r.
    split; [reflexivity|]. split; [reflexivity|].
    split; [discriminate|discriminate]. }
  rewrite PaginationFacts.paginate_bind.
  destruct (Nat.ltb MAX_PAGINATION_PAGES (S (GraphApi.pageCount st))).
  { eexists _, []. rewrite app_nil_r.
    split; [reflexivity|]. split; [reflexivity|].
    split; [reflexivity|discriminate]. }
  destruct (PaginationFacts.callGraphAPI_exchange env accessToken method
              (GraphApi.currentUrl st) None (GraphApi.currentParams st) t)
    as (r & evs & Hcall & Hnd & Hlen & Hok).
  rewrite Hcall.
  destruct r as [response|err|]; [|clear Hok|congruence].
  - destruct (Hok response eq_refl) as (e & -> & He).
    pose proof (responded_iff e response He) as Hre.
    destruct (PaginationFacts.after_page_cases env accessToken method
                maxCount fuel st response (t ++ [e]))
      as [[_ Hc]|[Hc|(nextLink & _ & _ & _ & Hc)]]; rewrite Hc; clear Hc.
    + eexists _, [e]. split; [reflexivity|]. split; [reflexivity|].
      split; [discriminate|]. cbn [forallb]. rewrite Hre. discriminate.
    + eexists _, [e]. split; [reflexivity|]. split; [reflexivity|].
      cbn [forallb]. rewrite Hre. split; [reflexivity|discriminate].
    + destruct (IH (GraphApi.mkLoop
                      (GraphApi.push_page (GraphApi.allItems st) response)
                      nextLink [] (S (GraphApi.pageCount st))) (t ++ [e]))
        as (r' & evs' & Hrun & Hinit & Hall & Hfail).
      exists r', (e :: evs'). rewrite Hrun, <- app_assoc.
      split; [reflexivity|].
      split.
      { destruct evs' as [|e' evs'']; [reflexivity|].
        change (removelast (e :: e' :: evs''))
          with (e :: removelast (e' :: evs'')).
        cbn [forallb]. rewrite Hre, Hinit. reflexivity. }
      cbn [forallb]. rewrite Hre. cbn [andb].
      split; [exact Hall|exact Hfail].
  - eexists _, evs. split; [reflexivity|].
    rewrite (removelast_short evs Hlen).
    split; [reflexivity|]. split; [discriminate|]. intros _. eauto.
Qed.

(** A call of the revision that edits its argument makes at most one
    exchange. *)
Lemma legacy_call_short env accessToken method path data queryParams w :
  exists r evs w',
    GraphApiLegacy.callGraphAPI env accessToken method path data queryParams w
    = (r, w')
    /\ GraphApiLegacy.exchanges w' = GraphApiLegacy.exchanges w ++ evs
    /\ (List.length evs <= 1)%nat
    /\ r <> Diverge
    /\ (forall j, r = Ok j -> exists e, evs = [e] /\ event_response e = Some j).
Proof.
  unfold GraphApiLegacy.callGraphAPI.
  destruct (USE_TEST_MODE env && startsWith accessToken "test_access_token_")%bool.
  - unfold GraphApiLegacy.lbind, GraphApiLegacy.read.
    destruct (nth_error (GraphApiLegacy.heap w) queryParams) as [o|].
    + rewrite LegacyPaginationFacts.lift_run.
      destruct (PaginationFacts.simulate_settles env method path data o
                  (GraphApiLegacy.exchanges w)) as (r & e & -> & Hnd & Hok).
      exists r, [e]. eexists. split; [reflexivity|].
      cbn [fst snd GraphApiLegacy.exchanges List.length].
      split; [reflexivity|]. split; [lia|]. split; [exact Hnd|].
      intros j Hj. exists e. auto.
    + exists (Throw TypeError), [], w. rewrite app_nil_r.
      cbn [List.length].
      split; [reflexivity|]. split; [reflexivity|]. split; [lia|].
      split; discriminate.
  - destruct path as [| | |p| |];
      try (exists (Throw TypeError), [], w; rewrite app_nil_r;
           cbn [List.length];
           split; [reflexivity|]; split; [reflexivity|]; split; [lia|];
           split; discriminate).
    unfold GraphApiLegacy.final_url.
    destruct (startsWith p "http://" || startsWith p "https://")%bool.
    + unfold GraphApiLegacy.lbind at 1. unfold GraphApiLegacy.lret at 1.
      rewrite LegacyPaginationFacts.lift_run.
      set (req := mkRequest _ _ _ _).
      destruct (PaginationFacts.request_settles env req
                  (GraphApiLegacy.exchanges w)) as (r & -> & Hnd & Hok).
      exists r, [Exchange req (remote env (GraphApiLegacy.exchanges w) req)].
      eexists. split; [reflexivity|].
      cbn [fst snd GraphApiLegacy.exchanges List.length].
      split; [reflexivity|]. split; [lia|]. split; [exact Hnd|].
      intros j Hj. eexists. auto.
    + unfold GraphApiLegacy.lbind at 1. unfold GraphApiLegacy.lbind at 1.
      destruct (LegacyPaginationFacts.build_query_string_frame queryParams w)
        as (r0 & w0 & -> & Hex & Hlen & Hnd0 & _).
      destruct r0 as [qs|e|]; [| |congruence].
      * unfold GraphApiLegacy.lret at 1.
        rewrite LegacyPaginationFacts.lift_run, Hex.
        set (req := mkRequest _ _ _ _).
        destruct (PaginationFacts.request_settles env req
                    (GraphApiLegacy.exchanges w)) as (r & -> & Hnd & Hok).
        exists r, [Exchange req (remote env (GraphApiLegacy.exchanges w) req)].
        eexists. split; [reflexivity|].
        cbn [fst snd GraphApiLegacy.exchanges List.length].
        split; [reflexivity|]. split; [lia|]. split; [exact Hnd|].
        intros j Hj. eexists. auto.
      * exists (Throw e), [], w0. rewrite app_nil_r. cbn [List.length].
        split; [reflexivity|]. split; [exact Hex|]. split; [lia|].
        split; discriminate.
Qed.

Lemma legacy_paginate_stops_at_failure env accessToken method maxCount :
  forall fuel st w,
    exists r evs w',
      GraphApiLegacy.paginate env accessToken method maxCount fuel st w
      = (r, w')
      /\ GraphApiLegacy.exchanges w' = GraphApiLegacy.exchanges w ++ evs
      /\ forallb responded (removelast evs) = true
      /\ (forall items, r = Ok items -> forallb responded evs = true)
      /\ (forallb responded evs = false -> exists e, r = Throw e).
Proof.
  induction fuel as [|fuel IH]; intros st w.
  { exists Diverge, [], w. rewrite app_nil_r.
    split; [reflexivity|]. split; [reflexivity|]. split; [reflexivity|].
    split; discriminate. }
  rewrite LegacyPaginationFacts.legacy_paginate_bind.
  destruct (legacy_call_short env accessToken method
              (GraphApiLegacy.currentUrl st) None
              (GraphApiLegacy.currentParams st) w)
    as (r & evs & w1 & Hcall & Hex & Hlen & Hnd & Hok).
  rewrite Hcall.
  destruct r as [response|err|]; [|clear Hok|congruence].
  - destruct (Hok response eq_refl) as (e & -> & He).
    pose proof (responded_iff e response He) as Hre.
    destruct (LegacyPaginationFacts.legacy_after_page_cases env accessToken
                method maxCount fuel st response w1)
      as [[_ Hc]|[Hc|(nextLink & _ & _ & _ & Hc)]]; rewrite Hc; clear Hc.
    + eexists _, [e], w1. split; [reflexivity|]. split; [exact Hex|].
      split; [reflexivity|]. split; [discriminate|].
      cbn [forallb]. rewrite Hre. discriminate.
    + eexists _, [e], w1. split; [reflexivity|]. split; [exact Hex|].
      split; [reflexivity|]. cbn [forallb]. rewrite Hre.
      split; [reflexivity|discriminate].
    + match goal with
      | |- context [GraphApiLegacy.paginate _ _ _ _ _ ?st' ?w'] =>
          destruct (IH st' w')
            as (r' & evs' & w2 & Hrun & Hex' & Hinit & Hall & Hfail)
      end.
      cbn [GraphApiLegacy.exchanges] in Hex'.
      exists r', (e :: evs'), w2. rewrite Hrun.
      split; [reflexivity|].
      split; [rewrite Hex', Hex, <- app_assoc; reflexivity|].
      split.
      { destruct evs' as [|e' evs'']; [reflexivity|].
        change (removelast (e :: e' :: evs''))
          with (e :: removelast (e' :: evs'')).
        cbn [forallb]. rewrite Hre, Hinit. reflexivity. }
      cbn [forallb]. rewrite Hre. cbn [andb].
      split; [exact Hall|exact Hfail].
  - eexists _, evs, w1. split; [reflexivity|]. split; [exact Hex|].
    rewrite (removelast_short evs Hlen).
    split; [reflexivity|]. split; [discriminate|]. intros _. eauto.
Qed.

(** X2. A paginated call stops at the first exchange that fails: every
    exchange before the last one delivered a page; when the call returns
    a value every exchange delivered one; and when the last exchange
    delivered none (an error status, a body that does not parse, a network
    error) the call throws, so the items of the pages fetched before are
    not handed out. This holds in both revisions. *)
Theorem paginated_stops_at_first_failure
  env fuel accessToken path maxCount :
  (forall queryParams t,
      exists r evs,
        GraphApi.callGraphAPIPaginated env fuel accessToken "GET" path
                                       queryParams maxCount t
        = (r, t ++ evs)
        /\ forallb responded (removelast evs) = true
        /\ (forall v, r = Ok v -> forallb responded evs = true)
        /\ (forallb responded evs = false -> exists e, r = Throw e))
  /\ (forall queryParams w,
        exists r evs w',
          GraphApiLegacy.callGraphAPIPaginated env fuel accessToken "GET"
                                               path queryParams maxCount w
          = (r, w')
          /\ GraphApiLegacy.exchanges w' = GraphApiLegacy.exchanges w ++ evs
          /\ forallb responded (removelast evs) = true
          /\ (forall v, r = Ok v -> forallb responded evs = true)
          /\ (forallb responded evs = false -> exists e, r = Throw e)).
Proof.
  split.
  - intros queryParams t.
    unfold GraphApi.callGraphAPIPaginated.
    cbn [String.eqb Ascii.eqb Bool.eqb negb]. unfold bind.
    destruct (paginate_stops_at_failure env accessToken "GET" maxCount fuel
                (GraphApi.mkLoop [] (JStr path) queryParams 0) t)
      as (r & evs & Hrun & Hinit & Hall & Hfail).
    rewrite Hrun.
    destruct r as [items|err|].
    + eexists _, evs. split; [reflexivity|]. split; [exact Hinit|].
      split; [intros v _; exact (Hall items eq_refl)|].
      intros Hbad. destruct (Hfail Hbad) as [e He]. discriminate.
    + eexists _, evs. split; [reflexivity|]. split; [exact Hinit|].
      split; [discriminate|]. intros _. eauto.
    + eexists _, evs. split; [reflexivity|]. split; [exact Hinit|].
      split; [discriminate|]. intros Hbad.
      destruct (Hfail Hbad) as [e He]. discriminate.
  - intros queryParams w.
    unfold GraphApiLegacy.callGraphAPIPaginated.
    cbn [String.eqb Ascii.eqb Bool.eqb negb]. unfold GraphApiLegacy.lbind.
    destruct (legacy_paginate_stops_at_failure env accessToken "GET"
                maxCount fuel
                (GraphApiLegacy.mkLoop [] (JStr path) queryParams) w)
      as (r & evs & w' & Hrun & Hex & Hinit & Hall & Hfail).
    rewrite Hrun.
    destruct r as [items|err|].
    + eexists _, evs, w'. split; [reflexivity|]. split; [exact Hex|].
      split; [exact Hinit|].
      split; [intros v _; exact (Hall items eq_refl)|].
      intros Hbad. destruct (Hfail Hbad) as [e He]. discriminate.
    + eexists _, evs, w'. split; [reflexivity|]. split; [exact Hex|].
      split; [exact Hinit|]. split; [discriminate|]. intros _. eauto.
    + eexists _, evs, w'. split; [reflexivity|]. split; [exact Hex|].
      split; [exact Hinit|]. split; [discriminate|]. intros Hbad.
      destruct (Hfail Hbad) as [e He]. discriminate.
Qed.

(** A server that fails: one exchange, the error of the status, no items. *)
Example failing_page_throws :
  GraphApi.callGraphAPIPaginated (failing_env 503) 50 "token" "GET"
    "me/messages" [("$top", "10")] 25 []
  = (Throw (ApiFailed 503 (BodyMalformed "Service Unavailable")),
     [Exchange
        (mkRequest "https://graph.microsoft.com/v1.0/me/messages?%24top=10"
                   "GET" "token" None)
        (HttpReply 503 (BodyMalformed "Service Unavailable"))]).
Proof. vm_compute. reflexivity. Qed.

(** Outside test mode a call with a string path makes exactly one request,
    to the URL that the builder gives, with the method and the token as
    they were passed. *)
Lemma callGraphAPI_request env accessToken method p data queryParams t :
  test_mode env accessToken = false ->
  exists r req,
    GraphApi.callGraphAPI env accessToken method (JStr p) data queryParams t
    = (r, t ++ [Exchange req (remote env t req)])
    /\ req_url req = GraphApi.final_url p queryParams
    /\ req_method req = method
    /\ req_bearer req = accessToken
    /\ req_body req = (if (truthy_opt data && GraphApi.sends_body method)%bool
                       then data else None)
    /\ r <> Diverge
    /\ (forall j, r = Ok j ->
          event_response (Exchange req (remote env t req)) = Some j).
Proof.
  intros Hmode. unfold GraphApi.callGraphAPI.
  unfold test_mode in Hmode. rewrite Hmode.
  set (req := mkRequest _ _ _ _).
  destruct (PaginationFacts.request_settles env req t) as (r & -> & Hnd & Hok).
  exists r, req. repeat split; auto.
Qed.

Lemma absolute_final_url u queryParams :
  absolute u = true -> GraphApi.final_url u queryParams = u.
Proof.
  unfold absolute, GraphApi.final_url. intros ->. reflexivity.
Qed.

Lemma cursor_absolute_string j nextLink :
  cursor_absolute j = true ->
  get "@odata.nextLink" j = Some nextLink ->
  truthy nextLink = true ->
  exists u, nextLink = JStr u /\ absolute u = true.
Proof.
  unfold cursor_absolute. intros Hc Hget Ht. rewrite Hget in Hc.
  destruct nextLink as [|b|n|u|items|fields];
    try (rewrite Ht in Hc; discriminate).
  exists u. split; [reflexivity|].
  cbn [truthy] in Ht. rewrite Ht in Hc. exact Hc.
Qed.

Lemma paginate_chained env accessToken method maxCount :
  test_mode env accessToken = false ->
  absolute_cursors env ->
  forall fuel st t p,
    GraphApi.currentUrl st = JStr p ->
    exists r evs,
      GraphApi.paginate env accessToken method maxCount fuel st t
      = (r, t ++ evs)
      /\ chained (GraphApi.final_url p (GraphApi.currentParams st)) evs = true
      /\ forallb (plain_request accessToken method) evs = true.
Proof.
  intros Hmode Habs. induction fuel as [|fuel IH]; intros st t p Hp.
  { exists Diverge, []. rewrite app_nil_r. repeat split. }
  rewrite PaginationFacts.paginate_bind.
  destruct (Nat.ltb MAX_PAGINATION_PAGES (S (GraphApi.pageCount st))).
  { eexists _, []. rewrite app_nil_r. repeat split. }
  rewrite Hp.
  destruct (callGraphAPI_request env accessToken method p None
              (GraphApi.currentParams st) t Hmode)
    as (r & req & Hcall & Hurl & Hmeth & Htok & Hbody & Hnd & Hok).
  rewrite Hcall.
  set (e := Exchange req (remote env t req)) in *.
  assert (Hplain : plain_request accessToken method e = true).
  { unfold e, plain_request. rewrite Hmeth, Htok, Hbody.
    cbn [truthy_opt andb]. rewrite !String.eqb_refl. reflexivity. }
  assert (Hfirst : event_url e = Some (GraphApi.final_url p
                                         (GraphApi.currentParams st))).
  { unfold e. cbn [event_url]. rewrite Hurl. reflexivity. }
  assert (Hone : chained (GraphApi.final_url p (GraphApi.currentParams st))
                         [e] = true).
  { cbn [chained]. rewrite Hfirst, String.eqb_refl. reflexivity. }
  destruct r as [response|err|]; [| |congruence].
  - pose proof (Hok response eq_refl) as He.
    destruct (PaginationFacts.after_page_cases env accessToken method
                maxCount fuel st response (t ++ [e]))
      as [[_ Hc]|[Hc|(nextLink & Hget & Ht & _ & Hc)]]; rewrite Hc; clear Hc.
    + eexists _, [e]. split; [reflexivity|]. split; [exact Hone|].
      cbn [forallb]. rewrite Hplain. reflexivity.
    + eexists _, [e]. split; [reflexivity|]. split; [exact Hone|].
      cbn [forallb]. rewrite Hplain. reflexivity.
    + destruct (cursor_absolute_string response nextLink
                  (Habs t req response He) Hget Ht) as (u & -> & Hu).
      destruct (IH (GraphApi.mkLoop
                      (GraphApi.push_page (GraphApi.allItems st) response)
                      (JStr u) [] (S (GraphApi.pageCount st))) (t ++ [e]) u
                   eq_refl)
        as (r' & evs' & Hrun & Hchain & Hall).
      cbn [GraphApi.currentParams] in Hchain.
      rewrite (absolute_final_url u [] Hu) in Hchain.
      exists r', (e :: evs'). rewrite Hrun, <- app_assoc.
      split; [reflexivity|].
      split.
      * cbn [chained]. rewrite Hfirst, String.eqb_refl. cbn [andb].
        destruct evs' as [|e' evs'']; [reflexivity|].
        unfold event_cursor. rewrite He, Hget. exact Hchain.
      * cbn [forallb]. rewrite Hplain, Hall. reflexivity.
  - eexists _, [e]. split; [reflexivity|]. split; [exact Hone|].
    cbn [forallb]. rewrite Hplain. reflexivity.
Qed.

Lemma ten_env_absolute_cursors : absolute_cursors ten_env.
Proof.
  intros t req j. cbn. intros [= <-]. reflexivity.
Qed.

(** The URL and the request of a call in the revision that edits its
    argument. *)
Lemma legacy_final_url p queryParams w o :
  nth_error (GraphApiLegacy.heap w) queryParams = Some o ->
  exists url w0,
    GraphApiLegacy.final_url p queryParams w = (Ok url, w0)
    /\ GraphApiLegacy.exchanges w0 = GraphApiLegacy.exchanges w
    /\ (absolute p = true -> url = p /\ w0 = w).
Proof.
  intros Hread. unfold GraphApiLegacy.final_url.
  fold (absolute p). destruct (absolute p).
  - exists p, w. unfold GraphApiLegacy.lret. auto.
  - unfold GraphApiLegacy.lbind.
    destruct (QueryParamsFacts.build_query_string_heap queryParams w o Hread)
      as (qs & ->).
    unfold GraphApiLegacy.lret. eexists _, _.
    split; [reflexivity|]. split; [reflexivity|]. discriminate.
Qed.

Lemma legacy_call_request env accessToken method p data queryParams w o :
  test_mode env accessToken = false ->
  nth_error (GraphApiLegacy.heap w) queryParams = Some o ->
  exists r req w0,
    GraphApiLegacy.final_url p queryParams w = (Ok (req_url req), w0)
    /\ GraphApiLegacy.callGraphAPI env accessToken method (JStr p) data
                                   queryParams w
       = (r, GraphApiLegacy.mkWorld
               (GraphApiLegacy.exchanges w
                ++ [Exchange req (remote env (GraphApiLegacy.exchanges w) req)])
               (GraphApiLegacy.heap w0))
    /\ req_method req = method
    /\ req_bearer req = accessToken
    /\ req_body req = (if (truthy_opt data && GraphApi.sends_body method)%bool
                       then data else None)
    /\ r <> Diverge
    /\ (forall j, r = Ok j ->
          event_response
            (Exchange req (remote env (GraphApiLegacy.exchanges w) req))
          = Some j).
Proof.
  intros Hmode Hread. unfold GraphApiLegacy.callGraphAPI.
  unfold test_mode in Hmode. rewrite Hmode.
  destruct (legacy_final_url p queryParams w o Hread)
    as (url & w0 & Hurl & Hex & _).
  unfold GraphApiLegacy.lbind at 1. rewrite Hurl.
  rewrite LegacyPaginationFacts.lift_run, Hex.
  set (req := mkRequest url method accessToken _).
  destruct (PaginationFacts.request_settles env req
              (GraphApiLegacy.exchanges w)) as (r & -> & Hnd & Hok).
  exists r, req, w0. cbn [fst snd].
  split; [reflexivity|]. split; [reflexivity|].
  repeat split; auto.
Qed.

Lemma legacy_paginate_chained env accessToken method maxCount :
  test_mode env accessToken = false ->
  absolute_cursors env ->
  forall fuel st w p o,
    GraphApiLegacy.currentUrl st = JStr p ->
    nth_error (GraphApiLegacy.heap w) (GraphApiLegacy.currentParams st)
    = Some o ->
    exists r evs w' url,
      GraphApiLegacy.paginate env accessToken method maxCount fuel st w
      = (r, w')
      /\ GraphApiLegacy.exchanges w' = GraphApiLegacy.exchanges w ++ evs
      /\ fst (GraphApiLegacy.final_url p (GraphApiLegacy.currentParams st) w)
         = Ok url
      /\ chained url evs = true
      /\ forallb (plain_request accessToken method) evs = true.
Proof.
  intros Hmode Habs. induction fuel as [|fuel IH]; intros st w p o Hp Hread.
  { destruct (legacy_final_url p (GraphApiLegacy.currentParams st) w o Hread)
      as (url & w0 & Hurl & _).
    exists Diverge, [], w, url. rewrite app_nil_r, Hurl.
    repeat split. }
  rewrite LegacyPaginationFacts.legacy_paginate_bind. rewrite Hp.
  destruct (legacy_call_request env accessToken method p None
              (GraphApiLegacy.currentParams st) w o Hmode Hread)
    as (r & req & w0 & Hurl & Hcall & Hmeth & Htok & Hbody & Hnd & Hok).
  rewrite Hcall, Hurl. cbn [fst].
  set (e := Exchange req (remote env (GraphApiLegacy.exchanges w) req)) in *.
  assert (Hplain : plain_request accessToken method e = true).
  { unfold e, plain_request. rewrite Hmeth, Htok, Hbody.
    cbn [truthy_opt andb]. rewrite !String.eqb_refl. reflexivity. }
  assert (Hone : chained (req_url req) [e] = true).
  { unfold e. cbn [chained event_url]. rewrite String.eqb_refl.
    reflexivity. }
  destruct r as [response|err|]; [| |congruence].
  - pose proof (Hok response eq_refl) as He.
    destruct (LegacyPaginationFacts.legacy_after_page_cases env accessToken
                method maxCount fuel st response
                (GraphApiLegacy.mkWorld (GraphApiLegacy.exchanges w ++ [e])
                                        (GraphApiLegacy.heap w0)))
      as [[_ Hc]|[Hc|(nextLink & Hget & Ht & _ & Hc)]]; rewrite Hc; clear Hc.
    + eexists _, [e], _, _. split; [reflexivity|].
      split; [reflexivity|]. split; [reflexivity|]. split; [exact Hone|].
      cbn [forallb]. rewrite Hplain. reflexivity.
    + eexists _, [e], _, _. split; [reflexivity|].
      split; [reflexivity|]. split; [reflexivity|]. split; [exact Hone|].
      cbn [forallb]. rewrite Hplain. reflexivity.
    + destruct (cursor_absolute_string response nextLink
                  (Habs (GraphApiLegacy.exchanges w) req response He)
                  Hget Ht) as (u & -> & Hu).
      cbn [GraphApiLegacy.exchanges GraphApiLegacy.heap].
      match goal with
      | |- context [GraphApiLegacy.paginate _ _ _ _ _ ?st' ?w'] =>
          assert (Hfresh : nth_error (GraphApiLegacy.heap w')
                             (GraphApiLegacy.currentParams st') = Some []);
          [cbn [GraphApiLegacy.heap GraphApiLegacy.currentParams];
           rewrite nth_error_app2 by lia; rewrite Nat.sub_diag; reflexivity|];
          destruct (IH st' w' u [] eq_refl Hfresh)
            as (r' & evs' & w2 & url' & Hrun & Hex' & Hurl' & Hchain & Hall);
          destruct (legacy_final_url u (GraphApiLegacy.currentParams st') w'
                      [] Hfresh) as (url2 & w3 & Hurl2 & _ & Hsame)
      end.
      rewrite Hurl2 in Hurl'. cbn [fst] in Hurl'. injection Hurl' as <-.
      destruct (Hsame Hu) as (-> & _).
      cbn [GraphApiLegacy.exchanges] in Hex'.
      exists r', (e :: evs'), w2, (req_url req). rewrite Hrun.
      split; [reflexivity|].
      split; [rewrite Hex', <- app_assoc; reflexivity|].
      split; [reflexivity|].
      split.
      * cbn [chained]. unfold e at 1. cbn [event_url].
        rewrite String.eqb_refl. cbn [andb].
        destruct evs' as [|e' evs'']; [reflexivity|].
        unfold event_cursor. rewrite He, Hget. exact Hchain.
      * cbn [forallb]. rewrite Hplain, Hall. reflexivity.
  - eexists _, [e], _, _. split; [reflexivity|].
    split; [reflexivity|]. split; [reflexivity|]. split; [exact Hone|].
    cbn [forallb]. rewrite Hplain. reflexivity.
Qed.

(** X3. Outside test mode, against a server whose cursors are full URLs, a
    paginated call sends its first request to the URL built from the path
    and the query parameters and every later request to exactly the cursor
    that the page before it carried, unchanged, without the query
    parameters; every request is a GET with the caller's token and no
    body. This holds in both revisions. *)
Theorem pagination_follows_cursors env fuel accessToken path maxCount :
  test_mode env accessToken = false ->
  absolute_cursors env ->
  (forall queryParams t,
      exists r evs,
        GraphApi.callGraphAPIPaginated env fuel accessToken "GET" path
                                       queryParams maxCount t
        = (r, t ++ evs)
        /\ chained (GraphApi.final_url path queryParams) evs = true
        /\ forallb (plain_request accessToken "GET") evs = true)
  /\ (forall queryParams w o,
        nth_error (GraphApiLegacy.heap w) queryParams = Some o ->
        exists r evs w' url,
          GraphApiLegacy.callGraphAPIPaginated env fuel accessToken "GET"
                                               path queryParams maxCount w
          = (r, w')
          /\ GraphApiLegacy.exchanges w' = GraphApiLegacy.exchanges w ++ evs
          /\ fst (GraphApiLegacy.final_url path queryParams w) = Ok url
          /\ chained url evs = true
          /\ forallb (plain_request accessToken "GET") evs = true).
Proof.
  intros Hmode Habs. split.
  - intros queryParams t. unfold GraphApi.callGraphAPIPaginated.
    cbn [String.eqb Ascii.eqb Bool.eqb negb]. unfold bind.
    destruct (paginate_chained env accessToken "GET" maxCount Hmode Habs fuel
                (GraphApi.mkLoop [] (JStr path) queryParams 0) t path eq_refl)
      as (r & evs & Hrun & Hchain & Hall).
    rewrite Hrun. cbn [GraphApi.currentParams] in Hchain.
    destruct r; eexists _, evs; (split; [reflexivity|]); split; assumption.
  - intros queryParams w o Hread.
    unfold GraphApiLegacy.callGraphAPIPaginated.
    cbn [String.eqb Ascii.eqb Bool.eqb negb]. unfold GraphApiLegacy.lbind.
    destruct (legacy_paginate_chained env accessToken "GET" maxCount Hmode
                Habs fuel (GraphApiLegacy.mkLoop [] (JStr path) queryParams)
                w path o eq_refl Hread)
      as (r & evs & w' & url & Hrun & Hex & Hurl & Hchain & Hall).
    rewrite Hrun. cbn [GraphApiLegacy.currentParams] in Hurl.
    destruct r; eexists _, evs, w', url;
      (split; [reflexivity|]); repeat split; assumption.
Qed.

Lemma pagination_follows_cursors_witness :
  exists r evs,
    GraphApi.callGraphAPIPaginated ten_env 50 "token" "GET" "me/messages"
      [("$top", "10")] 25 []
    = (r, [] ++ evs)
    /\ chained (GraphApi.final_url "me/messages" [("$top", "10")]) evs = true
    /\ forallb (plain_request "token" "GET") evs = true.
Proof.
  exact (proj1 (pagination_follows_cursors ten_env 50%nat "token"
                  "me/messages" 25 eq_refl ten_env_absolute_cursors)
               [("$top", "10")] []).
Defined.

(** The three requests of that call. *)
Example ten_env_requests :
  map event_url
      (snd (GraphApi.callGraphAPIPaginated ten_env 50 "token" "GET"
              "me/messages" [("$top", "10")] 25 []))
  = [Some "https://graph.microsoft.com/v1.0/me/messages?%24top=10";
     Some "https://graph.microsoft.com/v1.0/me/messages?$skiptoken=x";
     Some "https://graph.microsoft.com/v1.0/me/messages?$skiptoken=x"].
Proof. vm_compute. reflexivity. Qed.

End GraphClientFacts.

(* ---------------------------------------------------------------------- *)
(** ** The URL of a request: parameters and path segments                   *)
(* ---------------------------------------------------------------------- *)

Module QueryFacts.
Import Js Http Requests.
Import FilterFacts.

(** One character through the serializer of URLSearchParams and back
    through its parser. *)
Lemma read_form_char (c : ascii) (rest : string) :
  Uri.percent_decode
    (Uri.plus_to_space
       ((if Uri.form_unreserved c then String c EmptyString
         else if Ascii.eqb c " " then "+"
         else Uri.percent_byte c) +:+ rest))
  = String c (Uri.percent_decode (Uri.plus_to_space rest)).
Proof. each_ascii c; reflexivity. Qed.

Lemma read_form_encode (s : string) :
  Uri.percent_decode (Uri.plus_to_space (Uri.form_encode s)) = s.
Proof.
  induction s as [|c s IH]; [reflexivity|].
  cbn [Uri.form_encode]. rewrite read_form_char, IH. reflexivity.
Qed.

Lemma form_char_plain (sep c : ascii) :
  sep = "&"%char \/ sep = "="%char ->
  Uri.mem_ascii sep
    (if Uri.form_unreserved c then String c EmptyString
     else if Ascii.eqb c " " then "+"
     else Uri.percent_byte c) = false.
Proof. intros [->| ->]; each_ascii c; reflexivity. Qed.

(** The serializer writes neither [&] nor [=] of its own. *)
Lemma form_encode_plain (sep : ascii) (s : string) :
  sep = "&"%char \/ sep = "="%char ->
  Uri.mem_ascii sep (Uri.form_encode s) = false.
Proof.
  intros Hsep. induction s as [|c s IH]; [reflexivity|].
  cbn [Uri.form_encode].
  rewrite mem_ascii_append, (form_char_plain sep c Hsep), IH. reflexivity.
Qed.

Lemma cut_at_equals_append (a b : string) :
  Uri.mem_ascii "=" a = false ->
  Uri.cut_at_equals (a +:+ "=" +:+ b) = (a, b).
Proof.
  change ("=" +:+ b) with (String "=" b).
  induction a as [|c a IH]; [reflexivity|].
  cbn [Uri.mem_ascii String.append Uri.cut_at_equals]. intros H.
  apply orb_false_iff in H. destruct H as [Hc Ha].
  rewrite Ascii.eqb_sym, Hc, (IH Ha). reflexivity.
Qed.

Lemma form_parse_form_pair (kv : string * string) :
  Uri.form_parse_pair (Uri.form_pair kv) = kv.
Proof.
  destruct kv as [k v]. unfold Uri.form_parse_pair, Uri.form_pair.
  cbn [fst snd].
  rewrite cut_at_equals_append by (apply form_encode_plain; auto).
  rewrite !read_form_encode. reflexivity.
Qed.

Lemma form_pair_whole (kv : string * string) :
  Uri.mem_ascii "&" (Uri.form_pair kv) = false.
Proof.
  unfold Uri.form_pair. rewrite !mem_ascii_append.
  rewrite !form_encode_plain by auto. reflexivity.
Qed.

Lemma truthy_append_right (a b : string) :
  truthy_str b = true -> truthy_str (a +:+ b) = true.
Proof. destruct a; [auto|reflexivity]. Qed.

Lemma form_pair_truthy (kv : string * string) :
  truthy_str (Uri.form_pair kv) = true.
Proof. unfold Uri.form_pair. apply truthy_append_right. reflexivity. Qed.

(** Splitting undoes joining when no piece holds the separator. *)
Lemma split_join (sep : ascii) (pieces : list string) :
  pieces <> [] ->
  Forall (fun p => Uri.mem_ascii sep p = false) pieces ->
  split sep (join (String sep EmptyString) pieces) = pieces.
Proof.
  induction pieces as [|p rest IH]; [congruence|]. intros _ Hall.
  inversion Hall as [|? ? Hp Hrest]; subst.
  destruct rest as [|q rest'].
  - cbn [join]. apply split_without_separator. exact Hp.
  - change (join (String sep EmptyString) (p :: q :: rest'))
      with (p +:+ String sep EmptyString
              +:+ join (String sep EmptyString) (q :: rest')).
    change (String sep EmptyString +:+ join (String sep EmptyString) (q :: rest'))
      with (String sep (join (String sep EmptyString) (q :: rest'))).
    rewrite split_append_separator, (split_without_separator sep p Hp).
    rewrite IH by (congruence || assumption). reflexivity.
Qed.

Lemma serialized_truthy (params : Params) :
  params <> [] -> truthy_str (Uri.form_serialize params) = true.
Proof.
  destruct params as [|kv [|kv' rest]]; [congruence| |]; intros _.
  - apply form_pair_truthy.
  - unfold Uri.form_serialize. cbn [map join].
    pose proof (form_pair_truthy kv) as H.
    destruct (Uri.form_pair kv); [discriminate|reflexivity].
Qed.

(** The pieces of what the serializer wrote, read one by one, are the
    parameters that were given. *)
Lemma read_serialized (params : Params) :
  map Uri.form_parse_pair
      (List.filter truthy_str (split "&" (Uri.form_serialize params)))
  = params.
Proof.
  destruct params as [|kv rest]; [reflexivity|].
  unfold Uri.form_serialize.
  rewrite split_join.
  - rewrite forallb_filter_id.
    + rewrite map_map. rewrite <- (map_id (kv :: rest)) at 2.
      apply map_ext. apply form_parse_form_pair.
    + apply forallb_forall. intros x Hin. apply in_map_iff in Hin.
      destruct Hin as (kv' & <- & _). apply form_pair_truthy.
  - discriminate.
  - apply Forall_forall. intros x Hin. apply in_map_iff in Hin.
    destruct Hin as (kv' & <- & _). apply form_pair_whole.
Qed.

Lemma form_parse_serialized (params : Params) :
  Uri.form_parse ("?" +:+ Uri.form_serialize params) = params.
Proof.
  unfold Uri.form_parse. rewrite strip_question_append.
  apply read_serialized.
Qed.

Lemma form_parse_serialized_filter (params : Params) (f : string) :
  params <> [] ->
  Uri.form_parse (("?" +:+ Uri.form_serialize params) +:+ "&" +:+ "$filter="
                    +:+ Uri.encodeURIComponent f)
  = params ++ [("$filter", f)].
Proof.
  intros _. unfold Uri.form_parse.
  rewrite append_assoc, strip_question_append.
  rewrite split_at_ampersand, filter_piece_is_whole.
  rewrite filter_app, map_app, read_serialized.
  cbn [List.filter]. rewrite filter_piece_truthy.
  cbn [map]. rewrite form_parse_filter_pair. reflexivity.
Qed.

Lemma form_parse_filter_alone (f : string) :
  Uri.form_parse ("?" +:+ "$filter=" +:+ Uri.encodeURIComponent f)
  = [("$filter", f)].
Proof.
  unfold Uri.form_parse.
  rewrite strip_question_append, filter_piece_is_whole.
  cbn [List.filter]. rewrite filter_piece_truthy.
  cbn [map]. rewrite form_parse_filter_pair. reflexivity.
Qed.

(** The query string for generic parameters [rest] and an optional filter
    that is to be encoded, as both revisions end up writing it. *)
Lemma written_query_reads_back (rest : Params) (filter : option string) :
  Uri.form_parse
    (let queryString := Uri.form_serialize rest in
     let queryString :=
       if truthy_str queryString then "?" +:+ queryString else queryString in
     match filter with
     | Some f =>
         queryString +:+ (if truthy_str queryString then "&" else "?")
         +:+ "$filter=" +:+ Uri.encodeURIComponent f
     | None => queryString
     end)
  = rest ++ match filter with
            | Some f => [("$filter", f)]
            | None => []
            end.
Proof.
  cbv zeta. destruct rest as [|kv rest'].
  - cbn [Uri.form_serialize map join truthy_str app].
    destruct filter as [f|]; [|reflexivity].
    exact (form_parse_filter_alone f).
  - rewrite (serialized_truthy (kv :: rest')) by discriminate.
    destruct filter as [f|].
    + cbn [String.append truthy_str].
      exact (form_parse_serialized_filter (kv :: rest') f
               ltac:(discriminate)).
    + rewrite app_nil_r. apply form_parse_serialized.
Qed.

(** X4. The query parameters arrive as they were given. For a path
    without a query of its own, reading the query string that the builder
    writes (as URLSearchParams reads it) gives back the generic parameters
    in their order, with their names and values unchanged whatever
    characters they hold, followed by the filter if there is one; the
    revision that edits its argument does the same, a falsy filter staying
    among the generic parameters. *)
Theorem parameters_read_back :
  (forall path queryParams,
      Uri.mem_ascii "?" path = false ->
      Uri.form_parse
        (GraphApi.query_string (GraphApi.build_query path queryParams))
      = sent_params queryParams)
  /\ (forall queryParams w o,
        nth_error (GraphApiLegacy.heap w) queryParams = Some o ->
        exists queryString,
          fst (GraphApiLegacy.build_query_string queryParams w)
          = Ok queryString
          /\ Uri.form_parse queryString
             = if truthy_ostr (assoc "$filter" o) then sent_params o else o).
Proof.
  split.
  - intros path queryParams Hpath.
    unfold GraphApi.build_query.
    rewrite (split_without_separator "?" path Hpath).
    cbn [nth_error fold_left]. unfold sent_params.
    destruct queryParams as [|kv rest].
    + reflexivity.
    + unfold GraphApi.take_query_params.
      set (o := kv :: rest).
      destruct (assoc "$filter" o) as [f|].
      * exact (written_query_reads_back (remove_key "$filter" o) (Some f)).
      * exact (written_query_reads_back (remove_key "$filter" o) None).
  - intros queryParams w o Hread.
    unfold GraphApiLegacy.build_query_string, GraphApiLegacy.lbind,
      GraphApiLegacy.read.
    rewrite Hread.
    destruct o as [|kv rest].
    { eexists. split; [reflexivity|]. reflexivity. }
    set (o := kv :: rest) in *.
    destruct (assoc "$filter" o) as [f|] eqn:Hf; cbn [truthy_ostr].
    + destruct (truthy_str f) eqn:Htf.
      * unfold GraphApiLegacy.write.
        cbn [GraphApiLegacy.heap GraphApiLegacy.exchanges].
        rewrite (QueryParamsFacts.nth_error_update_same _ _ _ _ Hread).
        eexists. split; [reflexivity|].
        unfold sent_params. rewrite Hf.
        destruct (remove_key "$filter" o) as [|kv' rest'].
        -- exact (form_parse_filter_alone f).
        -- rewrite (serialized_truthy (kv' :: rest')) by discriminate.
           rewrite truthy_append_right by reflexivity.
           exact (form_parse_serialized_filter (kv' :: rest') f
                    ltac:(discriminate)).
      * unfold GraphApiLegacy.lret. rewrite Hread.
        eexists. split; [reflexivity|].
        rewrite (serialized_truthy o) by discriminate.
        apply form_parse_serialized.
    + unfold GraphApiLegacy.lret. rewrite Hread.
      eexists. split; [reflexivity|].
      rewrite (serialized_truthy o) by discriminate.
      apply form_parse_serialized.
Qed.

Lemma parameters_read_back_witness :
  Uri.form_parse
    (GraphApi.query_string
       (GraphApi.build_query "me/messages"
          [("$select", "id,subject"); ("$filter", "from eq 'a&b'");
           ("$search", "50% off + more")]))
  = [("$select", "id,subject"); ("$search", "50% off + more");
     ("$filter", "from eq 'a&b'")]
  /\ exists queryString,
       fst (GraphApiLegacy.build_query_string 0%nat
              (GraphApiLegacy.mkWorld []
                 [[("$select", "id,subject"); ("$filter", EmptyString)]]))
       = Ok queryString
       /\ Uri.form_parse queryString
          = [("$select", "id,subject"); ("$filter", EmptyString)].
Proof.
  split.
  - exact (proj1 parameters_read_back "me/messages"
             [("$select", "id,subject"); ("$filter", "from eq 'a&b'");
              ("$search", "50% off + more")] eq_refl).
  - exact (proj2 parameters_read_back 0%nat
             (GraphApiLegacy.mkWorld []
                [[("$select", "id,subject"); ("$filter", EmptyString)]])
             [("$select", "id,subject"); ("$filter", EmptyString)] eq_refl).
Defined.

Lemma encoded_char_reserved (sep c : ascii) :
  sep = "/"%char \/ sep = "?"%char ->
  Uri.mem_ascii sep
    (if Uri.uri_unreserved c then String c EmptyString
     else Uri.percent_byte c) = false.
Proof. intros [->| ->]; each_ascii c; reflexivity. Qed.

(** An encoded component holds neither a slash nor a question mark. *)
Lemma encodeURIComponent_reserved (sep : ascii) (s : string) :
  sep = "/"%char \/ sep = "?"%char ->
  Uri.mem_ascii sep (Uri.encodeURIComponent s) = false.
Proof.
  intros Hsep. induction s as [|c s IH]; [reflexivity|].
  cbn [Uri.encodeURIComponent].
  rewrite mem_ascii_append, (encoded_char_reserved sep c Hsep), IH.
  reflexivity.
Qed.

Lemma split_not_empty (sep : ascii) (s : string) : split sep s <> [].
Proof.
  destruct s as [|c s]; cbn [split]; [discriminate|].
  destruct (Ascii.eqb c sep); [discriminate|].
  destruct (split sep s); discriminate.
Qed.

Lemma encoded_segments (segments : list string) :
  segments <> [] ->
  map Uri.decodeURIComponent
      (split "/" (join "/" (map Uri.encodeURIComponent segments)))
  = map Some segments.
Proof.
  intros Hne. rewrite (split_join "/").
  - rewrite map_map. apply map_ext. apply decode_encodeURIComponent.
  - destruct segments; [congruence|discriminate].
  - apply Forall_forall. intros x Hin. apply in_map_iff in Hin.
    destruct Hin as (seg & <- & _).
    apply encodeURIComponent_reserved. auto.
Qed.

(** X5. The segments of a path arrive as they were written: the slashes
    of the path stay the separators of the URL, every segment is encoded on
    its own, and splitting the encoded path at its slashes and decoding
    each piece gives back the segments of the path; of the part before
    the question mark in the revision that reads a query from the path, of
    the whole path in the other one. *)
Theorem path_segments_round_trip :
  (forall path,
      map Uri.decodeURIComponent (split "/" (GraphApi.encoded_path path))
      = map Some (split "/" (hd EmptyString (split "?" path))))
  /\ (forall path,
        map Uri.decodeURIComponent
            (split "/" (GraphApiLegacy.encoded_path path))
        = map Some (split "/" path)).
Proof.
  split; intros path.
  - unfold GraphApi.encoded_path. apply encoded_segments.
    apply split_not_empty.
  - unfold GraphApiLegacy.encoded_path. apply encoded_segments.
    apply split_not_empty.
Qed.

Lemma mem_ascii_join (c : ascii) (sep : string) (pieces : list string) :
  Uri.mem_ascii c sep = false ->
  Forall (fun p => Uri.mem_ascii c p = false) pieces ->
  Uri.mem_ascii c (join sep pieces) = false.
Proof.
  intros Hsep. induction pieces as [|p rest IH]; [reflexivity|].
  intros Hall. inversion Hall as [|? ? Hp Hrest]; subst.
  destruct rest as [|q rest']; [exact Hp|].
  change (join sep (p :: q :: rest'))
    with (p +:+ sep +:+ join sep (q :: rest')).
  rewrite !mem_ascii_append, Hp, Hsep, (IH Hrest). reflexivity.
Qed.

(** X6. In the revision that edits its argument a query written into the
    path is never sent as a query: the question mark is escaped with the
    segment it stands in, so with an empty queryParams object the URL of a
    relative path holds no question mark at all. *)
Theorem path_query_is_escaped path queryParams w :
  absolute path = false ->
  nth_error (GraphApiLegacy.heap w) queryParams = Some [] ->
  exists url,
    GraphApiLegacy.final_url path queryParams w = (Ok url, w)
    /\ url = GRAPH_API_ENDPOINT +:+ GraphApiLegacy.encoded_path path
    /\ Uri.mem_ascii "?" url = false.
Proof.
  intros Hrel Hread. unfold GraphApiLegacy.final_url.
  unfold absolute in Hrel. rewrite Hrel.
  cbv [GraphApiLegacy.lbind GraphApiLegacy.build_query_string
       GraphApiLegacy.read GraphApiLegacy.lret].
  rewrite Hread.
  eexists. split; [reflexivity|].
  assert (Hempty : forall x : string, x +:+ EmptyString = x).
  { induction x as [|c x IH]; cbn [String.append]; congruence. }
  rewrite Hempty. split; [reflexivity|].
  rewrite mem_ascii_append. unfold GraphApiLegacy.encoded_path.
  rewrite mem_ascii_join; [reflexivity|reflexivity|].
  apply Forall_forall. intros x Hin. apply in_map_iff in Hin.
  destruct Hin as (seg & <- & _).
  apply encodeURIComponent_reserved. auto.
Qed.

Lemma path_query_is_escaped_witness :
  exists url,
    GraphApiLegacy.final_url "me/mailFolders?$filter=displayName eq 'Drafts'"
      0%nat (GraphApiLegacy.mkWorld [] [[]])
    = (Ok url, GraphApiLegacy.mkWorld [] [[]])
    /\ url = GRAPH_API_ENDPOINT
             +:+ GraphApiLegacy.encoded_path
                   "me/mailFolders?$filter=displayName eq 'Drafts'"
    /\ Uri.mem_ascii "?" url = false.
Proof.
  exact (path_query_is_escaped
           "me/mailFolders?$filter=displayName eq 'Drafts'" 0%nat
           (GraphApiLegacy.mkWorld [] [[]]) eq_refl eq_refl).
Defined.

(** The URL of the folder lookup of email/list.js in that revision. *)
Example folder_lookup_url :
  fst (GraphApiLegacy.final_url
         "me/mailFolders?$filter=displayName eq 'Drafts'" 0%nat
         (GraphApiLegacy.mkWorld [] [[]]))
  = Ok "https://graph.microsoft.com/v1.0/me/mailFolders%3F%24filter%3DdisplayName%20eq%20'Drafts'".
Proof. vm_compute. reflexivity. Qed.

(** X7. The client of the revision that edits its argument changes the
    store of objects only when it deletes a truthy filter: in test mode
    (where the simulator of utils/mock-data.js only answers), for a path
    that is not a string, for a full URL, for a reference that names no
    object and for an object without a truthy filter every object is after
    the call what it was before, the caller's queryParams included. *)
Theorem queryParams_untouched_otherwise
  env accessToken method path data queryParams w :
  GraphApiLegacy.heap
    (snd (GraphApiLegacy.callGraphAPI env accessToken method path data
                                      queryParams w))
  <> GraphApiLegacy.heap w ->
  test_mode env accessToken = false
  /\ exists p o f,
       path = JStr p
       /\ absolute p = false
       /\ nth_error (GraphApiLegacy.heap w) queryParams = Some o
       /\ assoc "$filter" o = Some f
       /\ truthy_str f = true.
Proof.
  intros Hchanged.
  destruct (test_mode env accessToken) eqn:Hmode.
  { exfalso. apply Hchanged.
    destruct (GraphClientFacts.legacy_simulated_call env accessToken method
                path data queryParams w Hmode) as (r & evs & -> & _).
    reflexivity. }
  split; [reflexivity|].
  destruct path as [| | |p| |];
    try (exfalso; apply Hchanged; unfold GraphApiLegacy.callGraphAPI;
         unfold test_mode in Hmode; rewrite Hmode; reflexivity).
  destruct (absolute p) eqn:Habs.
  { exfalso. apply Hchanged. unfold GraphApiLegacy.callGraphAPI.
    unfold test_mode in Hmode. rewrite Hmode.
    unfold GraphApiLegacy.final_url. unfold absolute in Habs. rewrite Habs.
    unfold GraphApiLegacy.lbind at 1. unfold GraphApiLegacy.lret at 1.
    rewrite LegacyPaginationFacts.lift_run. reflexivity. }
  destruct (nth_error (GraphApiLegacy.heap w) queryParams) as [o|] eqn:Hread.
  - pose proof (QueryParamsFacts.callGraphAPI_heap env accessToken method p
                  data queryParams w o Hmode Habs Hread) as Hheap.
    destruct (assoc "$filter" o) as [f|] eqn:Hf; cbn [truthy_ostr] in Hheap.
    + destruct (truthy_str f) eqn:Htf.
      * exists p, o, f. auto.
      * exfalso. apply Hchanged. exact Hheap.
    + exfalso. apply Hchanged. exact Hheap.
  - exfalso. apply Hchanged. unfold GraphApiLegacy.callGraphAPI.
    unfold test_mode in Hmode. rewrite Hmode.
    unfold GraphApiLegacy.final_url. unfold absolute in Habs. rewrite Habs.
    cbv [GraphApiLegacy.lbind GraphApiLegacy.build_query_string
         GraphApiLegacy.read GraphApiLegacy.lret].
    rewrite Hread. reflexivity.
Qed.

Lemma queryParams_untouched_otherwise_witness :
  test_mode GraphApiLegacy.quiet_env "token" = false
  /\ exists p o f,
       JStr "me/messages" = JStr p
       /\ absolute p = false
       /\ nth_error [[("$filter", "isRead eq false")]] 0 = Some o
       /\ assoc "$filter" o = Some f
       /\ truthy_str f = true.
Proof.
  apply (queryParams_untouched_otherwise GraphApiLegacy.quiet_env "token"
           "GET" (JStr "me/messages") None 0%nat
           (GraphApiLegacy.mkWorld [] [[("$filter", "isRead eq false")]])).
  vm_compute. discriminate.
Defined.

End QueryFacts.

(* ---------------------------------------------------------------------- *)
(** ** email/list.js: how many messages are asked for                       *)
(* ---------------------------------------------------------------------- *)

Module ListEmailsFacts.
Import Js Http Pages ListEmails.

(** X8. Whatever count the caller gives (a number, zero, a negative
    number, something that is no number), the listing asks for between 1
    and MAX_TOTAL_RESULTS messages in pages of between 1 and API_PAGE_SIZE;
    a page is never larger than the count that is asked for; a count
    between 1 and MAX_TOTAL_RESULTS is taken as it is, anything that is not
    a positive number counts as 10. *)
Theorem listing_counts_are_bounded (parsedCount : option Z) :
  1 <= requestedCount parsedCount <= MAX_TOTAL_RESULTS
  /\ 1 <= top parsedCount <= API_PAGE_SIZE
  /\ top parsedCount <= requestedCount parsedCount
  /\ top parsedCount = Z.min API_PAGE_SIZE (requestedCount parsedCount)
  /\ (forall n, parsedCount = Some n -> 1 <= n <= MAX_TOTAL_RESULTS ->
        requestedCount parsedCount = n)
  /\ (forall n, parsedCount = Some n -> MAX_TOTAL_RESULTS <= n ->
        requestedCount parsedCount = MAX_TOTAL_RESULTS)
  /\ (forall n, parsedCount = Some n -> n <= 0 ->
        requestedCount parsedCount = 10)
  /\ (parsedCount = None -> requestedCount parsedCount = 10).
Proof.
  unfold top, requestedCount, validCount, MAX_TOTAL_RESULTS, API_PAGE_SIZE.
  destruct parsedCount as [n|].
  - destruct (n <=? 0) eqn:Hn;
      [apply Z.leb_le in Hn | apply Z.leb_gt in Hn];
      repeat split; try lia;
      try (intros m [= <-] Hm; lia); try discriminate.
  - repeat split; try lia; try discriminate.
Qed.

Lemma counts_in_range (parsedCount : option Z) :
  let r := requestedCount parsedCount in
  let p := top parsedCount in
  1 <= p <= 50 /\ p <= r <= 1000 /\ p = Z.min 50 r.
Proof.
  cbv zeta.
  unfold top, requestedCount, validCount, MAX_TOTAL_RESULTS, API_PAGE_SIZE.
  destruct parsedCount as [n|]; [destruct (n <=? 0) eqn:Hn|];
    try (apply Z.leb_gt in Hn); lia.
Qed.

(** The pages that hold the count: the last one is needed, and there are
    at most twenty of them. *)
Lemma pages_needed_spec (parsedCount : option Z) :
  let r := requestedCount parsedCount in
  let p := top parsedCount in
  let q := (r + p - 1) / p in
  1 <= q <= 20 /\ p * (q - 1) < r /\ r <= p * q.
Proof.
  cbv zeta. destruct (counts_in_range parsedCount) as (Hp & Hr & Hmin).
  cbv zeta in Hp, Hr, Hmin.
  set (r := requestedCount parsedCount) in *.
  set (p := top parsedCount) in *.
  assert (Hpos : 0 < p) by lia.
  pose proof (Z.mul_div_le (r + p - 1) p Hpos) as Hlo.
  pose proof (Z.mul_succ_div_gt (r + p - 1) p Hpos) as Hhi.
  set (q := (r + p - 1) / p) in *.
  assert (Hq1 : 1 <= q) by nia.
  assert (Hq20 : q <= 20).
  { destruct (Z.le_gt_cases r 50) as [Hsmall|Hlarge].
    - assert (p = r) by lia. nia.
    - assert (p = 50) by lia. nia. }
  split; [lia|]. split; nia.
Qed.

Lemma paging_env_answers (n : nat) : answers (paging_env n) (is_page n).
Proof.
  assert (Hpage : forall k, is_page n (full_page n k) = true).
  { intros k. unfold is_page, full_page. cbn [get assoc String.eqb Ascii.eqb
      Bool.eqb]. cbn. rewrite length_map, length_seq, Nat.eqb_refl.
    reflexivity. }
  split.
  - intros t req. exists 200, (full_page n (List.length t)).
    split; [reflexivity|]. split; [lia|apply Hpage].
  - intros t method path data queryParams.
    exists (full_page n (List.length t)). split; [reflexivity|apply Hpage].
Qed.

(** X9. A listing is never cut by the page ceiling. Against a server that
    honours $top (every page holds exactly that many messages and a
    cursor) the listing of the inbox returns exactly the count that is
    asked for, after as many requests as pages are needed to hold it, and
    these are at most twenty; with either revision of the client. *)
Theorem listing_returns_requested_count
  env fuel accessToken (parsedCount : option Z) :
  answers env (is_page (Z.to_nat (top parsedCount))) ->
  (pages_needed parsedCount <= fuel)%nat ->
  (pages_needed parsedCount <= 20)%nat
  /\ (forall t,
        exists evs items,
          inbox_listing env fuel accessToken parsedCount t
          = (Ok (JObj [("value", JArr items);
                       ("@odata.count", JNum (requestedCount parsedCount))]),
             t ++ evs)
          /\ List.length evs = pages_needed parsedCount
          /\ Z.of_nat (List.length items) = requestedCount parsedCount
          /\ items = firstn (Z.to_nat (requestedCount parsedCount))
                            (fetched_items evs))
  /\ (forall w,
        exists evs items w',
          inbox_listing_by_reference env fuel accessToken parsedCount w
          = (Ok (JObj [("value", JArr items);
                       ("@odata.count", JNum (requestedCount parsedCount))]),
             w')
          /\ GraphApiLegacy.exchanges w' = GraphApiLegacy.exchanges w ++ evs
          /\ List.length evs = pages_needed parsedCount
          /\ Z.of_nat (List.length items) = requestedCount parsedCount
          /\ items = firstn (Z.to_nat (requestedCount parsedCount))
                            (fetched_items evs)).
Proof.
  intros Hans Hfuel.
  destruct (counts_in_range parsedCount) as (Hp & Hr & _).
  destruct (pages_needed_spec parsedCount) as (Hq & Hlo & Hhi).
  cbv zeta in Hp, Hr, Hq, Hlo, Hhi.
  unfold pages_needed in *.
  set (r := requestedCount parsedCount) in *.
  set (p := top parsedCount) in *.
  set (q := (r + p - 1) / p) in *.
  assert (Hk : exists k, Z.to_nat q = S k /\ Z.of_nat k = q - 1).
  { exists (Z.to_nat (q - 1)). split; lia. }
  destruct Hk as (k & Hqk & Hkq).
  assert (Hn : Z.of_nat (Z.to_nat p) = p) by lia.
  assert (Hbelow : Z.of_nat 0 + Z.of_nat (k * Z.to_nat p) < r)
    by (rewrite Nat2Z.inj_mul, Hn, Hkq; lia).
  assert (Habove : r <= Z.of_nat 0 + Z.of_nat (S k * Z.to_nat p))
    by (rewrite Nat2Z.inj_mul, Hn, Nat2Z.inj_succ, Hkq; lia).
  assert (Hpos : (0 <? r) = true) by (apply Z.ltb_lt; lia).
  assert (Hcut : forall evs,
             List.length (fetched_items evs) = (S k * Z.to_nat p)%nat ->
             List.length (firstn (Z.to_nat r) (fetched_items evs))
             = Z.to_nat r).
  { intros evs Hfetched. rewrite length_firstn, Hfetched. apply Nat.min_l.
    apply Nat2Z.inj_le. lia. }
  split; [lia|]. split.
  - intros t.
    destruct (PaginationFacts.paginate_full_pages env accessToken "GET"
                (Z.to_nat p) r Hans ltac:(lia) k fuel
                (GraphApi.mkLoop [] (JStr "me/messages")
                                 (queryParams parsedCount) 0) t)
      as (evs & Hlen & Hfetched & Hrun).
    + lia.
    + cbn [GraphApi.pageCount]. unfold MAX_PAGINATION_PAGES. lia.
    + cbn [GraphApi.currentUrl]. eauto.
    + exact Hbelow.
    + exact Habove.
    + cbn [GraphApi.allItems app] in Hrun.
      exists evs, (firstn (Z.to_nat r) (fetched_items evs)).
      unfold inbox_listing, GraphApi.callGraphAPIPaginated.
      cbn [String.eqb Ascii.eqb Bool.eqb negb]. unfold bind.
      fold r. rewrite Hrun.
      unfold ret, GraphApi.combined, GraphApi.trim.
      rewrite Hpos, (Hcut evs Hfetched).
      replace (Z.of_nat (Z.to_nat r)) with r by lia.
      split; [reflexivity|]. split; [lia|]. split; [lia|reflexivity].
  - intros w.
    destruct (LegacyPaginationFacts.legacy_paginate_full_pages env
                accessToken "GET" (Z.to_nat p) r Hans ltac:(lia) k fuel
                (GraphApiLegacy.mkLoop [] (JStr "me/messages")
                   (List.length (GraphApiLegacy.heap w)))
                (GraphApiLegacy.mkWorld (GraphApiLegacy.exchanges w)
                   (GraphApiLegacy.heap w ++ [queryParams parsedCount])))
      as (evs & w' & Hlen & Hfetched & Hrun & Hex).
    + lia.
    + cbn [GraphApiLegacy.currentParams GraphApiLegacy.heap].
      rewrite length_app. cbn [List.length]. lia.
    + cbn [GraphApiLegacy.currentUrl]. eauto.
    + exact Hbelow.
    + exact Habove.
    + cbn [GraphApiLegacy.allItems app] in Hrun.
      cbn [GraphApiLegacy.exchanges] in Hex.
      exists evs, (firstn (Z.to_nat r) (fetched_items evs)), w'.
      unfold inbox_listing_by_reference,
        GraphApiLegacy.callGraphAPIPaginated.
      cbn [String.eqb Ascii.eqb Bool.eqb negb].
      unfold GraphApiLegacy.lbind. fold r. rewrite Hrun.
      unfold GraphApiLegacy.lret, GraphApi.combined, GraphApi.trim.
      rewrite Hpos, (Hcut evs Hfetched).
      replace (Z.of_nat (Z.to_nat r)) with r by lia.
      split; [reflexivity|]. split; [exact Hex|].
      split; [lia|]. split; [lia|reflexivity].
Qed.

Lemma listing_returns_requested_count_witness :
  (pages_needed (Some 120%Z) <= 20)%nat
  /\ (exists evs items,
        inbox_listing (paging_env 50) 10 "token" (Some 120) []
        = (Ok (JObj [("value", JArr items);
                     ("@odata.count", JNum (requestedCount (Some 120)))]),
           [] ++ evs)
        /\ List.length evs = pages_needed (Some 120)
        /\ Z.of_nat (List.length items) = requestedCount (Some 120)
        /\ items = firstn (Z.to_nat (requestedCount (Some 120)))
                          (fetched_items evs)).
Proof.
  destruct (listing_returns_requested_count (paging_env 50) 10 "token"
              (Some 120) (paging_env_answers 50) ltac:(vm_compute; lia))
    as (Hpages & Hrun & _).
  split; [exact Hpages|exact (Hrun [])].
Defined.

(** The first request of a listing of 120 messages. *)
Example listing_first_request :
  option_map Requests.event_url
    (hd_error (snd (inbox_listing (paging_env 50) 10 "token" (Some 120) [])))
  = Some (Some "https://graph.microsoft.com/v1.0/me/messages?%24top=50&%24orderby=receivedDateTime+desc&%24select=id%2Csubject%2Cfrom%2CtoRecipients%2CccRecipients%2CreceivedDateTime%2CbodyPreview%2ChasAttachments%2Cimportance%2CisRead").
Proof. vm_compute. reflexivity. Qed.

Lemma listing_counts_are_bounded_witness :
  requestedCount (Some 5000) = 1000
  /\ top (Some 5000) = 50
  /\ requestedCount (Some (-3)) = 10
  /\ top (Some 7) = 7.
Proof.
  destruct (listing_counts_are_bounded (Some 5000))
    as (_ & _ & _ & _ & _ & Hcap & _).
  split; [exact (Hcap 5000 eq_refl ltac:(vm_compute; discriminate))|].
  repeat split; reflexivity.
Defined.

End ListEmailsFacts.

(* ---------------------------------------------------------------------- *)
(** ** auth/token-storage.js: accounts, sign-in and sign-out                *)
(* ---------------------------------------------------------------------- *)

Module AccountFacts.
Import Js TokenStorage TokenStorageOps.

(** Loading changes the tokens in memory and the log, nothing else. *)
Lemma getTokens_frame (s : Store) :
  exists s0,
    getTokens s = (stored s, s0)
    /\ tokens s0 = stored s
    /\ file s0 = file s
    /\ sent s0 = sent s
    /\ ticks s0 = ticks s
    /\ writes s0 = writes s
    /\ refreshPromise s0 = refreshPromise s.
Proof.
  unfold stored, getTokens, _loadTokensFromFile.
  destruct (tokens s) as [d|] eqn:Hmem.
  - exists s. cbn [fst]. repeat split; auto.
  - destruct (file s) as [d|] eqn:Hfile; eexists; cbn [fst];
      (split; [reflexivity|]); cbn; rewrite ?Hfile; repeat split; auto.
Qed.

Lemma loaded_is_stored (s : Store) (d : Doc) :
  tokens s = Some d -> getTokens s = (Some d, s) /\ stored s = Some d.
Proof.
  intros Hmem. unfold stored, getTokens. rewrite Hmem. split; reflexivity.
Qed.

Lemma assoc_set_key_same {A : Type} (k : string) (v : A)
  (o : list (string * A)) :
  assoc k (set_key k v o) = Some v.
Proof.
  induction o as [|[k' v'] o IH]; cbn [set_key assoc].
  - rewrite String.eqb_refl. reflexivity.
  - destruct (String.eqb k k') eqn:E; cbn [assoc].
    + rewrite String.eqb_refl. reflexivity.
    + rewrite E. exact IH.
Qed.

Lemma assoc_set_key_other {A : Type} (k k0 : string) (v : A)
  (o : list (string * A)) :
  k0 <> k -> assoc k0 (set_key k v o) = assoc k0 o.
Proof.
  intros Hne. induction o as [|[k' v'] o IH]; cbn [set_key assoc].
  - destruct (String.eqb k0 k) eqn:E; [|reflexivity].
    apply String.eqb_eq in E. congruence.
  - destruct (String.eqb k k') eqn:E; cbn [assoc].
    + apply String.eqb_eq in E. subst k'.
      destruct (String.eqb k0 k) eqn:E0; [|reflexivity].
      apply String.eqb_eq in E0. congruence.
    + destruct (String.eqb k0 k'); [reflexivity|exact IH].
Qed.

(** X10. ensureAuthenticated hands out a non-empty access token or fails
    with 'Authentication required', and with nothing else. With forceNew it
    fails without looking at the storage: nothing is loaded, no request is
    sent. Otherwise the storage is left as getValidAccessToken leaves it,
    a token that is handed out is the one getValidAccessToken returned,
    and the failure stands for its null or empty result. *)
Theorem ensureAuthenticated_token_or_error env s :
  refreshPromise s = None ->
  ensureAuthenticated env true s = (Done (Failed AuthenticationRequired), s)
  /\ snd (ensureAuthenticated env false s) = snd (getValidAccessToken env s)
  /\ (exists out, fst (ensureAuthenticated env false s) = Done out
        /\ ((exists token,
                out = Returned token /\ truthy_str token = true
                /\ fst (getValidAccessToken env s) = Done (Some token))
            \/ (out = Failed AuthenticationRequired
                /\ (fst (getValidAccessToken env s) = Done None
                    \/ fst (getValidAccessToken env s)
                       = Done (Some EmptyString))))).
Proof.
  intros Hslot. split; [reflexivity|].
  pose proof (CredentialFacts.getValidAccessToken_decision env s Hslot) as Hd.
  unfold ensureAuthenticated. cbv iota.
  destruct (getValidAccessToken env s) as [r s'] eqn:Hrun.
  cbn [fst] in Hd. subst r. cbn [fst snd].
  split; [reflexivity|].
  eexists. split; [reflexivity|].
  destruct (decision env s) as [token|].
  - destruct token as [|c token']; cbn [truthy_str].
    + right. auto.
    + left. eexists. auto.
  - right. auto.
Qed.

Lemma ensureAuthenticated_token_or_error_witness :
  ensureAuthenticated (granting 5000000 true) true
                      (fresh_store None (Some fresh_accounts))
  = (Done (Failed AuthenticationRequired),
     fresh_store None (Some fresh_accounts))
  /\ fst (ensureAuthenticated (granting 5000000 true) false
                              (fresh_store None (Some fresh_accounts)))
     = Done (Returned "access-a").
Proof.
  destruct (ensureAuthenticated_token_or_error (granting 5000000 true)
              (fresh_store None (Some fresh_accounts)) eq_refl)
    as (Hforce & _ & _).
  split; [exact Hforce|reflexivity].
Defined.

(** The store after setActiveAccount for an account that is registered. *)
Lemma setActiveAccount_known env email s d accs t :
  stored s = Some d ->
  accounts d = Some accs ->
  assoc email accs = Some t ->
  exists s0,
    getTokens s = (Some d, s0)
    /\ setActiveAccount env email s
       = match _saveTokensToFile env
                 (set_tokens (Some (with_active d email)) s0) with
         | (Resolved _, s1) =>
             (Returned tt, say "Active account switched to" s1)
         | (Rejected _, s1) => (Failed WriteFailed, s1)
         end
    /\ file s0 = file s /\ sent s0 = sent s /\ ticks s0 = ticks s
    /\ writes s0 = writes s /\ refreshPromise s0 = refreshPromise s.
Proof.
  intros Hd Haccs Ht.
  destruct (getTokens_frame s)
    as (s0 & Hget & _ & Hfile & Hsent & Hticks & Hwrites & Hslot).
  rewrite Hd in Hget. exists s0. split; [exact Hget|].
  split; [|auto 6].
  unfold setActiveAccount, found. rewrite Hget, Haccs, Ht. reflexivity.
Qed.

(** X11. Switching the active account. For an account that is
    registered, setActiveAccount makes it the active one in memory, so
    that getActiveAccount answers with it, and leaves the accounts as
    they were; it sends nothing; when the write succeeds the file holds
    the document of the memory, and when the write fails the call fails
    while the memory has changed already and the file has not. Without a
    multi-account document, and for an address that is neither registered
    nor a name that every object inherits (toString, constructor, ...),
    the call fails with 'Account not found' and changes neither the
    document nor the file. *)
Theorem setActiveAccount_round_trip env email s :
  (forall d accs t,
      stored s = Some d ->
      accounts d = Some accs ->
      assoc email accs = Some t ->
      truthy_str email = true ->
      let r := fst (setActiveAccount env email s) in
      let s' := snd (setActiveAccount env email s) in
      tokens s' = Some (with_active d email)
      /\ fst (getActiveAccount s') = Some email
      /\ fst (getAllAccounts s') = keys accs
      /\ sent s' = sent s
      /\ (if write_ok env (writes s)
          then r = Returned tt /\ file s' = Some (with_active d email)
          else r = Failed WriteFailed /\ file s' = file s))
  /\ ((stored s = None
       \/ (exists d, stored s = Some d /\ accounts d = None)
       \/ (exists d accs, stored s = Some d /\ accounts d = Some accs
                          /\ assoc email accs = None
                          /\ inherited email = false)) ->
      fst (setActiveAccount env email s) = Failed (AccountNotFound email)
      /\ tokens (snd (setActiveAccount env email s)) = stored s
      /\ file (snd (setActiveAccount env email s)) = file s
      /\ sent (snd (setActiveAccount env email s)) = sent s).
Proof.
  split.
  - intros d accs t Hd Haccs Ht Hemail. cbv zeta.
    destruct (setActiveAccount_known env email s d accs t Hd Haccs Ht)
      as (s0 & _ & -> & Hfile & Hsent & _ & Hwrites & _).
    unfold _saveTokensToFile. cbn [tokens set_tokens writes].
    rewrite Hwrites.
    destruct (write_ok env (writes s)); cbn [fst snd].
    + unfold getActiveAccount, getAllAccounts, getTokens.
      cbn [tokens say set_file set_tokens fst snd accounts activeAccount
           with_active file sent].
      rewrite Haccs, Hemail, Hsent. repeat split; reflexivity.
    + unfold getActiveAccount, getAllAccounts, getTokens.
      cbn [tokens say failed_write set_tokens fst snd accounts activeAccount
           with_active file sent].
      rewrite Haccs, Hemail, Hsent, Hfile. repeat split; reflexivity.
  - intros Hmissing.
    destruct (getTokens_frame s)
      as (s0 & Hget & Htok & Hfile & Hsent & _).
    unfold setActiveAccount. rewrite Hget.
    destruct Hmissing
      as [Hnone|[(d & Hd & Haccs)|(d & accs & Hd & Haccs & Ht & Hinh)]].
    + rewrite Hnone. cbn [fst snd]. rewrite Htok, Hnone. auto.
    + rewrite Hd, Haccs. cbn [fst snd]. rewrite Htok, Hd. auto.
    + unfold found. rewrite Hd, Haccs, Ht, Hinh. cbn [fst snd].
      rewrite Htok, Hd. auto.
Qed.

Lemma setActiveAccount_round_trip_witness :
  (let r := fst (setActiveAccount (granting 1000000 true) "d@x.com"
                   (fresh_store None (Some fresh_accounts))) in
   let s' := snd (setActiveAccount (granting 1000000 true) "d@x.com"
                    (fresh_store None (Some fresh_accounts))) in
   tokens s' = Some (with_active fresh_accounts "d@x.com")
   /\ fst (getActiveAccount s') = Some "d@x.com"
   /\ fst (getAllAccounts s') = ["a@x.com"; "d@x.com"]
   /\ sent s' = []
   /\ r = Returned tt
   /\ file s' = Some (with_active fresh_accounts "d@x.com"))
  /\ fst (setActiveAccount (granting 1000000 true) "nobody@x.com"
            (fresh_store None (Some fresh_accounts)))
     = Failed (AccountNotFound "nobody@x.com").
Proof.
  pose proof (setActiveAccount_round_trip (granting 1000000 true) "d@x.com"
                (fresh_store None (Some fresh_accounts))) as [Hknown _].
  specialize (Hknown fresh_accounts
                [("a@x.com", token_a); ("d@x.com", token_d)] token_d
                eq_refl eq_refl eq_refl eq_refl).
  pose proof (setActiveAccount_round_trip (granting 1000000 true)
                "nobody@x.com" (fresh_store None (Some fresh_accounts)))
    as [_ Hunknown].
  cbv zeta in Hknown. cbv zeta.
  destruct Hknown as (H1 & H2 & H3 & H4 & H5 & H6).
  split;
    [|apply Hunknown; right; right;
      exists fresh_accounts, [("a@x.com", token_a); ("d@x.com", token_d)];
      repeat split; reflexivity].
  split; [exact H1|]. split; [exact H2|]. split; [exact H3|].
  split; [exact H4|]. split; [exact H5 | exact H6].
Defined.

(** X12. After a switch to a registered account whose access token is not
    within the buffer of its expiry, getValidAccessToken returns that
    account's access token and sends nothing, whether or not the switch
    could be written to the file. *)
Theorem switched_account_is_served env email s d accs t :
  refreshPromise s = None ->
  stored s = Some d ->
  accounts d = Some accs ->
  assoc email accs = Some t ->
  truthy_str email = true ->
  truthy_ostr (access_token t) = true ->
  expired (now env (ticks s)) (expires_at t) = false ->
  let s' := snd (setActiveAccount env email s) in
  fst (getValidAccessToken env s') = Done (access_token t)
  /\ sent (snd (getValidAccessToken env s')) = sent s.
Proof.
  intros Hslot Hd Haccs Ht Hemail Haccess Hfresh. cbv zeta.
  destruct (setActiveAccount_known env email s d accs t Hd Haccs Ht)
    as (s0 & _ & -> & _ & Hsent & Hticks & Hwrites & _).
  unfold _saveTokensToFile. cbn [tokens set_tokens writes].
  destruct (write_ok env (writes s0)); cbn [fst snd];
    unfold getValidAccessToken, getTokens;
    cbn [tokens say set_file failed_write set_tokens accounts activeAccount
         with_active];
    rewrite Haccs, Hemail, Ht, Haccess; cbn [negb];
    unfold date_now;
    cbn [ticks say set_file failed_write set_tokens tick];
    rewrite Hticks, Hfresh; cbn [fst snd sent tick say set_file failed_write
      set_tokens]; rewrite Hsent; split; reflexivity.
Qed.

Lemma switched_account_is_served_witness :
  let s' := snd (setActiveAccount (granting 1000000 false) "d@x.com"
                   (fresh_store None (Some fresh_accounts))) in
  fst (getValidAccessToken (granting 1000000 false) s')
  = Done (Some "access-d")
  /\ sent (snd (getValidAccessToken (granting 1000000 false) s')) = [].
Proof.
  exact (switched_account_is_served (granting 1000000 false) "d@x.com"
           (fresh_store None (Some fresh_accounts)) fresh_accounts
           [("a@x.com", token_a); ("d@x.com", token_d)] token_d
           eq_refl eq_refl eq_refl eq_refl eq_refl eq_refl eq_refl).
Defined.

(** X13. Signing out. clearTokens forgets the tokens in memory and sends
    nothing. When the file is gone afterwards (it was deleted, or there
    was none) the storage is empty: getValidAccessToken returns null
    without a request and no account is listed. When the file cannot be
    deleted the error is only logged and the file stays, so the next call
    loads the same document again. *)
Theorem clearTokens_signs_out env unlink_ok s :
  let s' := clearTokens unlink_ok s in
  tokens s' = None
  /\ sent s' = sent s
  /\ refreshPromise s' = refreshPromise s
  /\ ((unlink_ok = true \/ file s = None) ->
      file s' = None
      /\ stored s' = None
      /\ fst (getValidAccessToken env s') = Done None
      /\ sent (snd (getValidAccessToken env s')) = sent s
      /\ fst (getAllAccounts s') = [])
  /\ (forall d, unlink_ok = false -> file s = Some d ->
        file s' = Some d /\ stored s' = Some d).
Proof.
  cbv zeta. unfold clearTokens. cbn [file set_tokens].
  destruct (file s) as [d|] eqn:Hfile; [destruct unlink_ok|];
    (split; [reflexivity|]); (split; [reflexivity|]);
    (split; [reflexivity|]).
  - split; [intros _|intros d0 Hno; discriminate].
    unfold stored, getValidAccessToken, getAllAccounts, getTokens,
      _loadTokensFromFile.
    cbn. repeat split; reflexivity.
  - split; [intros [Hyes|Hnone]; discriminate|].
    intros d0 _ [= <-].
    unfold stored, getTokens, _loadTokensFromFile.
    cbn. rewrite Hfile. split; reflexivity.
  - split; [intros _|intros d0 _ Hsome; discriminate].
    unfold stored, getValidAccessToken, getAllAccounts, getTokens,
      _loadTokensFromFile.
    cbn. rewrite Hfile. cbn. repeat split; reflexivity.
Qed.

(** A refresh that is rejected leaves the file as it was. *)
Lemma rejected_refresh_spares_the_file env s f s1 :
  refreshAccessToken env s = (Done (Rejected f), s1) ->
  file s1 = file s.
Proof.
  unfold refreshAccessToken, refresh_invoke.
  destruct (tokens s) as [d|] eqn:Hmem; [|intros [= _ <-]; reflexivity].
  destruct (refresh_token (top d)) as [r|]; [|intros [= _ <-]; reflexivity].
  destruct (truthy_str r); [|intros [= _ <-]; reflexivity].
  destruct (refreshPromise s) as [p|]; [discriminate|].
  destruct (token_endpoint env _ _) as [status body|].
  - unfold refresh_on_end.
    destruct body as [b|].
    + destruct ((200 <=? status) && (status <? 300))%bool.
      * cbn [tokens say send set_promise]. rewrite Hmem.
        unfold refresh_on_saved.
        destruct (write_ok env _).
        -- cbn [tokens say set_file set_tokens tick]. discriminate.
        -- intros [= _ <-]. reflexivity.
      * intros [= _ <-]. reflexivity.
    + intros [= _ <-]. reflexivity.
  - unfold refresh_on_error. intros [= _ <-]. reflexivity.
Qed.

(** X14. In the legacy branch getValidAccessToken gives up a token that is
    due and cannot be refreshed (no refresh token, or a refresh that is
    rejected): it returns null and forgets the tokens in memory. The
    invalidation is never written: the file is what it was, so a later
    call loads the same tokens again. *)
Theorem legacy_invalidation_spares_the_file env s d :
  refreshPromise s = None ->
  stored s = Some d ->
  accounts d = None ->
  truthy_ostr (access_token (top d)) = true ->
  due d (top d) (now env (ticks s)) = true ->
  (truthy_ostr (refresh_token (top d)) = false
   \/ exists f, fst (refreshAccessToken env (refresh_point env s))
                = Done (Rejected f)) ->
  let s' := snd (getValidAccessToken env s) in
  fst (getValidAccessToken env s) = Done None
  /\ tokens s' = None
  /\ file s' = file s
  /\ stored s' = file s.
Proof.
  intros Hslot Hd Haccs Haccess Hdue Hwhy. cbv zeta.
  destruct (getTokens_frame s)
    as (s0 & Hget & Htok & Hfile & Hsent & Hticks & Hwrites & Hslot0).
  rewrite Hd in Hget, Htok.
  assert (Hpoint : refresh_point env s
                   = say attempt (snd (isTokenExpired env s0))).
  { unfold refresh_point. rewrite Hget. cbn [snd]. rewrite Htok, Haccs.
    reflexivity. }
  assert (Hexp : fst (isTokenExpired env s0) = true
                 /\ file (snd (isTokenExpired env s0)) = file s
                 /\ tokens (snd (isTokenExpired env s0)) = Some d).
  { unfold isTokenExpired. rewrite Htok.
    unfold due in Hdue. rewrite Haccs in Hdue.
    destruct (expires_at (top d)) as [e|]; [|auto].
    destruct (e =? 0); [auto|].
    cbn [orb] in Hdue. unfold date_now. cbn [fst snd].
    rewrite Hticks, Hdue. cbn [file tokens tick]. auto. }
  destruct Hexp as (Hexpired & Hfile1 & Htok1).
  unfold getValidAccessToken. rewrite Hget, Haccs, Haccess. cbn [negb].
  destruct (isTokenExpired env s0) as [isExpired s1] eqn:Hrun.
  cbn [fst snd] in Hexpired, Hfile1, Htok1, Hpoint. subst isExpired.
  assert (Hinv : forall s2, tokens (invalidate env s2) = None
                            /\ file (invalidate env s2) = file s2).
  { intros s2. unfold invalidate, _saveTokensToFile.
    cbn [tokens set_tokens snd say file]. auto. }
  assert (Hstored : forall s2, tokens s2 = None -> stored s2 = file s2).
  { intros s2 H2. unfold stored, getTokens, _loadTokensFromFile.
    rewrite H2. destruct (file s2); reflexivity. }
  destruct Hwhy as [Hnone|(f & Hrej)].
  - rewrite Hnone. cbn [fst snd].
    destruct (Hinv (say "No refresh token available. Cannot refresh access token."
                      (say attempt s1)))
      as (Hi1 & Hi2).
    split; [reflexivity|]. split; [exact Hi1|].
    cbn [file say] in Hi2.
    split; [congruence|]. rewrite (Hstored _ Hi1). congruence.
  - rewrite Hpoint in Hrej.
    destruct (truthy_ostr (refresh_token (top d))) eqn:Hrt.
    + unfold refresh_or.
      destruct (refreshAccessToken env (say attempt s1)) as [out s2] eqn:Href.
      cbn [fst] in Hrej. subst out.
      pose proof (rejected_refresh_spares_the_file env (say attempt s1) f s2
                    Href) as Hf2.
      cbn [file say] in Hf2.
      cbn [fst snd].
      destruct (Hinv (say "Failed to refresh access token:" s2)) as (Hi1 & Hi2).
      split; [reflexivity|]. split; [exact Hi1|].
      cbn [file say] in Hi2.
      split; [congruence|]. rewrite (Hstored _ Hi1). congruence.
    + cbn [fst snd].
      destruct (Hinv (say "No refresh token available. Cannot refresh access token."
                        (say attempt s1)))
        as (Hi1 & Hi2).
      split; [reflexivity|]. split; [exact Hi1|].
      cbn [file say] in Hi2.
      split; [congruence|]. rewrite (Hstored _ Hi1). congruence.
Qed.

Lemma legacy_invalidation_spares_the_file_witness :
  let s := fresh_store None (Some (legacy_doc token_b)) in
  let s' := snd (getValidAccessToken (rejecting 5000000) s) in
  fst (getValidAccessToken (rejecting 5000000) s) = Done None
  /\ tokens s' = None
  /\ file s' = Some (legacy_doc token_b)
  /\ stored s' = Some (legacy_doc token_b).
Proof.
  apply (legacy_invalidation_spares_the_file (rejecting 5000000)
           (fresh_store None (Some (legacy_doc token_b)))
           (legacy_doc token_b) eq_refl eq_refl eq_refl eq_refl eq_refl).
  right. eexists. reflexivity.
Defined.

Lemma clearTokens_signs_out_witness :
  let s' := clearTokens true (fresh_store (Some fresh_accounts)
                                          (Some fresh_accounts)) in
  file s' = None
  /\ fst (getValidAccessToken (granting 1000000 true) s') = Done None
  /\ fst (getAllAccounts s') = [].
Proof.
  cbv zeta.
  destruct (clearTokens_signs_out (granting 1000000 true) true
              (fresh_store (Some fresh_accounts) (Some fresh_accounts)))
    as (_ & _ & _ & Hgone & _).
  destruct (Hgone (or_introl eq_refl)) as (H1 & _ & H3 & _ & H5).
  split; [exact H1|]. split; [exact H3|exact H5].
Defined.

(** The store after [register]. *)
Lemma register_shape key token s :
  exists s0,
    register key token s
    = set_tokens (Some (mkDoc (top_level s)
                              (Some (set_key key token (registered s)))
                              (Some key))) s0
    /\ file s0 = file s /\ sent s0 = sent s /\ ticks s0 = ticks s
    /\ writes s0 = writes s /\ refreshPromise s0 = refreshPromise s.
Proof.
  destruct (getTokens_frame s)
    as (s0 & Hget & _ & Hfile & Hsent & Hticks & Hwrites & Hslot).
  exists s0. split; [|auto 6].
  unfold register, top_level, registered. rewrite Hget.
  destruct (stored s) as [d|]; [destruct (accounts d)|]; reflexivity.
Qed.

Lemma stored_after_tick s : stored (tick s) = stored s.
Proof.
  unfold stored, getTokens, _loadTokensFromFile. cbn [tokens tick file].
  destruct (tokens s); [reflexivity|]. destruct (file s); reflexivity.
Qed.

(** A granted exchange whose user is found and whose write succeeds. *)
Lemma exchange_granted env status granted description who email s :
  200 <= status < 300 ->
  _getUserEmail who = Some email ->
  write_ok env (writes s) = true ->
  let token := newToken granted (now env (ticks s)) in
  let d' := mkDoc (top_level s)
                  (Some (set_key email token (registered s)))
                  (Some email) in
  exists s',
    exchange_on_end env status (ExchangeJson granted description) who s
    = (Returned (mkExchanged token email), s', [access_token granted])
    /\ tokens s' = Some d'
    /\ file s' = Some d'
    /\ sent s' = sent s
    /\ ticks s' = S (ticks s)
    /\ refreshPromise s' = refreshPromise s.
Proof.
  intros Hst Hwho Hdisk. cbv zeta.
  unfold exchange_on_end.
  rewrite (CredentialFacts.between_200_300 status Hst).
  unfold date_now. rewrite Hwho.
  destruct (register_shape email (newToken granted (now env (ticks s)))
              (tick s))
    as (s0 & -> & Hfile & Hsent & Hticks & Hwrites & Hslot).
  unfold top_level, registered. rewrite stored_after_tick.
  unfold _saveTokensToFile. cbn [tokens set_tokens writes].
  rewrite Hwrites. cbn [writes tick]. rewrite Hdisk.
  eexists. split; [reflexivity|].
  cbn [tokens file sent ticks refreshPromise say set_file set_tokens].
  rewrite Hsent, Hticks, Hslot. cbn [sent ticks refreshPromise tick].
  repeat split; reflexivity.
Qed.

(** X15. Signing in. When the exchange of an authorization code is
    granted, the user's address is found (mail, else userPrincipalName)
    and the file can be written, the new token set is stored under that
    address and made the active account, in memory and in the file; every
    other account keeps its token set and the top-level fields stay; the
    promise resolves with the token set and the address; the profile was
    asked for with the new access token; no further token request is
    sent. The address is an ordinary key: not __proto__ and no string of
    digits, for which the assignment does not add a key at the end. *)
Theorem exchange_registers_account
  env status granted description who email s :
  200 <= status < 300 ->
  _getUserEmail who = Some email ->
  ordinary_key email = true ->
  write_ok env (writes s) = true ->
  let token := newToken granted (now env (ticks s)) in
  let accs := set_key email token (registered s) in
  exists s',
    exchange_on_end env status (ExchangeJson granted description) who s
    = (Returned (mkExchanged token email), s', [access_token granted])
    /\ tokens s' = Some (mkDoc (top_level s) (Some accs) (Some email))
    /\ file s' = tokens s'
    /\ sent s' = sent s
    /\ assoc email accs = Some token
    /\ (forall k, k <> email -> assoc k accs = assoc k (registered s))
    /\ fst (getAllAccounts s') = keys accs
    /\ access_token token = access_token granted
    /\ refresh_token token = refresh_token granted
    /\ expires_at token
       = option_map (fun e => now env (ticks s) + e * 1000)
                    (expires_in granted).
Proof.
  intros Hst Hwho Hkey Hdisk. cbv zeta.
  destruct (exchange_granted env status granted description who email s
              Hst Hwho Hdisk) as (s' & Hrun & Htok & Hfile & Hsent & _).
  cbv zeta in Hrun, Htok, Hfile.
  exists s'. split; [exact Hrun|]. split; [exact Htok|].
  split; [congruence|]. split; [exact Hsent|].
  split; [apply assoc_set_key_same|].
  split; [intros k Hk; apply assoc_set_key_other; exact Hk|].
  split; [|repeat split; reflexivity].
  unfold getAllAccounts, getTokens. rewrite Htok. reflexivity.
Qed.

Lemma exchange_registers_account_witness :
  let token := newToken granted_e 1000000 in
  let accs := set_key "e@x.com" token
                (registered (fresh_store None (Some fresh_accounts))) in
  exists s',
    exchange_on_end (granting 1000000 true) 200 (ExchangeJson granted_e None)
      (UserInfo None (Some "e@x.com"))
      (fresh_store None (Some fresh_accounts))
    = (Returned (mkExchanged token "e@x.com"), s', [Some "access-e"])
    /\ fst (getAllAccounts s') = ["a@x.com"; "d@x.com"; "e@x.com"]
    /\ assoc "a@x.com" accs = Some token_a.
Proof.
  cbv zeta.
  destruct (exchange_registers_account (granting 1000000 true) 200 granted_e
              None (UserInfo None (Some "e@x.com")) "e@x.com"
              (fresh_store None (Some fresh_accounts))
              CredentialFacts.status_200_granted eq_refl eq_refl eq_refl)
    as (s' & Hrun & _ & _ & _ & _ & _ & Hkeys & _).
  exists s'. split; [exact Hrun|]. split; [exact Hkeys|reflexivity].
Defined.

(** X16. The token of a sign-in is served at once. After a granted
    exchange with an access token and an address that is an ordinary key,
    a call of getValidAccessToken made while the new token has more than
    the buffer left returns the new access token and sends no request. *)
Theorem exchanged_token_is_served
  env status granted description who email lifetime s :
  refreshPromise s = None ->
  200 <= status < 300 ->
  _getUserEmail who = Some email ->
  ordinary_key email = true ->
  write_ok env (writes s) = true ->
  truthy_ostr (access_token granted) = true ->
  expires_in granted = Some lifetime ->
  now env (S (ticks s)) + refreshTokenBuffer
    < now env (ticks s) + lifetime * 1000 ->
  let s' := snd (fst (exchange_on_end env status
                        (ExchangeJson granted description) who s)) in
  fst (getValidAccessToken env s') = Done (access_token granted)
  /\ sent (snd (getValidAccessToken env s')) = sent s.
Proof.
  intros Hslot Hst Hwho Hkey Hdisk Haccess Hlife Hclock. cbv zeta.
  destruct (exchange_granted env status granted description who email s
              Hst Hwho Hdisk)
    as (s' & Hrun & Htok & _ & Hsent & Hticks & _).
  cbv zeta in Hrun, Htok. rewrite Hrun. cbn [fst snd].
  assert (Hemail : truthy_str email = true).
  { destruct who as [mail upn| |]; cbn [_getUserEmail] in Hwho;
      try discriminate.
    destruct (truthy_ostr mail) eqn:Hm.
    - subst mail. exact Hm.
    - destruct (truthy_ostr upn) eqn:Hu; [|discriminate].
      subst upn. exact Hu. }
  unfold getValidAccessToken, getTokens. rewrite Htok.
  cbn [accounts activeAccount]. rewrite Hemail, assoc_set_key_same.
  cbn [access_token newToken]. rewrite Haccess. cbn [negb].
  unfold date_now. rewrite Hticks.
  cbn [expires_at newToken]. rewrite Hlife. cbn [option_map expired].
  assert (Hfresh : (now env (ticks s) + lifetime * 1000 - refreshTokenBuffer
                    <=? now env (S (ticks s))) = false)
    by (apply Z.leb_gt; lia).
  rewrite Hfresh. cbn [fst snd sent tick]. auto.
Qed.

Lemma exchanged_token_is_served_witness :
  let s' := snd (fst (exchange_on_end (granting 1000000 true) 200
                        (ExchangeJson granted_e None)
                        (UserInfo (Some "e@x.com") None)
                        (fresh_store None (Some fresh_accounts)))) in
  fst (getValidAccessToken (granting 1000000 true) s')
  = Done (Some "access-e")
  /\ sent (snd (getValidAccessToken (granting 1000000 true) s')) = [].
Proof.
  apply (exchanged_token_is_served (granting 1000000 true) 200 granted_e
           None (UserInfo (Some "e@x.com") None) "e@x.com" 3600
           (fresh_store None (Some fresh_accounts))
           eq_refl CredentialFacts.status_200_granted eq_refl eq_refl
           eq_refl eq_refl eq_refl).
  vm_compute. reflexivity.
Defined.

(** X17. A write that fails during a sign-in leaves the token under two
    names. When the user's address is found but the write of the file
    fails, the handler falls into its second attempt: the token set is
    registered once more under a key made of the time, that key becomes
    the active account, and when the second write succeeds the promise
    resolves with that key as the address while the account of the user's
    address holds the same token set. The address is an ordinary key, as
    the key made of the time always is. *)
Theorem failed_write_registers_twice
  env status granted description who email s :
  200 <= status < 300 ->
  _getUserEmail who = Some email ->
  ordinary_key email = true ->
  write_ok env (writes s) = false ->
  write_ok env (S (writes s)) = true ->
  let token := newToken granted (now env (ticks s)) in
  let accountKey :=
    "account_" +:+ Requests.decimal (now env (S (ticks s))) in
  let accs := set_key accountKey token
                (set_key email token (registered s)) in
  exists s',
    exchange_on_end env status (ExchangeJson granted description) who s
    = (Returned (mkExchanged token accountKey), s', [access_token granted])
    /\ tokens s' = Some (mkDoc (top_level s) (Some accs) (Some accountKey))
    /\ file s' = tokens s'
    /\ assoc email accs = Some token
    /\ assoc accountKey accs = Some token
    /\ ordinary_key accountKey = true.
Proof.
  intros Hst Hwho Hkey Hdisk1 Hdisk2. cbv zeta.
  unfold exchange_on_end.
  rewrite (CredentialFacts.between_200_300 status Hst).
  unfold date_now. rewrite Hwho.
  destruct (register_shape email (newToken granted (now env (ticks s)))
              (tick s))
    as (s0 & Hreg & Hfile & Hsent & Hticks & Hwrites & Hslot).
  rewrite Hreg. unfold _saveTokensToFile at 1.
  cbn [tokens set_tokens writes]. rewrite Hwrites. cbn [writes tick].
  rewrite Hdisk1.
  unfold register_by_time, date_now.
  set (s1 := say "Could not determine user email, using timestamp-based key"
               (say "Error saving token cache:"
                  (failed_write (set_tokens _ s0)))).
  assert (Hmem1 : tokens s1
                  = Some (mkDoc (top_level (tick s))
                            (Some (set_key email
                                     (newToken granted (now env (ticks s)))
                                     (registered (tick s))))
                            (Some email))) by reflexivity.
  assert (Hticks1 : ticks s1 = S (ticks s))
    by (unfold s1; cbn; rewrite Hticks; reflexivity).
  assert (Hwrites1 : writes s1 = S (writes s))
    by (unfold s1; cbn; rewrite Hwrites; reflexivity).
  rewrite Hticks1.
  unfold register, getTokens. cbn [tokens tick]. rewrite Hmem1.
  cbn [accounts top]. unfold _saveTokensToFile.
  cbn [tokens set_tokens writes tick]. rewrite Hwrites1, Hdisk2.
  unfold top_level, registered. rewrite stored_after_tick.
  eexists. split; [reflexivity|].
  cbn [tokens file say set_file set_tokens].
  split; [reflexivity|]. split; [reflexivity|].
  split; [|split; [apply assoc_set_key_same|reflexivity]].
  destruct (String.eqb email
              ("account_" +:+ Requests.decimal (now env (S (ticks s)))))
    eqn:E.
  - apply String.eqb_eq in E. rewrite <- E. apply assoc_set_key_same.
  - apply String.eqb_neq in E.
    rewrite assoc_set_key_other by exact E. apply assoc_set_key_same.
Qed.

Lemma failed_write_registers_twice_witness :
  let token := newToken granted_e 1000000 in
  exists s',
    exchange_on_end (flaky_disk 1000000) 200 (ExchangeJson granted_e None)
      (UserInfo (Some "e@x.com") None)
      (fresh_store None (Some fresh_accounts))
    = (Returned (mkExchanged token "account_1000000"), s', [Some "access-e"])
    /\ fst (getAllAccounts s')
       = ["a@x.com"; "d@x.com"; "e@x.com"; "account_1000000"]
    /\ fst (getActiveAccount s') = Some "account_1000000".
Proof.
  cbv zeta.
  destruct (failed_write_registers_twice (flaky_disk 1000000) 200 granted_e
              None (UserInfo (Some "e@x.com") None) "e@x.com"
              (fresh_store None (Some fresh_accounts))
              CredentialFacts.status_200_granted eq_refl eq_refl eq_refl
              eq_refl)
    as (s' & Hrun & Htok & _).
  exists s'. split; [exact Hrun|].
  unfold getAllAccounts, getActiveAccount, getTokens. rewrite Htok.
  split; reflexivity.
Defined.

End AccountFacts.

(* ---------------------------------------------------------------------- *)
(** ** manage-accounts.js against the storage                               *)
(* ---------------------------------------------------------------------- *)

Module ManageAccountsFacts.
Import Js TokenStorage TokenStorageOps ManageAccounts.

(** X18. The command-line tool and the storage agree on the token file.
    From a file alone, switchAccount and setActiveAccount accept the same
    addresses and leave the same file; they list the same accounts for a
    multi-account document. They differ in two places: the tool reports
    success also when its write failed, where the storage fails; and the
    tool lists no account for a document in the old form, where the
    storage lists the one account 'default'. *)
Theorem tool_agrees_with_storage env email s :
  tokens s = None ->
  let ok := write_ok env (writes s) in
  let tool := switchAccount ok email (file s) in
  let storage := setActiveAccount env email s in
  file (snd storage) = snd tool
  /\ (fst tool = false <-> fst storage = Failed (AccountNotFound email))
  /\ (fst tool = true -> ok = true -> fst storage = Returned tt)
  /\ (fst tool = true -> ok = false -> fst storage = Failed WriteFailed)
  /\ (forall d accs, file s = Some d -> accounts d = Some accs ->
        listAccounts (file s) = Some (fst (getAllAccounts s)))
  /\ (forall d, file s = Some d -> accounts d = None ->
        listAccounts (file s) = Some []
        /\ (truthy_ostr (access_token (top d)) = true ->
            fst (getAllAccounts s) = ["default"])).
Proof.
  intros Hmem. cbv zeta.
  unfold switchAccount, setActiveAccount, listAccounts, getAllAccounts,
    getTokens, _loadTokensFromFile.
  rewrite Hmem.
  destruct (file s) as [d|] eqn:Hfile;
    [destruct (accounts d) as [accs|] eqn:Haccs;
     [destruct (found email accs) eqn:Ht;
      [unfold _saveTokensToFile; cbn [tokens set_tokens say writes];
       destruct (write_ok env (writes s))|]|]|];
    cbn [fst snd file say set_file failed_write set_tokens];
    rewrite ?Hfile, ?Haccs;
    repeat match goal with
           | |- _ /\ _ => split
           | |- _ <-> _ => split
           | |- forall _, _ => intro
           | H : Some _ = Some _ |- _ => injection H as <-
           end;
    try discriminate; try congruence; try reflexivity;
    match goal with
    | H : truthy_ostr _ = true |- _ => rewrite H; reflexivity
    end.
Qed.

Lemma tool_agrees_with_storage_witness :
  let s := fresh_store None (Some fresh_accounts) in
  let tool := switchAccount true "d@x.com" (file s) in
  let storage := setActiveAccount (granting 1000000 true) "d@x.com" s in
  file (snd storage) = snd tool
  /\ snd tool = Some (with_active fresh_accounts "d@x.com")
  /\ fst tool = true.
Proof.
  cbv zeta.
  destruct (tool_agrees_with_storage (granting 1000000 true) "d@x.com"
              (fresh_store None (Some fresh_accounts)) eq_refl)
    as (Hfile & _).
  cbv zeta in Hfile. split; [exact Hfile|]. split; reflexivity.
Defined.

End ManageAccountsFacts.

(* ---------------------------------------------------------------------- *)
(** ** auth/token-manager.js: the cache, refused refreshes, test tokens     *)
(* ---------------------------------------------------------------------- *)

Module TokenCacheFacts.
Import Js.
Import TokenStorage(TokenSet, access_token, refresh_token, expires_at,
                    TokenResponse, TokenNetworkError, Json, Unreadable,
                    mkTokenRequest, now, token_endpoint, write_ok,
                    Done, Waiting, Resolved, Rejected, top, token_b,
                    legacy_doc).
Import TokenManagerOps.

(** X19. Saving and loading the token cache. A successful save puts the
    tokens into the cache and into the file; a later process loads from
    the file exactly the tokens that were saved when they carry an access
    token, and loads nothing (the cache stays empty) when they do not. A
    failed save changes neither the cache nor the file. *)
Theorem token_cache_round_trip (t : TokenSet) (s : TokenManager.State) :
  (let s1 := snd (TokenManager.saveTokenCache true t s) in
   fst (TokenManager.saveTokenCache true t s) = true
   /\ TokenManager.cachedTokens s1 = Some t
   /\ TokenManager.file s1 = Some t
   /\ (truthy_ostr (access_token t) = true ->
       fst (TokenManager.loadTokenCache (restart s1)) = Some t
       /\ TokenManager.cachedTokens
            (snd (TokenManager.loadTokenCache (restart s1))) = Some t)
   /\ (truthy_ostr (access_token t) = false ->
       fst (TokenManager.loadTokenCache (restart s1)) = None
       /\ TokenManager.cachedTokens
            (snd (TokenManager.loadTokenCache (restart s1))) = None))
  /\ (let s1 := snd (TokenManager.saveTokenCache false t s) in
      fst (TokenManager.saveTokenCache false t s) = false
      /\ TokenManager.cachedTokens s1 = TokenManager.cachedTokens s
      /\ TokenManager.file s1 = TokenManager.file s).
Proof.
  split; cbv zeta; unfold TokenManager.saveTokenCache; cbn [fst snd].
  - split; [reflexivity|]. split; [reflexivity|]. split; [reflexivity|].
    unfold TokenManager.loadTokenCache, restart.
    cbn [TokenManager.file].
    split; intros ->; cbn [fst snd]; split; reflexivity.
  - repeat split; reflexivity.
Qed.

Lemma token_cache_round_trip_witness :
  fst (TokenManager.loadTokenCache
         (restart (snd (TokenManager.saveTokenCache true token_b
                          (TokenManager.fresh_state None None)))))
  = Some token_b.
Proof.
  destruct (token_cache_round_trip token_b
              (TokenManager.fresh_state None None))
    as ((_ & _ & _ & Hload & _) & _).
  exact (proj1 (Hload eq_refl)).
Defined.

(** X20. A refresh that is refused changes nothing. When the store holds
    a refresh token and the endpoint answers the refresh with a network
    error, with a body that does not parse or with a status outside 2xx,
    the refresh fails (null in token-manager.js, a rejection in
    token-storage.js) after exactly one request; the tokens in memory and
    the file are what they were, nothing is written, and the slot of the
    pending refresh is empty again. *)
Theorem refused_refresh_changes_nothing :
  (forall env s t r,
      TokenManager.cachedTokens s = Some t ->
      refresh_token t = Some r ->
      truthy_str r = true ->
      TokenManager.refreshPromise s = None ->
      refused (token_endpoint env (TokenManager.sent s)
                 (mkTokenRequest "refresh_token" r)) = true ->
      let out := fst (TokenManager.refreshAccessToken env s) in
      let s' := snd (TokenManager.refreshAccessToken env s) in
      out = Done None
      /\ TokenManager.cachedTokens s' = Some t
      /\ TokenManager.file s' = TokenManager.file s
      /\ TokenManager.writes s' = TokenManager.writes s
      /\ TokenManager.sent s'
         = TokenManager.sent s ++ [mkTokenRequest "refresh_token" r]
      /\ TokenManager.refreshPromise s' = None)
  /\ (forall env s d r,
      TokenStorage.tokens s = Some d ->
      refresh_token (top d) = Some r ->
      truthy_str r = true ->
      TokenStorage.refreshPromise s = None ->
      refused (token_endpoint env (TokenStorage.sent s)
                 (mkTokenRequest "refresh_token" r)) = true ->
      let out := fst (TokenStorage.refreshAccessToken env s) in
      let s' := snd (TokenStorage.refreshAccessToken env s) in
      (exists f, out = Done (Rejected f))
      /\ TokenStorage.tokens s' = Some d
      /\ TokenStorage.file s' = TokenStorage.file s
      /\ TokenStorage.writes s' = TokenStorage.writes s
      /\ TokenStorage.sent s'
         = TokenStorage.sent s ++ [mkTokenRequest "refresh_token" r]
      /\ TokenStorage.refreshPromise s' = None).
Proof.
  split.
  - intros env s t r Hmem Hr Htr Hslot Hrefused. cbv zeta.
    unfold TokenManager.refreshAccessToken, TokenManager.refresh_invoke.
    rewrite Hslot, Hmem, Hr, Htr.
    destruct (token_endpoint env (TokenManager.sent s)
                (mkTokenRequest "refresh_token" r)) as [status body|].
    + unfold TokenManager.refresh_on_end.
      destruct body as [b|].
      * cbn [refused] in Hrefused. apply negb_true_iff in Hrefused.
        rewrite Hrefused. cbn. rewrite Hmem. repeat split; reflexivity.
      * cbn. rewrite Hmem. repeat split; reflexivity.
    + cbn. rewrite Hmem. repeat split; reflexivity.
  - intros env s d r Hmem Hr Htr Hslot Hrefused. cbv zeta.
    unfold TokenStorage.refreshAccessToken, TokenStorage.refresh_invoke.
    rewrite Hmem, Hr, Htr, Hslot.
    destruct (token_endpoint env (TokenStorage.sent s)
                (mkTokenRequest "refresh_token" r)) as [status body|].
    + unfold TokenStorage.refresh_on_end.
      destruct body as [b|].
      * cbn [refused] in Hrefused. apply negb_true_iff in Hrefused.
        rewrite Hrefused. cbn. rewrite Hmem.
        split; [eexists; reflexivity|]. repeat split; reflexivity.
      * cbn. rewrite Hmem.
        split; [eexists; reflexivity|]. repeat split; reflexivity.
    + cbn. rewrite Hmem.
      split; [eexists; reflexivity|]. repeat split; reflexivity.
Qed.

Lemma refused_refresh_changes_nothing_witness :
  (let s := TokenManager.fresh_state (Some token_b) (Some token_b) in
   fst (TokenManager.refreshAccessToken (TokenStorageOps.rejecting 5000000) s)
   = Done None
   /\ TokenManager.cachedTokens
        (snd (TokenManager.refreshAccessToken
                (TokenStorageOps.rejecting 5000000) s)) = Some token_b)
  /\ (let s := TokenStorage.fresh_store (Some (legacy_doc token_b))
                                        (Some (legacy_doc token_b)) in
      TokenStorage.tokens
        (snd (TokenStorage.refreshAccessToken
                (TokenStorageOps.rejecting 5000000) s))
      = Some (legacy_doc token_b)).
Proof.
  split; cbv zeta.
  - destruct (proj1 refused_refresh_changes_nothing
                (TokenStorageOps.rejecting 5000000)
                (TokenManager.fresh_state (Some token_b) (Some token_b))
                token_b "refresh-b" eq_refl eq_refl eq_refl eq_refl eq_refl)
      as (Hout & Hmem & _).
    split; [exact Hout|exact Hmem].
  - destruct (proj2 refused_refresh_changes_nothing
                (TokenStorageOps.rejecting 5000000)
                (TokenStorage.fresh_store (Some (legacy_doc token_b))
                                          (Some (legacy_doc token_b)))
                (legacy_doc token_b) "refresh-b"
                eq_refl eq_refl eq_refl eq_refl eq_refl)
      as (_ & Hmem & _).
    exact Hmem.
Defined.

Lemma test_prefix (suffix : string) :
  startsWith ("test_access_token_" +:+ suffix) "test_access_token_" = true.
Proof.
  unfold startsWith. cbn. destruct suffix; reflexivity.
Qed.

(** X21. Test tokens work as tokens. After createTestTokens could save
    them, the test tokens are in the cache and in the file; the access
    token starts with test_access_token_, so that with USE_TEST_MODE every
    call of the Graph client with it is answered by the simulator; and
    while more than the five-minute buffer of its hour is left
    getAccessToken returns it without a request. *)
Theorem test_tokens_are_served env s :
  TokenManager.refreshPromise s = None ->
  write_ok env (TokenManager.writes s) = true ->
  let testTokens := fst (createTestTokens env s) in
  let s1 := snd (createTestTokens env s) in
  TokenManager.cachedTokens s1 = Some testTokens
  /\ TokenManager.file s1 = Some testTokens
  /\ TokenManager.sent s1 = TokenManager.sent s
  /\ expires_at testTokens
     = Some (now env (S (S (TokenManager.ticks s))) + 3600 * 1000)
  /\ (exists token,
         access_token testTokens = Some token
         /\ forall genv,
              Http.USE_TEST_MODE genv = true ->
              Requests.test_mode genv token = true)
  /\ (now env (TokenManager.ticks s1) + TokenManager.refreshBuffer
        < now env (S (S (TokenManager.ticks s))) + 3600 * 1000 ->
      fst (TokenManager.getAccessToken env s1)
      = Done (access_token testTokens)
      /\ TokenManager.sent (snd (TokenManager.getAccessToken env s1))
         = TokenManager.sent s).
Proof.
  intros Hslot Hdisk. cbv zeta.
  unfold createTestTokens. cbn [fst snd].
  cbn [TokenManager.writes TokenManager.tick]. rewrite Hdisk.
  unfold TokenManager.saveTokenCache. cbn [fst snd].
  cbn [TokenManager.cachedTokens TokenManager.file TokenManager.sent
       TokenManager.tick TokenManager.ticks expires_at access_token].
  split; [reflexivity|]. split; [reflexivity|]. split; [reflexivity|].
  split; [reflexivity|].
  split.
  - eexists. split; [reflexivity|]. intros genv Hmode.
    unfold Requests.test_mode. rewrite Hmode, test_prefix. reflexivity.
  - intros Hclock. unfold TokenManager.getAccessToken.
    cbn [TokenManager.cachedTokens TokenManager.ticks].
    unfold TokenManager.expiry_or_zero. cbn [expires_at].
    match goal with
    | |- context [?a <=? ?b] =>
        assert (Hfresh : (a <=? b) = false) by (apply Z.leb_gt; lia)
    end.
    rewrite Hfresh. cbn [fst snd TokenManager.sent TokenManager.tick
                         access_token].
    split; reflexivity.
Qed.

Lemma test_tokens_are_served_witness :
  let env := TokenStorage.granting 1700000000000 true in
  let s := TokenManager.fresh_state None None in
  fst (TokenManager.getAccessToken env (snd (createTestTokens env s)))
  = Done (Some "test_access_token_1700000000000")
  /\ Requests.test_mode Requests.mock_env "test_access_token_1700000000000"
     = true.
Proof.
  cbv zeta.
  destruct (test_tokens_are_served (TokenStorage.granting 1700000000000 true)
              (TokenManager.fresh_state None None) eq_refl eq_refl)
    as (_ & _ & _ & _ & _ & Hserved).
  cbv zeta in Hserved.
  destruct (Hserved ltac:(vm_compute; reflexivity)) as (Hout & _).
  split; [exact Hout|reflexivity].
Defined.

End TokenCacheFacts.

(* ---------------------------------------------------------------------- *)
(** ** The enhanced token storage                                           *)
(* ---------------------------------------------------------------------- *)

Module EnhancedOpsFacts.
Import Js EnhancedTokenStorage EnhancedOps.
Import TokenStorage(TokenSet, access_token, refresh_token, expires_in,
                    expires_at, mkTokenRequest).

Lemma granted_range status :
  200 <= status < 300 -> ((200 <=? status) && (status <? 300))%bool = true.
Proof.
  intros H. apply andb_true_intro.
  split; [apply Z.leb_le | apply Z.ltb_lt]; lia.
Qed.

Lemma loadTokens_cached s tokens :
  cachedTokens s = Some tokens -> loadTokens s = (Some tokens, s).
Proof. intros H. unfold loadTokens. rewrite H. reflexivity. Qed.

Lemma saveTokens_failed save_time u s :
  exists u',
    saveTokens save_time false u s
    = (false, u',
       mkStorage (cachedTokens s) (configured s) (file s) (sent s)
                 (S (writes s))
                 (log s ++ ["[TokenStorage] Error saving tokens:"]))
    /\ access_token u' = access_token u.
Proof.
  unfold saveTokens.
  destruct (negb (truthy_num (expires_at u)) && truthy_num (expires_in u))%bool;
    eexists; split; reflexivity.
Qed.

(** X22. In the enhanced storage a write that fails does not fail the
    refresh. When the cached token is due, the refresh is granted and the
    file cannot be written, getValidAccessToken still returns the new
    access token, after one request; but the cache and the file keep the
    old token set, so the new token is not remembered; the failure of the
    write and the success of the refresh are both logged. *)
Theorem enhanced_failed_save_still_serves
  s tokens r status tokenResponse check_time at_time save_time :
  cachedTokens s = Some tokens ->
  needsRefresh check_time tokens = true ->
  refresh_token tokens = Some r ->
  truthy_str r = true ->
  configured s = true ->
  200 <= status < 300 ->
  let out := getValidAccessToken (Response status (Parsed tokenResponse))
               check_time at_time save_time false s in
  fst out = access_token tokenResponse
  /\ cachedTokens (snd out) = Some tokens
  /\ file (snd out) = file s
  /\ sent (snd out) = sent s ++ [mkTokenRequest "refresh_token" r]
  /\ In "[TokenStorage] Error saving tokens:" (log (snd out))
  /\ In "[TokenStorage] Token refreshed successfully" (log (snd out)).
Proof.
  intros Hmem Hdue Hr Htr Hconf Hst. cbv zeta.
  unfold getValidAccessToken.
  rewrite (loadTokens_cached s tokens Hmem), Hdue.
  unfold refreshToken, refresh_invoke. rewrite Hr, Htr.
  cbn [configured say]. rewrite Hconf.
  unfold refresh_on_end. rewrite (granted_range status Hst).
  match goal with
  | |- context [saveTokens save_time false ?u ?s1] =>
      destruct (saveTokens_failed save_time u s1) as (u' & Hsave & Hacc);
      rewrite Hsave
  end.
  cbn [fst snd cachedTokens file sent log say send].
  rewrite Hacc, Hmem.
  split.
  { destruct (truthy_ostr (refresh_token _)); reflexivity. }
  split; [reflexivity|]. split; [reflexivity|]. split; [reflexivity|].
  split; apply in_or_app; [left; apply in_or_app; right|right];
    left; reflexivity.
Qed.

Lemma enhanced_failed_save_still_serves_witness :
  let out := getValidAccessToken (Response 200 (Parsed granted_hour))
               5000000 5000000 5000001 false
               (fresh_storage (Some stale) (Some stale)) in
  fst out = Some "access-new"
  /\ cachedTokens (snd out) = Some stale
  /\ file (snd out) = Some stale.
Proof.
  cbv zeta.
  destruct (enhanced_failed_save_still_serves
              (fresh_storage (Some stale) (Some stale)) stale "refresh-old"
              200 granted_hour 5000000 5000000 5000001
              eq_refl eq_refl eq_refl eq_refl eq_refl
              CredentialFacts.status_200_granted)
    as (H1 & H2 & H3 & _).
  cbv zeta in H1, H2, H3.
  split; [exact H1|]. split; [exact H2|exact H3].
Defined.

(** X23. What the enhanced getValidAccessToken hands out. It sends at most
    one request. A token it returns is either the cached one, which then
    has more than the five-minute buffer left and costs no request, or
    the access token of a response with a 2xx status to the one refresh
    request made with the cached refresh token; a cached token that is due
    is never returned. *)
Theorem enhanced_serves_fresh_or_refreshed
  reply check_time at_time save_time ok s :
  let out := getValidAccessToken reply check_time at_time save_time ok s in
  (sent (snd out) = sent s
   \/ exists r, sent (snd out) = sent s ++ [mkTokenRequest "refresh_token" r])
  /\ (forall v,
        fst out = Some v ->
        (exists tokens,
            fst (loadTokens s) = Some tokens
            /\ needsRefresh check_time tokens = false
            /\ access_token tokens = Some v
            /\ sent (snd out) = sent s
            /\ exists e, expires_at tokens = Some e
                         /\ check_time + refreshBufferTime < e)
        \/ (exists tokens r status tokenResponse,
              fst (loadTokens s) = Some tokens
              /\ needsRefresh check_time tokens = true
              /\ refresh_token tokens = Some r
              /\ reply = Response status (Parsed tokenResponse)
              /\ 200 <= status < 300
              /\ access_token tokenResponse = Some v
              /\ sent (snd out)
                 = sent s ++ [mkTokenRequest "refresh_token" r])).
Proof.
  cbv zeta. unfold getValidAccessToken.
  assert (Hload : sent (snd (loadTokens s)) = sent s
                  /\ configured (snd (loadTokens s)) = configured s).
  { unfold loadTokens. destruct (cachedTokens s); [auto|].
    destruct (file s) as [t|]; [|auto].
    destruct (truthy_ostr (access_token t)); auto. }
  destruct Hload as (Hsent0 & Hconf0).
  destruct (loadTokens s) as [[tokens|] s0] eqn:Hrun;
    cbn [fst snd] in Hsent0, Hconf0 |- *.
  2:{ split; [left; exact Hsent0|]. intros v Hv. discriminate. }
  destruct (needsRefresh check_time tokens) eqn:Hdue.
  2:{ cbn [fst snd]. split; [left; exact Hsent0|].
      intros v Hv. left. exists tokens.
      split; [reflexivity|]. split; [exact Hdue|]. split; [exact Hv|].
      split; [exact Hsent0|].
      unfold needsRefresh in Hdue.
      destruct (expires_at tokens) as [e|]; [|discriminate].
      destruct (e =? 0); [discriminate|].
      apply Z.leb_gt in Hdue. exists e. split; [reflexivity|lia]. }
  unfold refreshToken, refresh_invoke.
  destruct (refresh_token tokens) as [r|] eqn:Hr.
  2:{ cbn [fst snd sent say]. split; [left; exact Hsent0|].
      intros v Hv. discriminate. }
  destruct (truthy_str r).
  2:{ cbn [fst snd sent say]. split; [left; exact Hsent0|].
      intros v Hv. discriminate. }
  cbn [configured say]. rewrite Hconf0.
  destruct (configured s).
  2:{ cbn [fst snd sent say]. split; [left; exact Hsent0|].
      intros v Hv. discriminate. }
  destruct reply as [status body|].
  2:{ unfold refresh_on_error. cbn [fst snd sent say send].
      rewrite Hsent0. split; [right; eauto|]. intros v Hv. discriminate. }
  unfold refresh_on_end.
  destruct ((200 <=? status) && (status <? 300))%bool eqn:Hst.
  2:{ cbn [fst snd sent say send]. rewrite Hsent0.
      split; [right; eauto|]. intros v Hv. discriminate. }
  destruct body as [tokenResponse|].
  2:{ cbn [fst snd sent say send]. rewrite Hsent0.
      split; [right; eauto|]. intros v Hv. discriminate. }
  apply andb_true_iff in Hst. destruct Hst as [Hlo Hhi].
  apply Z.leb_le in Hlo. apply Z.ltb_lt in Hhi.
  assert (Hsave : forall u s1,
             sent (snd (saveTokens save_time ok u s1)) = sent s1
             /\ access_token (snd (fst (saveTokens save_time ok u s1)))
                = access_token u).
  { intros u s1. unfold saveTokens.
    destruct (negb (truthy_num (expires_at u)) && truthy_num (expires_in u))%bool;
      destruct ok; cbn; auto. }
  match goal with
  | |- context [saveTokens save_time ok ?u ?s1] =>
      destruct (Hsave u s1) as (Hs1 & Ha1);
      destruct (saveTokens save_time ok u s1) as [[saved t'] s2]
  end.
  cbn [fst snd] in Hs1, Ha1 |- *. cbn [sent say]. rewrite Hs1.
  cbn [sent say send]. rewrite Hsent0.
  split; [right; eauto|].
  intros v Hv. right. exists tokens, r, status, tokenResponse.
  split; [reflexivity|]. split; [exact Hdue|]. split; [exact Hr|].
  split; [reflexivity|]. split; [lia|]. split; [|reflexivity].
  rewrite Ha1 in Hv.
  destruct (truthy_ostr (refresh_token _)) in Hv; exact Hv.
Qed.

Lemma enhanced_serves_fresh_or_refreshed_witness :
  exists tokens r status tokenResponse,
    fst (loadTokens (fresh_storage (Some stale) (Some stale))) = Some tokens
    /\ needsRefresh 5000000 tokens = true
    /\ refresh_token tokens = Some r
    /\ Response 200 (Parsed granted_hour)
       = Response status (Parsed tokenResponse)
    /\ 200 <= status < 300
    /\ access_token tokenResponse = Some "access-new".
Proof.
  destruct (enhanced_serves_fresh_or_refreshed
              (Response 200 (Parsed granted_hour)) 5000000 5000000 5000001
              true (fresh_storage (Some stale) (Some stale)))
    as (_ & Hserved).
  destruct (Hserved "access-new" eq_refl)
    as [(tokens & Hl & Hdue & _)
       |(tokens & r & status & tokenResponse
         & H1 & H2 & H3 & H4 & H5 & H6 & _)].
  - exfalso. cbn in Hl. injection Hl as <-.
    vm_compute in Hdue. discriminate.
  - exists tokens, r, status, tokenResponse.
    split; [exact H1|]. split; [exact H2|]. split; [exact H3|].
    split; [exact H4|]. split; [exact H5|exact H6].
Defined.

(** X28. The enhanced storage does not share a pending refresh. Calls of
    refreshToken that are made before any response has arrived send one
    request each: with the client credentials set and non-empty refresh
    tokens, as many requests go out as calls were made, in their order. *)
Theorem enhanced_refreshes_are_not_shared (refreshTokens : list string) :
  forall s,
    configured s = true ->
    forallb truthy_str refreshTokens = true ->
    sent (invoke_each refreshTokens s)
    = sent s ++ map (mkTokenRequest "refresh_token") refreshTokens
    /\ cachedTokens (invoke_each refreshTokens s) = cachedTokens s
    /\ file (invoke_each refreshTokens s) = file s.
Proof.
  unfold invoke_each.
  induction refreshTokens as [|r rest IH]; intros s Hconf Hall.
  - cbn [fold_left map]. rewrite app_nil_r. auto.
  - cbn [forallb] in Hall. apply andb_true_iff in Hall.
    destruct Hall as [Hr Hrest].
    cbn [fold_left map]. unfold refresh_invoke at 2 4 6.
    rewrite Hr, Hconf. cbn [snd].
    match goal with
    | |- context [fold_left _ rest ?s1] =>
        destruct (IH s1 Hconf Hrest) as (Hsent & Hcache & Hfile)
    end.
    rewrite Hsent, Hcache, Hfile. cbn [sent cachedTokens file send say].
    rewrite <- app_assoc. auto.
Qed.

Lemma enhanced_refreshes_are_not_shared_witness :
  sent (invoke_each ["refresh-old"; "refresh-old"; "refresh-old"]
          (fresh_storage (Some stale) (Some stale)))
  = [mkTokenRequest "refresh_token" "refresh-old";
     mkTokenRequest "refresh_token" "refresh-old";
     mkTokenRequest "refresh_token" "refresh-old"].
Proof.
  exact (proj1 (enhanced_refreshes_are_not_shared
                  ["refresh-old"; "refresh-old"; "refresh-old"]
                  (fresh_storage (Some stale) (Some stale))
                  eq_refl eq_refl)).
Defined.

(** X24. The expiration info is consistent. When getTokenExpirationInfo
    answers, the tokens have a recorded expiry other than 0; the time left
    is the expiry minus the clock; the token counts as expired exactly
    when no time is left; it counts as in need of a refresh exactly when
    no more than the buffer is left; and, the clock not running backwards
    between the two readings, a token that is expired is in need of a
    refresh. *)
Theorem expiration_info_is_consistent at_time check_time s info :
  fst (getTokenExpirationInfo at_time check_time s) = Some info ->
  (exists tokens,
      fst (loadTokens s) = Some tokens
      /\ expires_at tokens = Some (expiresAt info))
  /\ expiresAt info <> 0
  /\ timeUntilExpiry info = expiresAt info - at_time
  /\ (isExpired info = true <-> expiresAt info <= at_time)
  /\ (info_needsRefresh info = true
      <-> expiresAt info - check_time <= refreshBufferTime)
  /\ (at_time <= check_time -> isExpired info = true ->
      info_needsRefresh info = true).
Proof.
  unfold getTokenExpirationInfo.
  destruct (loadTokens s) as [[tokens|] s0]; [|discriminate].
  cbn [fst]. unfold truthy_num, needsRefresh.
  destruct (expires_at tokens) as [e|] eqn:He; [|discriminate].
  destruct (e =? 0) eqn:Hz; cbn [negb fst]; [discriminate|].
  intros [= <-]. cbn [expiresAt timeUntilExpiry isExpired info_needsRefresh].
  apply Z.eqb_neq in Hz. unfold refreshBufferTime.
  split; [eauto|]. split; [exact Hz|]. split; [reflexivity|].
  rewrite !Z.leb_le. repeat split; intros; lia.
Qed.

Lemma expiration_info_is_consistent_witness :
  exists info,
    fst (getTokenExpirationInfo 5000000 5000001
           (fresh_storage (Some stale) (Some stale))) = Some info
    /\ expiresAt info = 1000
    /\ info_needsRefresh info = true.
Proof.
  eexists. split; [reflexivity|].
  destruct (expiration_info_is_consistent 5000000 5000001
              (fresh_storage (Some stale) (Some stale)) _ eq_refl)
    as (_ & _ & _ & _ & Hneeds & _).
  split; [reflexivity|]. apply Hneeds. vm_compute. discriminate.
Defined.

(** X25. Signing in with the enhanced storage. Without both client
    credentials exchangeCodeForTokens fails before any request and changes
    nothing. When the exchange is granted and saved, the response with its
    computed expiry is the cached token set and the content of the file,
    and a call of getValidAccessToken made while more than the buffer is
    left returns the new access token without a request. *)
Theorem enhanced_exchange_is_served
  code status tokenResponse lifetime at_time save_time s :
  (configured s = false ->
   forall reply ok,
     exchangeCodeForTokens code reply at_time save_time ok s
     = (NotConfigured, s))
  /\ (configured s = true ->
      200 <= status < 300 ->
      expires_in tokenResponse = Some lifetime ->
      at_time + lifetime * 1000 <> 0 ->
      let t := with_expires_at (Some (at_time + lifetime * 1000))
                               tokenResponse in
      let out := exchangeCodeForTokens code
                   (Response status (Parsed tokenResponse))
                   at_time save_time true s in
      fst out = Exchanged t
      /\ cachedTokens (snd out) = Some t
      /\ file (snd out) = Some t
      /\ sent (snd out) = sent s ++ [mkTokenRequest "authorization_code" code]
      /\ (forall reply check_time at_time' save_time' ok,
            check_time + refreshBufferTime < at_time + lifetime * 1000 ->
            fst (getValidAccessToken reply check_time at_time' save_time' ok
                   (snd out)) = access_token tokenResponse
            /\ sent (snd (getValidAccessToken reply check_time at_time'
                            save_time' ok (snd out)))
               = sent (snd out))).
Proof.
  split.
  - intros Hconf reply ok. unfold exchangeCodeForTokens. rewrite Hconf.
    reflexivity.
  - intros Hconf Hst Hlife Hnz. cbv zeta.
    unfold exchangeCodeForTokens. rewrite Hconf.
    rewrite (granted_range status Hst). rewrite Hlife. cbn [option_map].
    unfold saveTokens. cbn [expires_at with_expires_at truthy_num].
    apply Z.eqb_neq in Hnz. rewrite Hnz. cbn [negb andb fst snd].
    cbn [cachedTokens file sent say send].
    split; [reflexivity|]. split; [reflexivity|]. split; [reflexivity|].
    split; [reflexivity|].
    intros reply check_time at_time' save_time' ok Hclock.
    unfold getValidAccessToken, loadTokens.
    cbn [cachedTokens say]. unfold needsRefresh.
    cbn [expires_at with_expires_at]. rewrite Hnz.
    assert (Hfresh : (at_time + lifetime * 1000 - check_time
                      <=? refreshBufferTime) = false)
      by (apply Z.leb_gt; lia).
    rewrite Hfresh. cbn [fst snd]. split; reflexivity.
Qed.

Lemma enhanced_exchange_is_served_witness :
  let out := exchangeCodeForTokens "code-1"
               (Response 200 (Parsed granted_hour))
               5000000 5000001 true (fresh_storage None None) in
  fst (getValidAccessToken NetworkError 5000002 5000002 5000003 true
         (snd out)) = Some "access-new"
  /\ sent (snd out) = [mkTokenRequest "authorization_code" "code-1"].
Proof.
  cbv zeta.
  destruct (proj2 (enhanced_exchange_is_served "code-1" 200 granted_hour
                     3600 5000000 5000001 (fresh_storage None None))
              eq_refl CredentialFacts.status_200_granted eq_refl
              ltac:(lia))
    as (_ & _ & _ & Hsent & Hserved).
  split; [|exact Hsent].
  exact (proj1 (Hserved NetworkError 5000002 5000002 5000003 true
                  ltac:(vm_compute; reflexivity))).
Defined.

(** X26. Signing out of the enhanced storage is all or nothing. When the
    file is gone afterwards (it was deleted, or there was none) the cache
    is empty too and getValidAccessToken returns null without a request;
    when the file cannot be deleted, the cache is not dropped either:
    cache and file stay as they were and only the error is logged. *)
Theorem enhanced_clear_is_all_or_nothing unlink_ok s :
  let s' := clearTokens unlink_ok s in
  sent s' = sent s
  /\ ((unlink_ok = true \/ file s = None) ->
      cachedTokens s' = None
      /\ file s' = None
      /\ forall reply check_time at_time save_time ok,
           fst (getValidAccessToken reply check_time at_time save_time ok s')
           = None
           /\ sent (snd (getValidAccessToken reply check_time at_time
                           save_time ok s')) = sent s)
  /\ (unlink_ok = false -> file s <> None ->
      cachedTokens s' = cachedTokens s
      /\ file s' = file s
      /\ In "[TokenStorage] Error clearing tokens:" (log s')).
Proof.
  cbv zeta. unfold clearTokens.
  destruct (file s) as [t|] eqn:Hfile; [destruct unlink_ok|].
  - split; [reflexivity|]. split; [|intros Hno; discriminate].
    intros _. split; [reflexivity|]. split; [reflexivity|].
    intros. split; reflexivity.
  - split; [reflexivity|].
    split; [intros [Hyes|Hnone]; discriminate|].
    intros _ _. cbn [cachedTokens file log say]. rewrite Hfile.
    split; [reflexivity|]. split; [reflexivity|].
    apply in_or_app. right. left. reflexivity.
  - split; [reflexivity|]. split; [|intros _ Hne; congruence].
    intros _. split; [reflexivity|]. split; [reflexivity|].
    intros. split; reflexivity.
Qed.

Lemma enhanced_clear_is_all_or_nothing_witness :
  cachedTokens (clearTokens false (fresh_storage (Some stale) (Some stale)))
  = Some stale
  /\ cachedTokens (clearTokens true (fresh_storage (Some stale) (Some stale)))
     = None.
Proof.
  split.
  - destruct (enhanced_clear_is_all_or_nothing false
                (fresh_storage (Some stale) (Some stale)))
      as (_ & _ & Hkept).
    exact (proj1 (Hkept eq_refl ltac:(discriminate))).
  - destruct (enhanced_clear_is_all_or_nothing true
                (fresh_storage (Some stale) (Some stale)))
      as (_ & Hgone & _).
    exact (proj1 (Hgone (or_introl eq_refl))).
Defined.

End EnhancedOpsFacts.
